(** * Itinerary server: Scout, Explorer, JSON recovery, coverage, tool retry

    A shallow embedding of the JavaScript sources
    [src/scout.js], [src/explorer.js], [src/planner.js] (the event
    organisation utilities and the five-step [extractJSON] of the itinerary
    call) and [src/api_server.js] (the search-and-scrape edition with
    [safeToolInvoke], the Scout+Explorer edition with [parseInterests],
    [analyzeEventCoverage] and [generateItinerary], and the interest
    catalogue of [user_interests.js]), and the properties stated about
    them.

    Conventions.
    - Text is a [string] of 8-bit characters; JavaScript's UTF-16 code units
      coincide with it on ASCII text.
    - An exception is a value of [Exn]; a computation that may throw returns
      a [Completion].
    - What the JavaScript engine or the host leaves open (number coercions,
      [Date.parse] on non-ISO text, the order [Array.prototype.sort] gives
      under an inconsistent comparator, the local time zone) is a field of
      the class [Host]; what ECMAScript requires of these fields is the
      record [HostLaws]. Theorems hold for every lawful host.

    The file has two parts: the model (definitions only), then the facts. *)

From Stdlib Require Import String Ascii List ZArith Lia Bool Arith.
From Stdlib Require Import Permutation Sorted.
Import ListNotations.

#[local] Set Warnings "-register-all".

Local Open Scope string_scope.
Local Open Scope nat_scope.
Local Open Scope list_scope.

(* ===================================================================== *)
(** ** Text helpers *)
(* ===================================================================== *)

Module Text.

Definition chars (s : string) : list ascii := list_ascii_of_string s.
Definition text (l : list ascii) : string := string_of_list_ascii l.

Definition code (c : ascii) : nat := nat_of_ascii c.

Definition is_digit (c : ascii) : bool :=
  (48 <=? code c) && (code c <=? 57).

Definition digit_val (c : ascii) : Z := Z.of_nat (code c) - 48.

Definition is_hex (c : ascii) : bool :=
  is_digit c
  || ((65 <=? code c) && (code c <=? 70))
  || ((97 <=? code c) && (code c <=? 102)).

Definition hex_val (c : ascii) : nat :=
  if is_digit c then code c - 48
  else if (97 <=? code c) then code c - 87
  else code c - 55.

Definition is_lower (c : ascii) : bool :=
  (97 <=? code c) && (code c <=? 122).

Definition is_upper (c : ascii) : bool :=
  (65 <=? code c) && (code c <=? 90).

Definition to_lower (c : ascii) : ascii :=
  if is_upper c then ascii_of_nat (code c + 32) else c.

(** ASCII part of the ECMAScript WhiteSpace and LineTerminator classes:
    what [\s] and [String.prototype.trim] recognise on 8-bit text. *)
Definition is_space (c : ascii) : bool :=
  match code c with
  | 9 | 10 | 11 | 12 | 13 | 32 => true
  | _ => false
  end.

Fixpoint drop_while (p : ascii -> bool) (l : list ascii) : list ascii :=
  match l with
  | c :: r => if p c then drop_while p r else l
  | [] => []
  end.

Fixpoint take_while (p : ascii -> bool) (l : list ascii) : list ascii :=
  match l with
  | c :: r => if p c then c :: take_while p r else []
  | [] => []
  end.

(** [s.trim()] *)
Definition trim_chars (l : list ascii) : list ascii :=
  rev (drop_while is_space (rev (drop_while is_space l))).

Definition trim (s : string) : string := text (trim_chars (chars s)).

Fixpoint starts_with (p l : list ascii) : bool :=
  match p, l with
  | [], _ => true
  | a :: p', b :: l' => Ascii.eqb a b && starts_with p' l'
  | _ :: _, [] => false
  end.

(** [s.includes(p)] *)
Fixpoint includes_chars (p l : list ascii) : bool :=
  starts_with p l ||
  match l with
  | [] => false
  | _ :: r => includes_chars p r
  end.

Definition includes (s p : string) : bool := includes_chars (chars p) (chars s).

(** [s.startsWith(p)] *)
Definition startsWith (s p : string) : bool := starts_with (chars p) (chars s).

(** [s.substring(0, n)] *)
Definition substring0 (n : nat) (s : string) : string :=
  text (firstn n (chars s)).

(** [s.split(sep)] for a one-character separator: never empty. *)
Fixpoint split_chars (sep : ascii) (l : list ascii) : list (list ascii) :=
  match l with
  | [] => [[]]
  | c :: r =>
      if Ascii.eqb c sep then [] :: split_chars sep r
      else match split_chars sep r with
           | p :: ps => (c :: p) :: ps
           | [] => [[c]]
           end
  end.

Definition split (sep : ascii) (s : string) : list string :=
  map text (split_chars sep (chars s)).

(** Decimal numeral of a natural number, as [String(n)] prints it. *)
Fixpoint digits_fuel (fuel n : nat) (acc : list ascii) : list ascii :=
  match fuel with
  | O => acc
  | S f =>
      let acc' := ascii_of_nat (48 + n mod 10) :: acc in
      if n / 10 =? 0 then acc' else digits_fuel f (n / 10) acc'
  end.

Definition nat_digits (n : nat) : list ascii := digits_fuel (S n) n [].

Definition of_nat (n : nat) : string := text (nat_digits n).

(** Left padding with zeros to a fixed width. *)
Definition pad_left (width : nat) (l : list ascii) : list ascii :=
  repeat "0"%char (width - List.length l) ++ l.

End Text.

(* ===================================================================== *)
(** ** Exceptions and completions *)
(* ===================================================================== *)

(** A thrown value. The sources only ever read [error.message] from it. *)
Inductive Exn : Type :=
| Error (message : string)          (* [new Error(message)] *)
| TypeError (message : string)      (* raised by the engine *)
| SyntaxError (message : string)    (* raised by [JSON.parse] *)
| Thrown (message : option string). (* rejected by a collaborator *)

Definition message (e : Exn) : option string :=
  match e with
  | Error m | TypeError m | SyntaxError m => Some m
  | Thrown m => m
  end.

Inductive Completion (A : Type) : Type :=
| Normal (a : A)
| Throw (e : Exn).

Arguments Normal {A} a.
Arguments Throw {A} e.

Definition is_normal {A} (c : Completion A) : bool :=
  match c with Normal _ => true | Throw _ => false end.

Definition bind {A B} (c : Completion A) (k : A -> Completion B) : Completion B :=
  match c with
  | Normal a => k a
  | Throw e => Throw e
  end.

Notation "x <- c ;; k" := (bind c (fun x => k))
  (at level 61, c at next level, right associativity).

(** [l.forEach(f)] and [for (const x of l)] with a body that may throw,
    threading what the body updates. *)
Fixpoint for_each {A S} (body : S -> A -> Completion S) (l : list A) (s : S)
  : Completion S :=
  match l with
  | [] => Normal s
  | x :: r => s' <- body s x ;; for_each body r s'
  end.

(** [l.map(f)] with a callback that may throw. *)
Fixpoint map_each {A B} (f : A -> Completion B) (l : list A) : Completion (list B) :=
  match l with
  | [] => Normal []
  | x :: r => y <- f x ;; ys <- map_each f r ;; Normal (y :: ys)
  end.

(** [l.some(p)]: stops at the first element that satisfies [p]. *)
Fixpoint some {A} (p : A -> Completion bool) (l : list A) : Completion bool :=
  match l with
  | [] => Normal false
  | x :: r => b <- p x ;; if b then Normal true else some p r
  end.

(* ===================================================================== *)
(** ** JSON values and [JSON.parse] *)
(* ===================================================================== *)

Module JSON.

(** A parsed JSON value. A number keeps its source lexeme: what number it
    denotes (a binary64 float) is only ever asked of the [Host]. An object
    is the list of its own properties in creation order, keys distinct. *)
Inductive json : Type :=
| JNull
| JBool (b : bool)
| JNumber (lexeme : string)
| JString (s : string)
| JArray (items : list json)
| JObject (fields : list (string * json)).

(** [obj[k]] restricted to own properties. *)
Fixpoint own (fields : list (string * json)) (k : string) : option json :=
  match fields with
  | [] => None
  | (k', v) :: r => if String.eqb k' k then Some v else own r k
  end.

(** [obj[k] = v]: an existing property keeps its place. *)
Fixpoint set (fields : list (string * json)) (k : string) (v : json)
  : list (string * json) :=
  match fields with
  | [] => [(k, v)]
  | (k', v') :: r =>
      if String.eqb k' k then (k', v) :: r else (k', v') :: set r k v
  end.

(** Properties defined one after the other, as [JSON.parse] and an object
    spread do: of two equal keys the later value wins. *)
Definition define_all (init more : list (string * json)) : list (string * json) :=
  fold_left (fun acc kv => set acc (fst kv) (snd kv)) more init.

(** *** Lexer *)

Inductive token : Type :=
| TLBrace | TRBrace | TLBracket | TRBracket | TColon | TComma
| TString (s : string)
| TNumber (lexeme : string)
| TTrue | TFalse | TNull.

(** JSON insignificant whitespace: space, tab, line feed, carriage return. *)
Definition is_ws (c : ascii) : bool :=
  match Text.code c with
  | 9 | 10 | 13 | 32 => true
  | _ => false
  end.

Definition is_number_char (c : ascii) : bool :=
  Text.is_digit c ||
  match Text.code c with
  | 43 | 45 | 46 | 69 | 101 => true   (* + - . E e *)
  | _ => false
  end.

(** The JSON number grammar: an optional minus sign; then either a single
    zero or a nonzero digit followed by digits; then optionally a point and
    one or more digits; then optionally e or E, an optional sign and one or
    more digits. *)
Definition all_digits1 (l : list ascii) : bool :=
  match l with
  | [] => false
  | _ => forallb Text.is_digit l
  end.

Definition number_exp (l : list ascii) : bool :=
  match l with
  | [] => true
  | e :: r =>
      match Text.code e with
      | 69 | 101 =>
          match r with
          | s :: r' =>
              match Text.code s with
              | 43 | 45 => all_digits1 r'
              | _ => all_digits1 r
              end
          | [] => false
          end
      | _ => false
      end
  end.

Definition number_frac (l : list ascii) : bool :=
  match l with
  | "."%char :: r =>
      match Text.take_while Text.is_digit r with
      | [] => false
      | _ => number_exp (Text.drop_while Text.is_digit r)
      end
  | _ => number_exp l
  end.

Definition number_int (l : list ascii) : bool :=
  match l with
  | "0"%char :: r => number_frac r
  | c :: r =>
      Text.is_digit c && number_frac (Text.drop_while Text.is_digit r)
  | [] => false
  end.

Definition valid_number (l : list ascii) : bool :=
  match l with
  | "-"%char :: r => number_int r
  | _ => number_int l
  end.

(** UTF-8 bytes of the code unit named by a [\uXXXX] escape. *)
Definition utf8 (n : nat) : list ascii :=
  if n <? 128 then [ascii_of_nat n]
  else if n <? 2048 then
    [ascii_of_nat (192 + n / 64); ascii_of_nat (128 + n mod 64)]
  else
    [ascii_of_nat (224 + n / 4096);
     ascii_of_nat (128 + (n / 64) mod 64);
     ascii_of_nat (128 + n mod 64)].

Definition hex4 (d : list ascii) : nat :=
  fold_left (fun acc c => 16 * acc + Text.hex_val c) d 0.

Inductive lexstate : Type :=
| LStart
| LStr (acc : list ascii)                       (* inside a string, reversed *)
| LEsc (acc : list ascii)                       (* after a backslash *)
| LUni (acc : list ascii) (hex : list ascii)    (* inside [\uXXXX] *)
| LNum (acc : list ascii)                       (* inside a number, reversed *)
| LLit (acc : list ascii).                      (* inside a literal, reversed *)

Definition literal_token (l : list ascii) : option token :=
  let w := Text.text l in
  if String.eqb w "true" then Some TTrue
  else if String.eqb w "false" then Some TFalse
  else if String.eqb w "null" then Some TNull
  else None.

Definition number_token (l : list ascii) : option token :=
  if valid_number l then Some (TNumber (Text.text l)) else None.

(** One character read in the start state. *)
Definition lex_start (c : ascii) (out : list token)
  : option (lexstate * list token) :=
  if is_ws c then Some (LStart, out)
  else match Text.code c with
       | 34 => Some (LStr [], out)
       | 123 => Some (LStart, TLBrace :: out)
       | 125 => Some (LStart, TRBrace :: out)
       | 91 => Some (LStart, TLBracket :: out)
       | 93 => Some (LStart, TRBracket :: out)
       | 58 => Some (LStart, TColon :: out)
       | 44 => Some (LStart, TComma :: out)
       | _ =>
           if is_number_char c then Some (LNum [c], out)
           else if Text.is_lower c then Some (LLit [c], out)
           else None
       end.

Definition unescape (c : ascii) : option ascii :=
  match Text.code c with
  | 34 => Some (ascii_of_nat 34)    (* quotation mark *)
  | 92 => Some (ascii_of_nat 92)    (* backslash *)
  | 47 => Some (ascii_of_nat 47)    (* solidus *)
  | 98 => Some (ascii_of_nat 8)     (* backspace *)
  | 102 => Some (ascii_of_nat 12)   (* form feed *)
  | 110 => Some (ascii_of_nat 10)   (* line feed *)
  | 114 => Some (ascii_of_nat 13)   (* carriage return *)
  | 116 => Some (ascii_of_nat 9)    (* tab *)
  | _ => None
  end.

(** The tokens of a text, reversed; [None] is a syntax error. *)
Fixpoint lex (st : lexstate) (out : list token) (l : list ascii)
  : option (list token) :=
  match l with
  | [] =>
      match st with
      | LStart => Some out
      | LNum acc =>
          match number_token (rev acc) with
          | Some t => Some (t :: out)
          | None => None
          end
      | LLit acc =>
          match literal_token (rev acc) with
          | Some t => Some (t :: out)
          | None => None
          end
      | LStr _ | LEsc _ | LUni _ _ => None
      end
  | c :: r =>
      match st with
      | LStart =>
          match lex_start c out with
          | Some (st', out') => lex st' out' r
          | None => None
          end
      | LStr acc =>
          match Text.code c with
          | 34 => lex LStart (TString (Text.text (rev acc)) :: out) r
          | 92 => lex (LEsc acc) out r
          | n => if n <? 32 then None else lex (LStr (c :: acc)) out r
          end
      | LEsc acc =>
          match Text.code c with
          | 117 => lex (LUni acc []) out r
          | _ =>
              match unescape c with
              | Some c' => lex (LStr (c' :: acc)) out r
              | None => None
              end
          end
      | LUni acc hex =>
          if Text.is_hex c then
            match hex with
            | [_; _; _] =>
                lex (LStr (rev (utf8 (hex4 (hex ++ [c]))) ++ acc)) out r
            | _ => lex (LUni acc (hex ++ [c])) out r
            end
          else None
      | LNum acc =>
          if is_number_char c then lex (LNum (c :: acc)) out r
          else
            match number_token (rev acc) with
            | Some t =>
                match lex_start c (t :: out) with
                | Some (st', out') => lex st' out' r
                | None => None
                end
            | None => None
            end
      | LLit acc =>
          if Text.is_lower c then lex (LLit (c :: acc)) out r
          else
            match literal_token (rev acc) with
            | Some t =>
                match lex_start c (t :: out) with
                | Some (st', out') => lex st' out' r
                | None => None
                end
            | None => None
            end
      end
  end.

Definition tokens (s : string) : option (list token) :=
  option_map (@rev token) (lex LStart [] (Text.chars s)).

(** *** Parser: a pushdown automaton over the tokens *)

Inductive frame : Type :=
| FArray (acc : list json)                              (* items, reversed *)
| FObject (acc : list (string * json))                  (* members, reversed *)
| FMember (acc : list (string * json)) (key : string).  (* awaiting a value *)

Inductive pstate : Type :=
| PValue (stack : list frame) (first : bool)  (* a value; a closing bracket if first *)
| PKey (stack : list frame) (first : bool)    (* a key; a closing brace if first *)
| PColon (stack : list frame)
| PSep (stack : list frame)                   (* a comma or the closer *)
| PDone (v : json).

(** A value is complete: hand it to the enclosing frame. *)
Definition complete (stack : list frame) (v : json) : option pstate :=
  match stack with
  | [] => Some (PDone v)
  | FArray acc :: rest => Some (PSep (FArray (v :: acc) :: rest))
  | FMember acc k :: rest => Some (PSep (FObject ((k, v) :: acc) :: rest))
  | FObject _ :: _ => None
  end.

Definition object_of (acc : list (string * json)) : json :=
  JObject (define_all [] (rev acc)).

Definition step (st : pstate) (t : token) : option pstate :=
  match st with
  | PValue stack first =>
      match t with
      | TNull => complete stack JNull
      | TTrue => complete stack (JBool true)
      | TFalse => complete stack (JBool false)
      | TNumber x => complete stack (JNumber x)
      | TString s => complete stack (JString s)
      | TLBracket => Some (PValue (FArray [] :: stack) true)
      | TLBrace => Some (PKey (FObject [] :: stack) true)
      | TRBracket =>
          match first, stack with
          | true, FArray acc :: rest => complete rest (JArray (rev acc))
          | _, _ => None
          end
      | _ => None
      end
  | PKey stack first =>
      match t, stack with
      | TString k, FObject acc :: rest => Some (PColon (FMember acc k :: rest))
      | TRBrace, FObject acc :: rest =>
          if first then complete rest (object_of acc) else None
      | _, _ => None
      end
  | PColon stack =>
      match t with
      | TColon => Some (PValue stack false)
      | _ => None
      end
  | PSep stack =>
      match t, stack with
      | TComma, FArray _ :: _ => Some (PValue stack false)
      | TRBracket, FArray acc :: rest => complete rest (JArray (rev acc))
      | TComma, FObject _ :: _ => Some (PKey stack false)
      | TRBrace, FObject acc :: rest => complete rest (object_of acc)
      | _, _ => None
      end
  | PDone _ => None
  end.

Fixpoint run (st : pstate) (ts : list token) : option pstate :=
  match ts with
  | [] => Some st
  | t :: r =>
      match step st t with
      | Some st' => run st' r
      | None => None
      end
  end.

(** [JSON.parse(text)] for a string [text]; [None] is a [SyntaxError]. *)
Definition parse_text (s : string) : option json :=
  match tokens s with
  | Some ts =>
      match run (PValue [] false) ts with
      | Some (PDone v) => Some v
      | _ => None
      end
  | None => None
  end.

(** [JSON.parse(x)]: a missing argument is first turned into the text
    ["undefined"], which is no JSON. *)
Definition parse (x : option string) : Completion json :=
  match x with
  | Some s =>
      match parse_text s with
      | Some v => Normal v
      | None => Throw (SyntaxError "Unexpected token in JSON")
      end
  | None => Throw (SyntaxError "Unexpected token u in JSON at position 0")
  end.

End JSON.

(* ===================================================================== *)
(** ** Regular expressions: the fragment the sources use *)
(* ===================================================================== *)

Module Regex.

(** A character class. *)
Inductive cls : Type :=
| Any                 (* [\s\S] *)
| Space               (* \s *)
| Chr (c : ascii)     (* a literal character *)
| ChrI (c : ascii).   (* a literal character under the i flag *)

Definition test (k : cls) (x : ascii) : bool :=
  match k with
  | Any => true
  | Space => Text.is_space x
  | Chr c => Ascii.eqb c x
  | ChrI c => Ascii.eqb (Text.to_lower c) (Text.to_lower x)
  end.

(** A pattern is a sequence of items; there is at most one capture group. *)
Inductive item : Type :=
| One (k : cls)
| Greedy (k : cls)    (* k* *)
| Lazy (k : cls)      (* k*? *)
| Open                (* opening parenthesis of group 1 *)
| Close.              (* closing parenthesis of group 1 *)

Definition pattern : Type := list item.

(** Where group 1 starts and ends, once known. *)
Definition caps : Type := (option nat * option nat)%type.

(** Backtracking match of [p] against [l], which starts at index [pos] of
    the subject: the end index and the captures of the first way to match,
    in the order ECMAScript tries them. *)
Fixpoint match_here (p : pattern) : list ascii -> nat -> caps -> option (nat * caps) :=
  match p with
  | [] => fun _ pos cap => Some (pos, cap)
  | One k :: p' =>
      fun l pos cap =>
        match l with
        | x :: r => if test k x then match_here p' r (S pos) cap else None
        | [] => None
        end
  | Open :: p' => fun l pos cap => match_here p' l pos (Some pos, snd cap)
  | Close :: p' => fun l pos cap => match_here p' l pos (fst cap, Some pos)
  | Greedy k :: p' =>
      fix greedy (l : list ascii) (pos : nat) (cap : caps) : option (nat * caps) :=
        match l with
        | x :: r =>
            if test k x then
              match greedy r (S pos) cap with
              | Some res => Some res
              | None => match_here p' l pos cap
              end
            else match_here p' l pos cap
        | [] => match_here p' l pos cap
        end
  | Lazy k :: p' =>
      fix lazy (l : list ascii) (pos : nat) (cap : caps) : option (nat * caps) :=
        match match_here p' l pos cap with
        | Some res => Some res
        | None =>
            match l with
            | x :: r => if test k x then lazy r (S pos) cap else None
            | [] => None
            end
        end
  end.

(** The leftmost start index at which the pattern matches. *)
Fixpoint search (p : pattern) (l : list ascii) (pos : nat)
  : option (nat * (nat * caps)) :=
  match match_here p l pos (None, None) with
  | Some res => Some (pos, res)
  | None =>
      match l with
      | [] => None
      | _ :: r => search p r (S pos)
      end
  end.

(** The array [text.match(re)] returns for a regular expression without the
    g flag: element 0 is the matched text, element 1 the text of group 1. *)
Record result : Type := { whole : string; group1 : option string }.

Definition slice (from to : nat) (l : list ascii) : string :=
  Text.text (firstn (to - from) (skipn from l)).

Definition exec (p : pattern) (s : string) : option result :=
  let l := Text.chars s in
  match search p l 0 with
  | Some (start, (stop, cap)) =>
      Some {| whole := slice start stop l;
              group1 := match cap with
                        | (Some a, Some b) => Some (slice a b l)
                        | _ => None
                        end |}
  | None => None
  end.

Definition lit (s : string) : pattern := map (fun c => One (Chr c)) (Text.chars s).
Definition litI (s : string) : pattern := map (fun c => One (ChrI c)) (Text.chars s).

(** The JSON-tagged fence: three backticks, json, \s*, a lazy group of any
    characters, \s*, three backticks; flag i. *)
Definition json_fence : pattern :=
  litI "```json" ++ [Greedy Space; Open; Lazy Any; Close; Greedy Space] ++ litI "```".

(** Any fence: three backticks, \s*, a lazy group, \s*, three backticks. *)
Definition any_fence : pattern :=
  lit "```" ++ [Greedy Space; Open; Lazy Any; Close; Greedy Space] ++ lit "```".

(** An opening brace, greedily anything, a closing brace. *)
Definition braces : pattern := lit "{" ++ [Greedy Any] ++ lit "}".

(** An opening bracket, greedily anything, a closing bracket. *)
Definition brackets : pattern := lit "[" ++ [Greedy Any] ++ lit "]".

End Regex.

(* ===================================================================== *)
(** ** The JSON extractors *)
(* ===================================================================== *)

Module Extract.

Import JSON.

(** [try { return JSON.parse(s); } catch (e) { }] *)
Definition try_parse (s : string) : option json :=
  match JSON.parse (Some s) with
  | Normal v => Some v
  | Throw _ => None
  end.

(** An empty string is falsy. *)
Definition nonempty (s : string) : bool := negb (String.eqb s "").

(** The fence tagged json: [codeBlockMatch && codeBlockMatch[1]], then the
    trimmed interior is parsed. *)
Definition from_json_fence (text : string) : option json :=
  match Regex.exec Regex.json_fence text with
  | Some m =>
      match Regex.group1 m with
      | Some g => if nonempty g then try_parse (Text.trim g) else None
      | None => None
      end
  | None => None
  end.

(** Any fence whose trimmed interior starts with a brace or a bracket. *)
Definition from_any_fence (text : string) : option json :=
  match Regex.exec Regex.any_fence text with
  | Some m =>
      match Regex.group1 m with
      | Some g =>
          if nonempty g then
            let content := Text.trim g in
            if Text.startsWith content "{" || Text.startsWith content "["
            then try_parse content else None
          else None
      | None => None
      end
  | None => None
  end.

(** From the first opening brace to the last closing brace. *)
Definition from_braces (text : string) : option json :=
  match Regex.exec Regex.braces text with
  | Some m => try_parse (Regex.whole m)
  | None => None
  end.

(** From the first opening bracket to the last closing bracket; the array
    is wrapped as [{ itinerary: arr }]. *)
Definition from_brackets (text : string) : option json :=
  match Regex.exec Regex.brackets text with
  | Some m =>
      match try_parse (Regex.whole m) with
      | Some arr => Some (JObject [("itinerary", arr)])
      | None => None
      end
  | None => None
  end.

Definition or_else {A} (a : option A) (b : Completion A) : Completion A :=
  match a with
  | Some v => Normal v
  | None => b
  end.

(** [extractJSON] of planner.js, the itinerary call site. The function
    starts by reading [text.length], which throws on a missing text. *)
Definition extractJSON (text : option string) : Completion json :=
  match text with
  | None =>
      Throw (TypeError "Cannot read properties of undefined (reading 'length')")
  | Some text =>
      or_else (try_parse text)
      (or_else (from_json_fence text)
      (or_else (from_any_fence text)
      (or_else (from_braces text)
      (or_else (from_brackets text)
      (Throw (Error
         ("Could not extract valid JSON from response. First 200 chars: "
          ++ Text.substring0 200 text)%string))))))
  end.

(** [extractJSON] of scout.js and explorer.js: direct parse, tagged fence,
    braces. [JSON.parse(undefined)] fails inside its [try]; the first
    [text.match] then throws on a missing text. *)
Definition extractJSON3 (who : string) (text : option string) : Completion json :=
  match text with
  | None =>
      Throw (TypeError "Cannot read properties of undefined (reading 'match')")
  | Some text =>
      or_else (try_parse text)
      (or_else (from_json_fence text)
      (or_else (from_braces text)
      (Throw (Error
         ("Could not extract JSON from " ++ who ++ " response")%string))))
  end.

End Extract.

(* ===================================================================== *)
(** ** Calendar days, time values and time zones *)
(* ===================================================================== *)

Module Dates.

Local Open Scope Z_scope.

Definition msPerDay : Z := 86400000.
Definition msPerHour : Z := 3600000.

(** The largest time value a Date holds; beyond it [TimeClip] gives NaN. *)
Definition maxTime : Z := 8640000000000000.

(** A Date object's time value; [None] is NaN (an invalid date). *)
Definition time : Type := option Z.

Definition TimeClip (t : Z) : time :=
  if Z.abs t <=? maxTime then Some t else None.

Definition is_leap (y : Z) : bool :=
  ((y mod 4 =? 0) && negb (y mod 100 =? 0)) || (y mod 400 =? 0).

Definition days_in_month (y m : Z) : Z :=
  match m with
  | 2 => if is_leap y then 29 else 28
  | 4 | 6 | 9 | 11 => 30
  | _ => 31
  end.

(** Day number (days since 1970-01-01) of a proleptic Gregorian date. *)
Definition days_from_civil (y m d : Z) : Z :=
  let y' := if m <=? 2 then y - 1 else y in
  let era := y' / 400 in
  let yoe := y' - era * 400 in
  let mp := if 2 <? m then m - 3 else m + 9 in
  let doy := (153 * mp + 2) / 5 + d - 1 in
  let doe := yoe * 365 + yoe / 4 - yoe / 100 + doy in
  era * 146097 + doe - 719468.

(** Year, month and day of month of a day number. *)
Definition civil_from_days (n : Z) : Z * Z * Z :=
  let z := n + 719468 in
  let era := z / 146097 in
  let doe := z - era * 146097 in
  let yoe := (doe - doe / 1460 + doe / 36524 - doe / 146096) / 365 in
  let doy := doe - (365 * yoe + yoe / 4 - yoe / 100) in
  let mp := (5 * doy + 2) / 153 in
  let d := doy - (153 * mp + 2) / 5 + 1 in
  let m := if mp <? 10 then mp + 3 else mp - 9 in
  let y := yoe + era * 400 in
  (if m <=? 2 then y + 1 else y, m, d).

Definition number_of (l : list ascii) : Z :=
  fold_left (fun acc c => 10 * acc + Text.digit_val c) l 0.

(** The day number a date-only ISO text [YYYY-MM-DD] denotes. *)
Definition parse_iso_date (s : string) : option Z :=
  match Text.chars s with
  | [y1; y2; y3; y4; h1; m1; m2; h2; d1; d2] =>
      if forallb Text.is_digit [y1; y2; y3; y4; m1; m2; d1; d2]
         && Ascii.eqb h1 "-" && Ascii.eqb h2 "-"
      then
        let y := number_of [y1; y2; y3; y4] in
        let m := number_of [m1; m2] in
        let d := number_of [d1; d2] in
        if (1 <=? m) && (m <=? 12) && (1 <=? d) && (d <=? days_in_month y m)
        then Some (days_from_civil y m d)
        else None
      else None
  | _ => None
  end.

Definition digits (width : nat) (n : Z) : list ascii :=
  Text.pad_left width (Text.nat_digits (Z.to_nat n)).

(** The text before the T in [toISOString()]: four digits for the years 0
    to 9999, otherwise a sign and six digits. *)
Definition iso_date_of_day (n : Z) : string :=
  let '(y, m, d) := civil_from_days n in
  let year :=
    if (0 <=? y) && (y <=? 9999) then digits 4 y
    else (if y <? 0 then "-"%char else "+"%char) :: digits 6 (Z.abs y) in
  Text.text (year ++ "-"%char :: digits 2 m ++ "-"%char :: digits 2 d).

(** [d.toISOString().split("T")[0]] of a valid date: its UTC day. *)
Definition iso_date (t : Z) : string := iso_date_of_day (t / msPerDay).

(** The offset of local time from UTC in milliseconds: at a UTC instant,
    and at a local time (ECMAScript's LocalTZA with isUTC true and false). *)
Record TimeZone : Type := {
  tza_utc : Z -> Z;
  tza_local : Z -> Z
}.

Definition LocalTime (z : TimeZone) (t : Z) : Z := t + tza_utc z t.
Definition UTC (z : TimeZone) (tl : Z) : Z := tl - tza_local z tl.

(** [d.setDate(d.getDate() + 1)]: the local time is moved to the same time
    of the next local day, MakeDay(Year, Month, Date + 1) being the day
    after, and converted back to UTC. *)
Definition next_day (z : TimeZone) (t : Z) : time :=
  TimeClip (UTC z (LocalTime z t + msPerDay)).

(** [a <= b] on two Date objects: false when either is invalid. *)
Definition le (a b : time) : bool :=
  match a, b with
  | Some x, Some y => x <=? y
  | _, _ => false
  end.

(** The zone of a host that runs on UTC. *)
Definition utc : TimeZone := {| tza_utc := fun _ => 0; tza_local := fun _ => 0 |}.

(** United States Eastern time with the rules of the year 2026: daylight
    time (UTC-4) from 2026-03-08 07:00 UTC until 2026-11-01 06:00 UTC, and
    standard time (UTC-5) otherwise. A local time that a transition skips
    or repeats takes the offset in force before the transition. *)
Definition us_eastern_2026 : TimeZone :=
  let dst_start := days_from_civil 2026 3 8 * msPerDay + 7 * msPerHour in
  let dst_end := days_from_civil 2026 11 1 * msPerDay + 6 * msPerHour in
  {| tza_utc := fun t =>
       if (dst_start <=? t) && (t <? dst_end)
       then -4 * msPerHour else -5 * msPerHour;
     tza_local := fun tl =>
       if (dst_start - 4 * msPerHour <=? tl) && (tl <? dst_end - 4 * msPerHour)
       then -4 * msPerHour else -5 * msPerHour |}.

End Dates.

(* ===================================================================== *)
(** ** JavaScript values over JSON, and the host *)
(* ===================================================================== *)

Module JS.

Import JSON.

(** A value read from parsed JSON: [None] is [undefined]. *)
Definition value : Type := option json.

(** Insertion of [x] before the first element whose key is not smaller. *)
Fixpoint insert_by {A} (key : A -> Z) (x : A) (l : list A) : list A :=
  match l with
  | [] => [x]
  | y :: r => if (key x <=? key y)%Z then x :: l else y :: insert_by key x r
  end.

(** The stable ascending sort by an integer key. *)
Fixpoint stable_sort {A} (key : A -> Z) (l : list A) : list A :=
  match l with
  | [] => []
  | x :: r => insert_by key x (stable_sort key r)
  end.

(** What the engine and the machine decide. A number is given by its JSON
    lexeme; coercions of numbers and of text never throw. *)
Class Host : Type := {
  (** the local time zone of the process *)
  zone : Dates.TimeZone;
  (** [Date.parse(s)]; [None] is NaN *)
  Date_parse : string -> option Z;
  (** ToBoolean of a number *)
  number_truthy : string -> bool;
  (** SameValueZero of two numbers *)
  number_same : string -> string -> bool;
  (** ToString of a number *)
  number_text : string -> string;
  (** [new Date(n).getTime()] of a number; [None] is NaN *)
  number_time : string -> option Z;
  (** [n > 0] for a number *)
  number_positive : string -> bool;
  (** [s > 0] for a text: its numeric value is positive *)
  text_positive : string -> bool;
  (** ToString of an array or an object, which is also the primitive that
      [new Date(v)], [v > 0] and [0 + v] start from *)
  to_text : json -> Completion string;
  (** [Array.prototype.sort(cmp)]; a comparator result [None] is NaN *)
  array_sort : forall A : Type,
      (A -> A -> Completion (option Z)) -> list A -> Completion (list A)
}.

Arguments array_sort {Host A} cmp l.

(** What ECMAScript requires of a host, as far as the sources depend on it.
    - A date-only ISO text is parsed as midnight UTC of that day.
    - Moving a date to the next local day moves it forward by at least
      half a day (zone offsets change by a few hours at most).
    - Sorting a list of at most one element calls nothing and changes
      nothing; a sort that returns has permuted its input; under a
      comparator that is the difference of integer keys the result is the
      stable ascending sort; a sort throws only what its comparator
      threw. *)
Record HostLaws (H : Host) : Prop := {
  parse_iso :
    forall s n, Dates.parse_iso_date s = Some n ->
      Date_parse s = Some (n * Dates.msPerDay)%Z;
  zone_progress :
    forall t, (Dates.msPerDay / 2 <=
               Dates.UTC zone (Dates.LocalTime zone t + Dates.msPerDay) - t)%Z;
  sort_short :
    forall A (cmp : A -> A -> Completion (option Z)) l,
      List.length l <= 1 -> array_sort cmp l = Normal l;
  sort_permutes :
    forall A (cmp : A -> A -> Completion (option Z)) l l',
      array_sort cmp l = Normal l' -> Permutation l l';
  sort_by_key :
    forall A (cmp : A -> A -> Completion (option Z)) (key : A -> Z) l,
      (forall a b, In a l -> In b l -> cmp a b = Normal (Some (key a - key b)%Z)) ->
      array_sort cmp l = Normal (stable_sort key l);
  sort_throws :
    forall A (cmp : A -> A -> Completion (option Z)) l e,
      array_sort cmp l = Throw e ->
      exists a b, In a l /\ In b l /\ cmp a b = Throw e
}.

Section WithHost.

Context {H : Host}.

(** [v.k] for a property name [k] that no built-in prototype defines. *)
Definition get (v : json) (k : string) : Completion value :=
  match v with
  | JNull =>
      Throw (TypeError ("Cannot read properties of null (reading '" ++ k ++ "')")%string)
  | JObject fields => Normal (own fields k)
  | _ => Normal None
  end.

(** ToBoolean. *)
Definition truthy (v : value) : bool :=
  match v with
  | None | Some JNull => false
  | Some (JBool b) => b
  | Some (JNumber x) => number_truthy x
  | Some (JString s) => negb (String.eqb s "")
  | Some (JArray _) | Some (JObject _) => true
  end.

(** ToString, as a template literal applies it. *)
Definition to_String (v : value) : Completion string :=
  match v with
  | None => Normal "undefined"
  | Some JNull => Normal "null"
  | Some (JBool true) => Normal "true"
  | Some (JBool false) => Normal "false"
  | Some (JNumber x) => Normal (number_text x)
  | Some (JString s) => Normal s
  | Some other => to_text other
  end.

(** [new Date(v).getTime()]: a text is parsed, an array or an object is
    turned into text and parsed. *)
Definition getTime (v : value) : Completion (option Z) :=
  match v with
  | None => Normal None
  | Some JNull => Normal (Some 0%Z)
  | Some (JBool true) => Normal (Some 1%Z)
  | Some (JBool false) => Normal (Some 0%Z)
  | Some (JNumber x) => Normal (number_time x)
  | Some (JString s) => Normal (Date_parse s)
  | Some other => s <- to_text other ;; Normal (Date_parse s)
  end.

(** [v > 0] *)
Definition positive (v : json) : Completion bool :=
  match v with
  | JNull => Normal false
  | JBool b => Normal b
  | JNumber x => Normal (number_positive x)
  | JString s => Normal (text_positive s)
  | other => s <- to_text other ;; Normal (text_positive s)
  end.

(** SameValueZero, the equality of [Set.prototype.has]. Two arrays or two
    objects are the same only if they are one object; the values compared
    here stem from different places of parsed JSON, hence never are. *)
Definition same_value (a b : value) : bool :=
  match a, b with
  | None, None => true
  | Some JNull, Some JNull => true
  | Some (JBool x), Some (JBool y) => Bool.eqb x y
  | Some (JNumber x), Some (JNumber y) => number_same x y
  | Some (JString x), Some (JString y) => String.eqb x y
  | _, _ => false
  end.

(** The elements [...v] spreads into an array or an argument list. *)
Definition spread (v : json) : Completion (list json) :=
  match v with
  | JArray items => Normal items
  | JString s =>
      Normal (map (fun c => JString (String c EmptyString)) (Text.chars s))
  | JNull => Throw (TypeError "Spread syntax requires ...iterable[Symbol.iterator] to be a function")
  | JBool _ | JNumber _ | JObject _ => Throw (TypeError "value is not iterable")
  end.

(** The own enumerable properties [{...v}] copies. *)
Definition own_properties (v : json) : list (string * json) :=
  match v with
  | JObject fields => fields
  | JArray items =>
      combine (map Text.of_nat (seq 0 (List.length items))) items
  | JString s =>
      let cs := Text.chars s in
      combine (map Text.of_nat (seq 0 (List.length cs)))
              (map (fun c => JString (String c EmptyString)) cs)
  | JNull | JBool _ | JNumber _ => []
  end.

(** [parseInt(s)]: leading white space, a sign, an optional 0x prefix,
    then the longest run of digits; [None] is NaN. *)
Definition parseInt (s : string) : option Z :=
  let l := Text.drop_while Text.is_space (Text.chars s) in
  let '(neg, l) :=
    match l with
    | "-"%char :: r => (true, r)
    | "+"%char :: r => (false, r)
    | _ => (false, l)
    end in
  let '(radix, l) :=
    match l with
    | "0"%char :: "x"%char :: r | "0"%char :: "X"%char :: r => (16%Z, r)
    | _ => (10%Z, l)
    end in
  let ds := Text.take_while (if (radix =? 16)%Z then Text.is_hex else Text.is_digit) l in
  match ds with
  | [] => None
  | _ =>
      let n := fold_left (fun acc c => (radix * acc + Z.of_nat (Text.hex_val c))%Z) ds 0%Z in
      Some (if neg then (- n)%Z else n)
  end.

(** The calendar days [while (current <= end)] visits, [current] moving to
    the next local day each round: the texts
    [current.toISOString().split("T")[0]] in order. *)
Fixpoint days_loop (fuel : nat) (current stop : Dates.time) : list string :=
  match fuel with
  | O => []
  | S f =>
      if Dates.le current stop then
        match current with
        | Some t => Dates.iso_date t :: days_loop f (Dates.next_day zone t) stop
        | None => []
        end
      else []
  end.

(** Rounds that suffice for the loop to end by its condition. *)
Definition days_fuel (current stop : Dates.time) : nat :=
  match current, stop with
  | Some c, Some e => S (Z.to_nat ((e - c) / (Dates.msPerDay / 2)))
  | _, _ => 1
  end.

(** The days of [const current = new Date(startDate); const end = new
    Date(endDate); while (current <= end) ...]. *)
Definition days_between (startDate endDate : string) : list string :=
  let current := Date_parse startDate in
  let stop := Date_parse endDate in
  days_loop (days_fuel current stop) current stop.

End WithHost.

(** The names [Object.prototype] defines: what a plain object answers to
    besides its own properties. *)
Definition object_prototype_keys : list string :=
  ["constructor"; "__defineGetter__"; "__defineSetter__"; "hasOwnProperty";
   "__lookupGetter__"; "__lookupSetter__"; "isPrototypeOf";
   "propertyIsEnumerable"; "toString"; "valueOf"; "__proto__";
   "toLocaleString"].

Definition inherited (k : string) : bool :=
  existsb (String.eqb k) object_prototype_keys.

End JS.

(* ===================================================================== *)
(** ** api_server.js (Scout + Explorer edition): coverage and final log *)
(* ===================================================================== *)

Module Server.

Import JSON.

(** A plain object used as a map from text to [V]: its own properties in
    creation order. *)
Definition dict (V : Type) : Type := list (string * V).

(** [o[k]] among the own properties. *)
Fixpoint lookup {V} (o : dict V) (k : string) : option V :=
  match o with
  | [] => None
  | (k', v) :: r => if String.eqb k' k then Some v else lookup r k
  end.

(** [o[k] = v] *)
Fixpoint assign {V} (o : dict V) (k : string) (v : V) : dict V :=
  match o with
  | [] => [(k, v)]
  | (k', v') :: r =>
      if String.eqb k' k then (k', v) :: r else (k', v') :: assign r k v
  end.

(** [o[k].push(x)] for an own property [k] holding an array. *)
Fixpoint push {A} (o : dict (list A)) (k : string) (x : A) : dict (list A) :=
  match o with
  | [] => []
  | (k', v) :: r =>
      if String.eqb k' k then (k', v ++ [x]) :: r else (k', v) :: push r k x
  end.

Record CoverageEntry : Type := {
  count : nat;
  events : list json;
  hasMorning : bool;
  hasAfternoon : bool;
  hasEvening : bool
}.

Section WithHost.

Context {H : JS.Host}.

(** The body of [events.forEach] in [analyzeEventCoverage]: an event with a
    truthy [start_time] is pushed to [grouped[eventDate]] when that is
    truthy. For a plain object [grouped] this is an own day, or a name
    inherited from [Object.prototype], whose value has no [push]. *)
Definition group_event (grouped : dict (list json)) (event : json)
  : Completion (dict (list json)) :=
  start_time <- JS.get event "start_time" ;;
  if JS.truthy start_time then
    match start_time with
    | Some (JString s) =>
        let eventDate := hd "" (Text.split "T" s) in
        match lookup grouped eventDate with
        | Some _ => Normal (push grouped eventDate event)
        | None =>
            if JS.inherited eventDate
            then Throw (TypeError "grouped[eventDate].push is not a function")
            else Normal grouped
        end
    | _ => Throw (TypeError "event.start_time.split is not a function")
    end
  else Normal grouped.

(** [parseInt(e.start_time.split("T")[1].split(":")[0])] *)
Definition hour_of (e : json) : Completion (option Z) :=
  start_time <- JS.get e "start_time" ;;
  match start_time with
  | Some (JString s) =>
      match nth_error (Text.split "T" s) 1 with
      | Some clock => Normal (JS.parseInt (hd "" (Text.split ":" clock)))
      | None =>
          Throw (TypeError "Cannot read properties of undefined (reading 'split')")
      end
  | None =>
      Throw (TypeError "Cannot read properties of undefined (reading 'split')")
  | Some JNull =>
      Throw (TypeError "Cannot read properties of null (reading 'split')")
  | Some _ => Throw (TypeError "e.start_time.split is not a function")
  end.

(** Comparisons with NaN are false. *)
Definition is_morning (hour : option Z) : bool :=
  match hour with Some h => (8 <=? h)%Z && (h <? 12)%Z | None => false end.

Definition is_afternoon (hour : option Z) : bool :=
  match hour with Some h => (12 <=? h)%Z && (h <? 17)%Z | None => false end.

Definition is_evening (hour : option Z) : bool :=
  match hour with Some h => (17 <=? h)%Z | None => false end.

Definition in_band (band : option Z -> bool) (e : json) : Completion bool :=
  hour <- hour_of e ;; Normal (band hour).

(** The entry [coverage[date] = { ... }] of one day. *)
Definition cover (dayEvents : list json) : Completion CoverageEntry :=
  m <- some (in_band is_morning) dayEvents ;;
  a <- some (in_band is_afternoon) dayEvents ;;
  e <- some (in_band is_evening) dayEvents ;;
  Normal {| count := List.length dayEvents;
            events := dayEvents;
            hasMorning := m;
            hasAfternoon := a;
            hasEvening := e |}.

(** [grouped] after the loop that initialises every date. *)
Definition initial_days (startDate endDate : string) : dict (list json) :=
  fold_left (fun grouped dateStr => assign grouped dateStr [])
            (JS.days_between startDate endDate) [].

(** [analyzeEventCoverage(events, startDate, endDate)]: the entries of the
    returned object, in creation order. *)
Definition analyzeEventCoverage (events : list json) (startDate endDate : string)
  : Completion (dict CoverageEntry) :=
  grouped <- for_each group_event events (initial_days startDate endDate) ;;
  map_each (fun entry => c <- cover (snd entry) ;; Normal (fst entry, c)) grouped.

(** [const { interest_matched, target_date, ...cleanEvent } = event]:
    destructuring throws on null; the rest are the other own properties. *)
Definition clean_event (event : json) : Completion json :=
  match event with
  | JNull =>
      Throw (TypeError "Cannot destructure 'event' as it is null.")
  | _ =>
      Normal (JObject
        (filter (fun kv => negb (String.eqb (fst kv) "interest_matched"
                                 || String.eqb (fst kv) "target_date"))
                (JS.own_properties event)))
  end.

(** The [itinerary] array that [Logger.logFinalItinerary(events)] writes to
    itinerary.json. *)
Definition logFinalItinerary (events : list json) : Completion (list json) :=
  map_each clean_event events.

End WithHost.

End Server.

(* ===================================================================== *)
(** ** A reference host *)
(* ===================================================================== *)

(** One host to run closed examples on: an engine in the given time zone
    whose [Date.parse] reads the two ISO forms [YYYY-MM-DD] and
    [YYYY-MM-DDTHH:mm], the latter with optional seconds, milliseconds and
    Z, and rejects everything else, texts with a numeric UTC offset and the
    shorter forms [YYYY] and [YYYY-MM] included, which an engine reads;
    whose sort is a stable insertion sort; and whose number coercions are
    exact on integer numerals of ordinary size only. The closed examples
    stay within these inputs; what is stated for every input is stated
    for every lawful host, not for this one. *)
Module Node.

Import JSON.

(** Significand digits and decimal exponent of a JSON number lexeme. *)
Definition decimal (x : string) : bool * list ascii * Z :=
  let l := Text.chars x in
  let '(neg, l) := match l with "-"%char :: r => (true, r) | _ => (false, l) end in
  let int := Text.take_while Text.is_digit l in
  let l := Text.drop_while Text.is_digit l in
  let '(frac, l) :=
    match l with
    | "."%char :: r => (Text.take_while Text.is_digit r, Text.drop_while Text.is_digit r)
    | _ => ([], l)
    end in
  let exp :=
    match l with
    | _ :: "-"%char :: r => (- Dates.number_of r)%Z
    | _ :: "+"%char :: r => Dates.number_of r
    | _ :: r => Dates.number_of r
    | [] => 0%Z
    end in
  let ds := Text.drop_while (Ascii.eqb "0") (int ++ frac) in
  let zeros := List.length (Text.take_while (Ascii.eqb "0") (rev ds)) in
  (neg, firstn (List.length ds - zeros) ds,
   (exp - Z.of_nat (List.length frac) + Z.of_nat zeros)%Z).

Definition number_truthy (x : string) : bool :=
  match decimal x with
  | (_, [], _) => false
  | _ => true
  end.

Definition number_same (x y : string) : bool :=
  match decimal x, decimal y with
  | (_, [], _), (_, [], _) => true
  | (n1, d1, e1), (n2, d2, e2) =>
      Bool.eqb n1 n2 && String.eqb (Text.text d1) (Text.text d2) && (e1 =? e2)%Z
  end.

(** The integer a lexeme denotes, when it denotes one. *)
Definition integer (x : string) : option Z :=
  match decimal x with
  | (neg, ds, e) =>
      if (0 <=? e)%Z then
        let n := (Dates.number_of ds * 10 ^ e)%Z in
        Some (if neg then (- n)%Z else n)
      else None
  end.

(** ToString of a number: exact for a numeral that denotes an integer;
    any other numeral is printed as it was written, which is what an engine
    prints only for the shortest numeral of the number. *)
Definition number_text (x : string) : string :=
  match integer x with
  | Some n =>
      if (n <? 0)%Z then ("-" ++ Text.of_nat (Z.to_nat (- n)))%string
      else Text.of_nat (Z.to_nat n)
  | None => x
  end.

Fixpoint to_text (v : json) : Completion string :=
  match v with
  | JNull => Normal "null"
  | JBool true => Normal "true"
  | JBool false => Normal "false"
  | JNumber x => Normal (number_text x)
  | JString s => Normal s
  | JArray items =>
      (fix join (l : list json) : Completion string :=
         match l with
         | [] => Normal ""
         | x :: r =>
             a <- match x with JNull => Normal "" | _ => to_text x end ;;
             match r with
             | [] => Normal a
             | _ => b <- join r ;; Normal (a ++ "," ++ b)%string
             end
         end) items
  | JObject fields =>
      match own fields "toString" with
      | Some _ => Throw (TypeError "Cannot convert object to primitive value")
      | None => Normal "[object Object]"
      end
  end.

Definition two (a b : ascii) : option Z :=
  if Text.is_digit a && Text.is_digit b then Some (Dates.number_of [a; b]) else None.

(** The time of day in milliseconds of [HH:mm], [HH:mm:ss] or
    [HH:mm:ss.sss], and whether a Z follows. *)
Definition clock_time (l : list ascii) : option (Z * bool) :=
  match l with
  | h1 :: h2 :: ":"%char :: m1 :: m2 :: rest =>
      match two h1 h2, two m1 m2 with
      | Some h, Some m =>
          if (h <? 24)%Z && (m <? 60)%Z then
            let base := (h * 3600000 + m * 60000)%Z in
            let zulu (r : list ascii) (t : Z) : option (Z * bool) :=
              match r with
              | [] => Some (t, false)
              | ["Z"%char] => Some (t, true)
              | _ => None
              end in
            match rest with
            | ":"%char :: s1 :: s2 :: rest' =>
                match two s1 s2 with
                | Some s =>
                    if (s <? 60)%Z then
                      match rest' with
                      | "."%char :: a :: b :: c :: rest'' =>
                          if forallb Text.is_digit [a; b; c]
                          then zulu rest'' (base + s * 1000 + Dates.number_of [a; b; c])%Z
                          else None
                      | _ => zulu rest' (base + s * 1000)%Z
                      end
                    else None
                | None => None
                end
            | _ => zulu rest base
            end
          else None
      | _, _ => None
      end
  | _ => None
  end.

(** [Date.parse] on [YYYY-MM-DD] and on [YYYY-MM-DDTHH:mm] with optional
    seconds, milliseconds and Z: a date-only text is UTC; a date-time text
    without Z is local time. Every other text is NaN here. *)
Definition Date_parse (z : Dates.TimeZone) (s : string) : option Z :=
  match Dates.parse_iso_date s with
  | Some n => Some (n * Dates.msPerDay)%Z
  | None =>
      let l := Text.chars s in
      match Dates.parse_iso_date (Text.text (firstn 10 l)), skipn 10 l with
      | Some n, "T"%char :: r =>
          match clock_time r with
          | Some (ms, true) => Some (n * Dates.msPerDay + ms)%Z
          | Some (ms, false) => Some (Dates.UTC z (n * Dates.msPerDay + ms))%Z
          | None => None
          end
      | _, _ => None
      end
  end.

Definition number_time (x : string) : option Z :=
  match integer x with
  | Some n => Dates.TimeClip n
  | None => None
  end.

Definition number_positive (x : string) : bool :=
  number_truthy x && negb (Text.startsWith x "-").

Definition text_positive (s : string) : bool :=
  let t := Text.trim s in
  valid_number (Text.chars t) && number_positive t.

(** The comparator's verdict that [x] may stay before [y]: its result is
    not positive; NaN counts as zero. *)
Definition not_after (r : option Z) : bool :=
  match r with
  | Some d => (d <=? 0)%Z
  | None => true
  end.

Fixpoint insert {A} (cmp : A -> A -> Completion (option Z)) (x : A) (l : list A)
  : Completion (list A) :=
  match l with
  | [] => Normal [x]
  | y :: r =>
      c <- cmp x y ;;
      if not_after c then Normal (x :: l)
      else r' <- insert cmp x r ;; Normal (y :: r')
  end.

Fixpoint array_sort {A} (cmp : A -> A -> Completion (option Z)) (l : list A)
  : Completion (list A) :=
  match l with
  | [] => Normal []
  | x :: r => r' <- array_sort cmp r ;; insert cmp x r'
  end.

Definition host (z : Dates.TimeZone) : JS.Host :=
  {| JS.zone := z;
     JS.Date_parse := Date_parse z;
     JS.number_truthy := number_truthy;
     JS.number_same := number_same;
     JS.number_text := number_text;
     JS.number_time := number_time;
     JS.number_positive := number_positive;
     JS.text_positive := text_positive;
     JS.to_text := to_text;
     JS.array_sort := @array_sort |}.

(** A server whose clock runs on UTC, and one on United States Eastern
    time. *)
Definition utc : JS.Host := host Dates.utc.
Definition new_york : JS.Host := host Dates.us_eastern_2026.

End Node.

(** Test inputs are written with apostrophes where the text has quotation
    marks. *)
Definition quoted (s : string) : string :=
  Text.text (map (fun c => if Ascii.eqb c "'" then ascii_of_nat 34 else c)
                 (Text.chars s)).

(** A line feed. *)
Definition LF : string := String (ascii_of_nat 10) EmptyString.

(* ===================================================================== *)
(** ** Effects: the generation service, the clock, delays and the log *)
(* ===================================================================== *)

Module Effects.

Import JSON.

(** A JavaScript object built by the sources: its own properties. *)
Definition object : Type := list (string * json).

(** What a request to the generation service is built from: the prompt is
    a function of these, and every request enables the search tool. *)
Inductive Request : Type :=
| ScoutPrompt (interest city date : string)
| ExplorerPrompt (links : list object) (city : string).

(** What [await ai.models.generateContent(...)] does: it rejects, or it
    resolves to a response whose [text] may be missing. *)
Inductive Reply : Type :=
| Rejects (e : Exn)
| Responds (text : option string).

(** The surroundings of one run: the API key of the process, the replies
    of the service (by the number of earlier requests and by the request),
    and what the clock shows (by the number of earlier readings). *)
Record Env : Type := {
  googleApiKey : option string;
  generateContent : nat -> Request -> Reply;
  clock : nat -> string
}.

(** What the logger is told about: one entry for the banner lines of a
    function, one for each progress or failure line. *)
Inductive Entry : Type :=
| Started
| Searching (interest date : string)
| Found
| SearchError (message : option string)
| Batch (index size : nat)
| BatchFound (index : nat)
| BatchFailed (index : nat) (message : option string)
| AnalysisFailed (message : option string)
| NoLinks
| Completed.

Inductive Effect : Type :=
| Call (r : Request)
| Sleep (ms : nat)
| Now
| Log (e : Entry).

(** Everything done so far, oldest first. *)
Definition World : Type := list Effect.

Definition is_call (e : Effect) : bool :=
  match e with Call _ => true | _ => false end.

Definition is_now (e : Effect) : bool :=
  match e with Now => true | _ => false end.

(** The requests issued so far. *)
Definition calls (w : World) : list Request :=
  flat_map (fun e => match e with Call r => [r] | _ => [] end) w.

(** An asynchronous function: from a world to a completion and a world. *)
Definition M (A : Type) : Type := World -> Completion A * World.

Definition ret {A} (a : A) : M A := fun w => (Normal a, w).

Definition throw {A} (e : Exn) : M A := fun w => (Throw e, w).

Definition lift {A} (c : Completion A) : M A := fun w => (c, w).

Definition bindM {A B} (m : M A) (k : A -> M B) : M B :=
  fun w =>
    match m w with
    | (Normal a, w') => k a w'
    | (Throw e, w') => (Throw e, w')
    end.

(** [try { m } catch (error) { handler }] *)
Definition try_catch {A} (m : M A) (handler : Exn -> M A) : M A :=
  fun w =>
    match m w with
    | (Normal a, w') => (Normal a, w')
    | (Throw e, w') => handler e w'
    end.

Definition emit (e : Effect) : M unit := fun w => (Normal tt, w ++ [e]).

Definition logger (e : Entry) : M unit := emit (Log e).

(** [await new Promise((resolve) => setTimeout(resolve, ms))] *)
Definition sleep (ms : nat) : M unit := emit (Sleep ms).

Section WithEnv.

Variable env : Env.

(** [new Date().toISOString()] *)
Definition now : M string :=
  fun w => (Normal (clock env (List.length (filter is_now w))), w ++ [Now]).

(** [await ai.models.generateContent(...)], then [response.text]. *)
Definition generate (r : Request) : M (option string) :=
  fun w =>
    match generateContent env (List.length (calls w)) r with
    | Rejects e => (Throw e, w ++ [Call r])
    | Responds text => (Normal text, w ++ [Call r])
    end.

(** [getGenAI()]: the client exists once the key is set. *)
Definition getGenAI (who : string) : M unit :=
  match googleApiKey env with
  | Some key =>
      if String.eqb key ""
      then throw (Error ("GOOGLE_API_KEY is required for " ++ who)%string)
      else ret tt
  | None => throw (Error ("GOOGLE_API_KEY is required for " ++ who)%string)
  end.

End WithEnv.

(** [for (const x of l) { body }] with an asynchronous body. *)
Fixpoint for_of {A S} (body : S -> A -> M S) (l : list A) (s : S) : M S :=
  match l with
  | [] => ret s
  | x :: r => bindM (body s x) (fun s' => for_of body r s')
  end.

End Effects.

Declare Scope eff_scope.
Delimit Scope eff_scope with eff.
Notation "x <- c ;; k" := (Effects.bindM c (fun x => k))
  (at level 61, c at next level, right associativity) : eff_scope.

(* ===================================================================== *)
(** ** scout.js *)
(* ===================================================================== *)

Module Scout.

Import JSON Effects.

(** The object [searchForInterest] resolves to. [queries_used] is [None]
    where the source falls back to the queries it generated. *)
Record SearchResult : Type := {
  success : bool;
  interest : string;
  city : string;
  date : string;
  links : json;
  queries_used : option json;
  error : option (option string)
}.

(** The object [scoutEvents] resolves to. *)
Record ScoutResult : Type := {
  searchResults : list SearchResult;
  allLinks : list object;
  totalLinksFound : nat
}.

Section WithHost.

Context {H : JS.Host}.
Variable env : Env.

(** [result.links?.length || 0] inside the template literal of the log
    line: turning it into text is the only part that may throw. *)
Definition found_count (links : JS.value) : Completion unit :=
  match links with
  | Some (JObject fields) =>
      let n := own fields "length" in
      if JS.truthy n then (_ <- JS.to_String n ;; Normal tt) else Normal tt
  | _ => Normal tt
  end.

(** [searchForInterest(interest, city, date, logger)] *)
Definition searchForInterest (interest city date : string) : M SearchResult :=
  (_ <- getGenAI env "Scout" ;;
   _ <- logger (Searching interest date) ;;
   try_catch
     (responseText <- generate env (ScoutPrompt interest city date) ;;
      result <- lift (Extract.extractJSON3 "Scout" responseText) ;;
      links <- lift (JS.get result "links") ;;
      _ <- lift (found_count links) ;;
      _ <- logger Found ;;
      queries <- lift (JS.get result "queries_used") ;;
      ret {| success := true;
             interest := interest;
             city := city;
             date := date;
             links := match links with
                      | Some v => if JS.truthy links then v else JArray []
                      | None => JArray []
                      end;
             queries_used := if JS.truthy queries then queries else None;
             error := None |})
     (fun e =>
        _ <- logger (SearchError (message e)) ;;
        ret {| success := false;
               interest := interest;
               city := city;
               date := date;
               links := JArray [];
               queries_used := None;
               error := Some (message e) |}))%eff.

(** [getDateRange(startDate, endDate)] *)
Definition getDateRange (startDate endDate : string) : list string :=
  JS.days_between startDate endDate.

(** [result.links && result.links.length > 0] *)
Definition has_links (links : json) : Completion bool :=
  if JS.truthy (Some links) then
    match links with
    | JArray items => Normal (0 <? List.length items)
    | JString s => Normal (0 <? String.length s)
    | JObject fields =>
        match own fields "length" with
        | Some n => JS.positive n
        | None => Normal false
        end
    | _ => Normal false
    end
  else Normal false.

(** [{ ...link, interest, date, searchedAt }] *)
Definition annotate (link : json) (interest date searchedAt : string) : object :=
  define_all (JS.own_properties link)
    [("interest", JString interest); ("date", JString date);
     ("searchedAt", JString searchedAt)].

(** [result.links.forEach((link) => allResults.allLinks.push({...}))]:
    only an array has [forEach]. *)
Definition collect (links : json) (interest date : string) (allLinks : list object)
  : M (list object) :=
  match links with
  | JArray items =>
      for_of (fun acc link =>
                (searchedAt <- now env ;;
                 ret (acc ++ [annotate link interest date searchedAt]))%eff)
             items allLinks
  | _ => throw (TypeError "result.links.forEach is not a function")
  end.

(** [link.url] of an object the sources built. *)
Definition url (link : object) : JS.value := own link "url".

(** The loop [for (const link of allResults.allLinks)] with the set
    [seenUrls]: a link is kept when its url was not seen before. *)
Fixpoint dedupe (links : list object) (seenUrls : list JS.value) : list object :=
  match links with
  | [] => []
  | link :: rest =>
      if existsb (JS.same_value (url link)) seenUrls
      then dedupe rest seenUrls
      else link :: dedupe rest (seenUrls ++ [url link])
  end.

(** One round of the inner loop of [scoutEvents]. *)
Definition sweep_step (city interest : string)
    (acc : list SearchResult * list object) (date : string)
  : M (list SearchResult * list object) :=
  (result <- searchForInterest interest city date ;;
   some <- lift (has_links (links result)) ;;
   allLinks <- (if some then collect (links result) interest date (snd acc)
                else ret (snd acc)) ;;
   _ <- sleep 500 ;;
   ret (fst acc ++ [result], allLinks))%eff.

(** [scoutEvents(city, interests, startDate, endDate, logger)] *)
Definition scoutEvents (city : string) (interests : list string)
    (startDate endDate : string) : M ScoutResult :=
  (_ <- logger Started ;;
   let dates := getDateRange startDate endDate in
   swept <- for_of (fun acc interest =>
                      for_of (sweep_step city interest) dates acc)
                   interests ([], []) ;;
   let uniqueLinks := dedupe (snd swept) [] in
   _ <- logger Completed ;;
   ret {| searchResults := fst swept;
          allLinks := uniqueLinks;
          totalLinksFound := List.length uniqueLinks |})%eff.

End WithHost.

End Scout.

(* ===================================================================== *)
(** ** explorer.js *)
(* ===================================================================== *)

Module Explorer.

Import JSON Effects.

(** [CONFIG.batchSize] *)
Definition batchSize : nat := 5.

(** An element of [rejected]: what the model listed under [rejected_links],
    or the [{ url, reason }] built for a link of a failed batch. *)
Inductive Rejected : Type :=
| Listed (v : json)
| Failed (url : JS.value) (reason : option string).

(** An operand of [totalAnalyzed += result.analyzed]: what the model
    reported as [analyzed_links], or [links.length]. *)
Inductive Analyzed : Type :=
| Reported (v : json)
| Counted (n : nat).

(** The object [analyzeBatch] resolves to. *)
Module Batch.
Record result : Type := {
  success : bool;
  events : json;
  rejected : list Rejected + json;
  analyzed : option Analyzed;
  error : option (option string)
}.
End Batch.

(** The object [exploreLinks] resolves to; [totalAnalyzed] is kept as the
    operands added to 0, in order. *)
Record ExploreResult : Type := {
  events : list json;
  totalAnalyzed : list Analyzed;
  totalEvents : nat;
  rejected : list Rejected
}.

(** [links.slice(i, j)] *)
Definition slice {A} (i j : nat) (l : list A) : list A :=
  firstn (j - i) (skipn i l).

(** [for (let i = 0; i < links.length; i += CONFIG.batchSize)
      batches.push(links.slice(i, i + CONFIG.batchSize))] *)
Fixpoint batches_from {A} (fuel i : nat) (links : list A) : list (list A) :=
  match fuel with
  | O => []
  | S f =>
      if i <? List.length links
      then slice i (i + batchSize) links :: batches_from f (i + batchSize) links
      else []
  end.

Definition make_batches {A} (links : list A) : list (list A) :=
  batches_from (List.length links) 0 links.

Section WithHost.

Context {H : JS.Host}.
Variable env : Env.

(** [x || fallback] inside a template literal. *)
Definition text_or (x : JS.value) (fallback : string) : Completion string :=
  if JS.truthy x then JS.to_String x else Normal fallback.

(** [buildAnalysisPrompt(links, city)], as far as it can fail: every field
    it interpolates is turned into text. *)
Definition buildAnalysisPrompt (links : list object) : Completion unit :=
  for_each (fun _ link =>
              _ <- JS.to_String (own link "url") ;;
              _ <- text_or (own link "title") "Unknown" ;;
              _ <- text_or (own link "snippet") "No snippet" ;;
              _ <- JS.to_String (own link "interest") ;;
              _ <- JS.to_String (own link "date") ;;
              _ <- text_or (own link "platform") "Unknown" ;;
              Normal tt)
           links tt.

(** [x || []] *)
Definition or_empty (x : JS.value) : json :=
  match x with
  | Some v => if JS.truthy x then v else JArray []
  | None => JArray []
  end.

(** [analyzeBatch(links, city, logger)] *)
Definition analyzeBatch (links : list object) (city : string) : M Batch.result :=
  (_ <- getGenAI env "Explorer" ;;
   _ <- lift (buildAnalysisPrompt links) ;;
   try_catch
     (responseText <- generate env (ExplorerPrompt links city) ;;
      result <- lift (Extract.extractJSON3 "Explorer" responseText) ;;
      valid_events <- lift (JS.get result "valid_events") ;;
      rejected_links <- lift (JS.get result "rejected_links") ;;
      analyzed_links <- lift (JS.get result "analyzed_links") ;;
      ret {| Batch.success := true;
             Batch.events := or_empty valid_events;
             Batch.rejected := inr (or_empty rejected_links);
             Batch.analyzed := Some (match analyzed_links with
                               | Some v =>
                                   if JS.truthy analyzed_links then Reported v
                                   else Counted (List.length links)
                               | None => Counted (List.length links)
                               end);
             Batch.error := None |})
     (fun e =>
        _ <- logger (AnalysisFailed (message e)) ;;
        ret {| Batch.success := false;
               Batch.events := JArray [];
               Batch.rejected :=
                 inl (map (fun l => Failed (own l "url") (message e)) links);
               Batch.analyzed := None;
               Batch.error := Some (message e) |}))%eff.

(** [allRejected.push(...result.rejected)] *)
Definition push_rejected (allRejected : list Rejected) (r : list Rejected + json)
  : Completion (list Rejected) :=
  match r with
  | inl built => Normal (allRejected ++ built)
  | inr listed => items <- JS.spread listed ;; Normal (allRejected ++ map Listed items)
  end.

(** [totalAnalyzed += result.analyzed]: adding an array or an object first
    turns it into a primitive, which may throw. *)
Definition add_analyzed (total : list Analyzed) (a : option Analyzed)
  : Completion (list Analyzed) :=
  match a with
  | Some (Reported v) =>
      match v with
      | JArray _ | JObject _ => _ <- JS.to_text v ;; Normal (total ++ [Reported v])
      | _ => Normal (total ++ [Reported v])
      end
  | Some (Counted n) => Normal (total ++ [Counted n])
  | None => Normal total
  end.

(** What the loop over the batches accumulates. *)
Record Acc : Type := {
  allEvents : list json;
  allRejected : list Rejected;
  total : list Analyzed
}.

(** One round of [for (let i = 0; i < batches.length; i++)]. *)
Definition explore_step (city : string) (count : nat) (acc : Acc)
    (numbered : nat * list object) : M Acc :=
  let '(i, batch) := numbered in
  (_ <- logger (Batch (i + 1) (List.length batch)) ;;
   result <- analyzeBatch batch city ;;
   acc' <- (if Batch.success result then
              found <- lift (JS.spread (Batch.events result)) ;;
              rej <- lift (push_rejected (allRejected acc) (Batch.rejected result)) ;;
              tot <- lift (add_analyzed (total acc) (Batch.analyzed result)) ;;
              _ <- logger (BatchFound (i + 1)) ;;
              ret {| allEvents := allEvents acc ++ found;
                     allRejected := rej;
                     total := tot |}
            else
              rej <- lift (push_rejected (allRejected acc) (Batch.rejected result)) ;;
              _ <- logger (BatchFailed (i + 1) (match Batch.error result with
                                                | Some m => m
                                                | None => None
                                                end)) ;;
              ret {| allEvents := allEvents acc;
                     allRejected := rej;
                     total := total acc |}) ;;
   _ <- (if i <? count - 1 then sleep 1000 else ret tt) ;;
   ret acc')%eff.

(** The template literal [event.name-event.start_time]. *)
Definition key (event : json) : Completion string :=
  name <- JS.get event "name" ;;
  name <- JS.to_String name ;;
  start_time <- JS.get event "start_time" ;;
  start_time <- JS.to_String start_time ;;
  Normal (name ++ "-" ++ start_time)%string.

(** The loop [for (const event of allEvents)] with the set [seen]. *)
Fixpoint dedupe (events : list json) (seen : list string) : Completion (list json) :=
  match events with
  | [] => Normal []
  | event :: rest =>
      k <- key event ;;
      if existsb (String.eqb k) seen
      then dedupe rest seen
      else (kept <- dedupe rest (seen ++ [k]) ;; Normal (event :: kept))
  end.

(** [new Date(e.start_time).getTime()] *)
Definition start_ms (e : json) : Completion (option Z) :=
  start_time <- JS.get e "start_time" ;;
  JS.getTime start_time.

(** The comparator [(a, b) => timeA - timeB]; NaN is [None]. *)
Definition by_start_time (a b : json) : Completion (option Z) :=
  timeA <- start_ms a ;;
  timeB <- start_ms b ;;
  Normal (match timeA, timeB with
          | Some x, Some y => Some (x - y)%Z
          | _, _ => None
          end).

(** [exploreLinks(links, city, logger)] *)
Definition exploreLinks (links : list object) (city : string) : M ExploreResult :=
  (_ <- logger Started ;;
   match links with
   | [] =>
       _ <- logger NoLinks ;;
       ret {| events := []; totalAnalyzed := []; totalEvents := 0;
              rejected := [] |}
   | _ =>
       let batches := make_batches links in
       let numbered := combine (seq 0 (List.length batches)) batches in
       acc <- for_of (explore_step city (List.length batches)) numbered
                     {| allEvents := []; allRejected := []; total := [] |} ;;
       uniqueEvents <- lift (dedupe (allEvents acc) []) ;;
       sorted <- lift (JS.array_sort by_start_time uniqueEvents) ;;
       _ <- logger Completed ;;
       ret {| events := sorted;
              totalAnalyzed := total acc;
              totalEvents := List.length sorted;
              rejected := allRejected acc |}
   end)%eff.

End WithHost.

End Explorer.

(* ===================================================================== *)
(** ** api_server.js (search-and-scrape edition): [safeToolInvoke] *)
(* ===================================================================== *)

Module Tools.

(** A tool handle of an MCP client: its name and the client it came from. *)
Record Tool : Type := { name : string; client : nat }.

Inductive Entry : Type :=
| GivingUp (message : option string)
| ConnectionLost (message : option string)
| Retrying (tool : string)
| ReconnectionFailed (message : option string)
| InitFailed (message : option string).

Section WithTypes.

(** The parameters of a call and what a tool returns. *)
Variables P R : Type.

Inductive Effect : Type :=
| Invoke (tool : Tool) (params : P)
| GetTools
| Log (e : Entry).

(** The module-level [searchTool] and [scrapeTool], and what happened. *)
Record State : Type := {
  searchTool : option Tool;
  scrapeTool : option Tool;
  trace : list Effect
}.

(** The collaborators: what [tool.invoke] does (by the number of earlier
    invocations) and what [mcpClient.getTools()] of a new client does (by
    the number of earlier clients). *)
Record Env : Type := {
  invoke : nat -> Tool -> P -> Completion R;
  getTools : nat -> Completion (list Tool)
}.

Definition is_invoke (e : Effect) : bool :=
  match e with Invoke _ _ => true | _ => false end.

Definition is_getTools (e : Effect) : bool :=
  match e with GetTools => true | _ => false end.

(** The number of [tool.invoke] calls made so far. *)
Definition invocations (s : State) : nat :=
  List.length (filter is_invoke (trace s)).

(** The number of [initializeMCP] connections attempted so far. *)
Definition connections (s : State) : nat :=
  List.length (filter is_getTools (trace s)).

Definition record (e : Effect) (s : State) : State :=
  {| searchTool := searchTool s;
     scrapeTool := scrapeTool s;
     trace := trace s ++ [e] |}.

Variable env : Env.

(** [allTools.find((t) => t.name === wanted)] *)
Definition find_tool (wanted : string) (allTools : list Tool) : option Tool :=
  find (fun t => String.eqb (name t) wanted) allTools.

(** [initializeMCP()] *)
Definition initializeMCP (s : State) : Completion unit * State :=
  let s1 := record GetTools s in
  match getTools env (connections s) with
  | Throw e => (Throw e, record (Log (InitFailed (message e))) s1)
  | Normal allTools =>
      let s2 := {| searchTool := find_tool "search_engine" allTools;
                   scrapeTool := find_tool "scrape_as_markdown" allTools;
                   trace := trace s1 |} in
      match searchTool s2, scrapeTool s2 with
      | Some _, Some _ => (Normal tt, s2)
      | _, _ =>
          let e := Error "Required tools not found" in
          (Throw e, record (Log (InitFailed (message e))) s2)
      end
  end.

(** [await tool.invoke(params, options)]; a null [tool] has no [invoke]. *)
Definition call (tool : option Tool) (params : P) (s : State)
  : Completion R * State :=
  match tool with
  | Some t => (invoke env (invocations s) t params, record (Invoke t params) s)
  | None =>
      (Throw (TypeError "Cannot read properties of null (reading 'invoke')"), s)
  end.

(** [error.message && (error.message.includes("No active transport") ||
    error.message.includes("Connection closed") ||
    error.message.includes("HTTP 400"))] *)
Definition isTransportError (error : Exn) : bool :=
  match message error with
  | Some m =>
      negb (String.eqb m "")
      && (Text.includes m "No active transport"
          || Text.includes m "Connection closed"
          || Text.includes m "HTTP 400")
  | None => false
  end.

(** [safeToolInvoke(tool, params, options, logger, attempt)]. The source
    recurses with [attempt + 1]; the recursion budget [fuel] makes that
    structural, and [None] means the budget ran out. *)
Fixpoint safeToolInvoke_rec (fuel : nat) (tool : option Tool) (params : P)
    (attempt : nat) (s : State) : option (Completion R * State) :=
  match fuel with
  | O => None
  | S fuel' =>
      match call tool params s with
      | (Normal r, s1) => Some (Normal r, s1)
      | (Throw error, s1) =>
          if 1 <? attempt then
            Some (Throw error, record (Log (GivingUp (message error))) s1)
          else if isTransportError error then
            let s2 := record (Log (ConnectionLost (message error))) s1 in
            match initializeMCP s2 with
            | (Throw reconnectError, s3) =>
                Some (Throw reconnectError,
                      record (Log (ReconnectionFailed (message reconnectError))) s3)
            | (Normal _, s3) =>
                match tool with
                | None =>
                    let e := TypeError "Cannot read properties of null (reading 'name')" in
                    Some (Throw e, record (Log (ReconnectionFailed (message e))) s3)
                | Some t =>
                    let newTool :=
                      if String.eqb (name t) "search_engine"
                      then searchTool s3 else scrapeTool s3 in
                    let s4 := record (Log (Retrying (name t))) s3 in
                    match safeToolInvoke_rec fuel' newTool params (attempt + 1) s4 with
                    | Some (Throw reconnectError, s5) =>
                        Some (Throw reconnectError,
                              record (Log (ReconnectionFailed (message reconnectError))) s5)
                    | other => other
                    end
                end
            end
          else Some (Throw error, s1)
      end
  end.

(** A call by the server: [attempt] takes its default 1. Two rounds of
    recursion are all the stop condition [attempt > 1] allows. *)
Definition safeToolInvoke (tool : option Tool) (params : P) (s : State)
  : option (Completion R * State) :=
  safeToolInvoke_rec 2 tool params 1 s.

End WithTypes.

Arguments Invoke {P} tool params.
Arguments GetTools {P}.
Arguments Log {P} e.
Arguments searchTool {P} s.
Arguments scrapeTool {P} s.
Arguments trace {P} s.
Arguments invoke {P R} e n tool params.
Arguments getTools {P R} e n.
Arguments invocations {P} s.
Arguments connections {P} s.
Arguments record {P} e s.
Arguments initializeMCP {P R} env s.
Arguments call {P R} env tool params s.
Arguments safeToolInvoke_rec {P R} env fuel tool params attempt s.
Arguments safeToolInvoke {P R} env tool params s.

End Tools.

(* ===================================================================== *)
(** ** planner.js: the event organisation utilities *)
(* ===================================================================== *)

Module Planner.

Import JSON.

(** [l.filter(p)] with a predicate that may throw. *)
Fixpoint filter_each {A} (p : A -> Completion bool) (l : list A) : Completion (list A) :=
  match l with
  | [] => Normal []
  | x :: r =>
      b <- p x ;;
      kept <- filter_each p r ;;
      Normal (if b then x :: kept else kept)
  end.

(** A property name that is an array index: the canonical numeral of an
    integer below 2^32 - 1. *)
Definition array_index (k : string) : option Z :=
  match Text.chars k with
  | [] => None
  | c :: r =>
      if forallb Text.is_digit (c :: r)
         && (negb (Ascii.eqb c "0") || match r with [] => true | _ => false end)
      then
        let n := Dates.number_of (c :: r) in
        if (n <? 4294967295)%Z then Some n else None
      else None
  end.

(** [o[k] = v] for a name [k] that [o] does not have yet. The own
    properties are kept in the order in which the engine enumerates them:
    array indices in ascending order, then the other names in creation
    order. *)
Fixpoint create {V} (o : Server.dict V) (k : string) (v : V) {struct o}
  : Server.dict V :=
  match array_index k with
  | None => o ++ [(k, v)]
  | Some n =>
      match o with
      | [] => [(k, v)]
      | (k', v') :: r =>
          match array_index k' with
          | Some n' => if (n' <? n)%Z then (k', v') :: create r k v else (k, v) :: o
          | None => (k, v) :: o
          end
      end
  end.

Section WithHost.

Context {H : JS.Host}.

(** [sortByTime(events)]: a copy of the array, sorted by the comparator
    that [exploreLinks] uses. *)
Definition sortByTime (events : list json) : Completion (list json) :=
  JS.array_sort Explorer.by_start_time events.

(** [if (!acc[k]) acc[k] = []; acc[k].push(event);] on a plain object
    [acc] whose own properties hold arrays. A name that [acc] inherits from
    [Object.prototype] is truthy, so nothing is created, and what is found
    there has no [push]. *)
Definition file_under (what : string) (acc : Server.dict (list json)) (k : string)
    (event : json) : Completion (Server.dict (list json)) :=
  match Server.lookup acc k with
  | Some _ => Normal (Server.push acc k event)
  | None =>
      if JS.inherited k
      then Throw (TypeError ("acc[" ++ what ++ "].push is not a function"))
      else Normal (create acc k [event])
  end.

(** [groupByDate(events)]: the own properties of the returned object. *)
Definition groupByDate (events : list json) : Completion (Server.dict (list json)) :=
  for_each (fun acc event =>
              start_time <- JS.get event "start_time" ;;
              if JS.truthy start_time then
                match start_time with
                | Some (JString s) =>
                    file_under "date" acc (hd "" (Text.split "T" s)) event
                | _ => Throw (TypeError "event.start_time.split is not a function")
                end
              else Normal acc)
           events [].

(** [event.category || "other"] as a property name. *)
Definition category_of (event : json) : Completion string :=
  category <- JS.get event "category" ;;
  if JS.truthy category then JS.to_String category else Normal "other".

(** [groupByCategory(events)] *)
Definition groupByCategory (events : list json)
  : Completion (Server.dict (list json)) :=
  for_each (fun acc event =>
              category <- category_of event ;;
              file_under "category" acc category event)
           events [].

(** [removeDuplicates(events)]: the filter with the set [seen] keeps an
    event when its key text was not seen before, as the loop of
    [exploreLinks] does. *)
Definition removeDuplicates (events : list json) : Completion (list json) :=
  Explorer.dedupe events [].

(** [eventTime >= start && eventTime <= end]; a comparison with NaN is
    false. *)
Definition within (eventTime start stop : option Z) : bool :=
  match eventTime, start, stop with
  | Some t, Some a, Some b => (a <=? t)%Z && (t <=? b)%Z
  | _, _, _ => false
  end.

(** [filterByDateRange(events, startDate, endDate)] *)
Definition filterByDateRange (events : list json) (startDate endDate : string)
  : Completion (list json) :=
  let start := JS.Date_parse startDate in
  let stop := JS.Date_parse (endDate ++ "T23:59:59") in
  filter_each (fun event =>
                 start_time <- JS.get event "start_time" ;;
                 if JS.truthy start_time then
                   eventTime <- JS.getTime start_time ;;
                   Normal (within eventTime start stop)
                 else Normal false)
              events.

Record Distribution : Type := {
  morning : list json;
  afternoon : list json;
  evening : list json;
  night : list json
}.

(** [parseInt(event.start_time.split("T")[1].split(":")[0])] for a truthy
    [start_time]. *)
Definition hour_of (start_time : JS.value) : Completion (option Z) :=
  match start_time with
  | Some (JString s) =>
      match nth_error (Text.split "T" s) 1 with
      | Some clock => Normal (JS.parseInt (hd "" (Text.split ":" clock)))
      | None =>
          Throw (TypeError "Cannot read properties of undefined (reading 'split')")
      end
  | _ => Throw (TypeError "event.start_time.split is not a function")
  end.

(** The chain of comparisons on [hour]; with NaN all of them are false and
    the event is a night event. *)
Definition place (hour : option Z) (event : json) (d : Distribution) : Distribution :=
  match hour with
  | Some h =>
      if (6 <=? h)%Z && (h <? 12)%Z then
        {| morning := morning d ++ [event]; afternoon := afternoon d;
           evening := evening d; night := night d |}
      else if (12 <=? h)%Z && (h <? 17)%Z then
        {| morning := morning d; afternoon := afternoon d ++ [event];
           evening := evening d; night := night d |}
      else if (17 <=? h)%Z && (h <? 21)%Z then
        {| morning := morning d; afternoon := afternoon d;
           evening := evening d ++ [event]; night := night d |}
      else
        {| morning := morning d; afternoon := afternoon d;
           evening := evening d; night := night d ++ [event] |}
  | None =>
      {| morning := morning d; afternoon := afternoon d;
         evening := evening d; night := night d ++ [event] |}
  end.

(** [getTimeDistribution(events)] *)
Definition getTimeDistribution (events : list json) : Completion Distribution :=
  for_each (fun d event =>
              start_time <- JS.get event "start_time" ;;
              if JS.truthy start_time then
                hour <- hour_of start_time ;;
                Normal (place hour event d)
              else Normal d)
           events
           {| morning := []; afternoon := []; evening := []; night := [] |}.

End WithHost.

End Planner.

(* ===================================================================== *)
(** ** user_interests.js: the interest catalogue *)
(* ===================================================================== *)

Module Interests.

Record Category : Type := { name : string; tags : list string }.

Definition INTEREST_CATEGORIES : list Category :=
  [{| name := "Outdoor";
      tags :=
        ["Hiking"; "Camping"; "Road Trips"; "Beach"; "Mountains";
         "National Parks"; "Adventure Travel"; "Backpacking"] |};
   {| name := "Social Activities";
      tags :=
        ["Networking"; "Meetups"; "Social Events"; "Parties"; "Happy Hour";
         "Clubbing"; "Bars"; "Dancing"] |};
   {| name := "Hobbies and Passion";
      tags :=
        ["Photography"; "Reading"; "Writing"; "Crafts"; "DIY";
         "Vintage Fashion"; "Sneakers"; "Collecting"] |};
   {| name := "Sports and Fitness";
      tags :=
        ["Gym"; "Running"; "Yoga"; "Swimming"; "Cycling"; "Basketball";
         "Soccer"; "Tennis"; "Martial Arts"] |};
   {| name := "Health and Wellbeing";
      tags :=
        ["Meditation"; "Wellness"; "Spa"; "Mental Health"; "Nutrition";
         "Mindfulness"; "Self-care"] |};
   {| name := "Technology";
      tags :=
        ["Coding"; "AI"; "Startups"; "Tech Meetups"; "Hackathons";
         "Gaming Tech"; "VR"; "Crypto"] |};
   {| name := "Art and Culture";
      tags :=
        ["Museums"; "Art Galleries"; "Theater"; "Opera"; "Ballet"; "Film";
         "Concerts"; "Live Music"] |};
   {| name := "Games";
      tags :=
        ["Video Games"; "Board Games"; "E-Sports"; "Gaming"; "Tabletop RPG";
         "Card Games"; "Arcade"] |};
   {| name := "Career and Business";
      tags :=
        ["Networking"; "Conferences"; "Workshops";
         "Professional Development"; "Entrepreneurship"; "Leadership"] |};
   {| name := "Science and Education";
      tags :=
        ["Lectures"; "Workshops"; "Book Clubs"; "Learning"; "Research";
         "STEM"; "History"; "Language Exchange"] |}].

(** [set.add(x)] on a Set of texts, its elements in insertion order. *)
Definition add (set : list string) (x : string) : list string :=
  if existsb (String.eqb x) set then set else set ++ [x].

(** [array.sort()] on texts: ascending by code units. *)
Fixpoint insert_sorted (x : string) (l : list string) : list string :=
  match l with
  | [] => [x]
  | y :: r => if String.leb x y then x :: l else y :: insert_sorted x r
  end.

Definition sort (l : list string) : list string := fold_right insert_sorted [] l.

(** [getAllTags()] *)
Definition getAllTags : list string :=
  sort (fold_left (fun allTags category => fold_left add (tags category) allTags)
                  INTEREST_CATEGORIES []).

(** [getCategoryNames()] *)
Definition getCategoryNames : list string := map name INTEREST_CATEGORIES.

(** [s.toLowerCase()] on ASCII text. *)
Definition toLowerCase (s : string) : string :=
  Text.text (map Text.to_lower (Text.chars s)).

(** [category.tags.some((tag) => interestsLower.includes(tag.toLowerCase()))] *)
Definition hasMatch (interestsLower : list string) (category : Category) : bool :=
  existsb (fun tag => existsb (String.eqb (toLowerCase tag)) interestsLower)
          (tags category).

(** [findCategoriesForInterests(interests)] *)
Definition findCategoriesForInterests (interests : list string) : list string :=
  let interestsLower := map toLowerCase interests in
  fold_left (fun categories category =>
               if hasMatch interestsLower category
               then add categories (name category)
               else categories)
            INTEREST_CATEGORIES [].

Record Validation : Type := { valid : list string; invalid : list string }.

(** [validateInterests(interests)] *)
Definition validateInterests (interests : list string) : Validation :=
  let allTags := map toLowerCase getAllTags in
  fold_left (fun v interest =>
               if existsb (String.eqb (toLowerCase interest)) allTags
               then {| valid := valid v ++ [interest]; invalid := invalid v |}
               else {| valid := valid v; invalid := invalid v ++ [interest] |})
            interests {| valid := []; invalid := [] |}.

Definition eventKeywords : list (string * list string) :=
  [("Outdoor",
    ["outdoor events"; "nature activities"; "adventure tours"]);
   ("Social Activities",
    ["social events"; "networking events"; "happy hours"; "meetups"]);
   ("Hobbies and Passion",
    ["hobby workshops"; "craft classes"; "creative events"]);
   ("Sports and Fitness",
    ["fitness classes"; "sports events"; "workout sessions"]);
   ("Health and Wellbeing",
    ["wellness events"; "meditation sessions"; "health workshops"]);
   ("Technology",
    ["tech meetups"; "hackathons"; "startup events"; "tech talks"]);
   ("Art and Culture",
    ["art exhibitions"; "cultural events"; "museum exhibits"; "performances"]);
   ("Games",
    ["gaming events"; "esports"; "board game nights"; "gaming tournaments"]);
   ("Career and Business",
    ["business networking"; "professional events"; "industry conferences"]);
   ("Science and Education",
    ["lectures"; "educational workshops"; "learning events"])].

(** [if (eventKeywords[cat]) eventKeywords[cat].forEach(...)] on the plain
    object [eventKeywords]: an inherited name is truthy and has no
    [forEach]. *)
Definition add_keywords (searchTerms : list string) (cat : string)
  : Completion (list string) :=
  match Server.lookup eventKeywords cat with
  | Some terms => Normal (fold_left add terms searchTerms)
  | None =>
      if JS.inherited cat
      then Throw (TypeError "eventKeywords[cat].forEach is not a function")
      else Normal searchTerms
  end.

(** [getSearchTermsForInterests(interests)] *)
Definition getSearchTermsForInterests (interests : list string)
  : Completion (list string) :=
  let categories := findCategoriesForInterests interests in
  let searchTerms := fold_left add interests [] in
  let searchTerms := fold_left add categories searchTerms in
  for_each add_keywords categories searchTerms.

End Interests.

(* ===================================================================== *)
(** ** api_server.js (Scout + Explorer edition): the request pipeline *)
(* ===================================================================== *)

Module Api.

Import JSON.

(** [interests.split(",").map((i) => i.trim()).filter((i) => i.length > 0)]:
    only a text has [split]. *)
Definition parseInterests (interests : json) : Completion (list string) :=
  match interests with
  | JString s =>
      Normal (filter (fun i => 0 <? String.length i)
                     (map Text.trim (Text.split "," s)))
  | JNull => Throw (TypeError "Cannot read properties of null (reading 'split')")
  | _ => Throw (TypeError "interests.split is not a function")
  end.

(** [array.join(", ")] on texts. *)
Fixpoint join (l : list string) : string :=
  match l with
  | [] => ""
  | [x] => x
  | x :: r => x ++ ", " ++ join r
  end.

Record ScoutStats : Type := {
  totalLinksFound : nat;
  searchesPerformed : nat
}.

Record ExplorerStats : Type := {
  linksAnalyzed : list Explorer.Analyzed;
  eventsExtracted : nat;
  linksRejected : nat
}.

(** The object [generateItinerary] resolves to; a member that the object
    does not have is [None]. *)
Record Itinerary : Type := {
  success : bool;
  events : list json;
  message : option string;
  coverage : option (Server.dict Server.CoverageEntry);
  scoutStats : option ScoutStats;
  explorerStats : option ExplorerStats
}.

Section WithHost.

Context {H : JS.Host}.
Variable env : Effects.Env.

(** [event.source?.platform] *)
Definition platform_of (event : json) : Completion JS.value :=
  source <- JS.get event "source" ;;
  match source with
  | None | Some JNull => Normal None
  | Some s => JS.get s "platform"
  end.

(** The loop of [Logger.logExplorerResults] over the events: the truthy
    platforms are added to the set [platformsUsed]. *)
Definition logExplorerResults (events : list json) (platformsUsed : list JS.value)
  : Completion (list JS.value) :=
  for_each (fun used event =>
              platform <- platform_of event ;;
              Normal (if JS.truthy platform
                      then if existsb (JS.same_value platform) used
                           then used else used ++ [platform]
                      else used))
           events platformsUsed.

(** [generateItinerary(city, interests, startDate, endDate, logger)]. The
    logger is the server's own [Logger]: of what it does, only the loops
    over the events are kept. The lines it prints and the files it writes
    are not part of the trace, and writing them is taken to succeed. *)
Definition generateItinerary (city : string) (interests : list string)
    (startDate endDate : string) : Effects.M Itinerary :=
  (scoutResults <- Scout.scoutEvents env city interests startDate endDate ;;
   match Scout.allLinks scoutResults with
   | [] =>
       Effects.ret {| success := false;
                      events := [];
                      message := Some "No event links found during search";
                      coverage := None;
                      scoutStats := None;
                      explorerStats := None |}
   | _ :: _ =>
       explorerResults <-
         Explorer.exploreLinks env (Scout.allLinks scoutResults) city ;;
       _ <- Effects.lift (logExplorerResults (Explorer.events explorerResults) []) ;;
       sorted <- Effects.lift
                   (JS.array_sort Explorer.by_start_time
                      (Explorer.events explorerResults)) ;;
       covered <- Effects.lift
                    (Server.analyzeEventCoverage sorted startDate endDate) ;;
       _ <- Effects.lift (Server.logFinalItinerary sorted) ;;
       Effects.ret
         {| success := true;
            events := sorted;
            message := None;
            coverage := Some covered;
            scoutStats :=
              Some {| totalLinksFound := Scout.totalLinksFound scoutResults;
                      searchesPerformed :=
                        List.length (Scout.searchResults scoutResults) |};
            explorerStats :=
              Some {| linksAnalyzed := Explorer.totalAnalyzed explorerResults;
                      eventsExtracted := Explorer.totalEvents explorerResults;
                      linksRejected :=
                        List.length (Explorer.rejected explorerResults) |} |}
   end)%eff.

End WithHost.

End Api.

(* ===================================================================== *)
(** ** Vocabulary of the statements *)
(* ===================================================================== *)

Module Spec.

Import JSON.

(** Moving to the next local day advances a date by half a day at least. *)
Definition progresses (z : Dates.TimeZone) : Prop :=
  forall t, (Dates.msPerDay / 2 <=
             Dates.UTC z (Dates.LocalTime z t + Dates.msPerDay) - t)%Z.

(** A zone whose offset from UTC never changes. *)
Definition fixed_offset (z : Dates.TimeZone) : Prop :=
  exists offset, (forall t, Dates.tza_utc z t = offset)
                 /\ (forall tl, Dates.tza_local z tl = offset).

(** The day numbers from [a] to [b], both included. *)
Definition day_numbers (a b : Z) : list Z :=
  map (fun k => (a + Z.of_nat k)%Z) (seq 0 (Z.to_nat (b - a + 1))).

(** The JSON numbers 1, 2 and 3 in an array, and the object with the one
    member a: 1. *)
Definition one_two_three : json := JArray [JNumber "1"; JNumber "2"; JNumber "3"].
Definition a_is_one : json := JObject [("a", JNumber "1")].

(** What a tool server run did to its collaborators: the trace without
    the log lines. *)
Definition actions {P} (s : Tools.State P) : list (Tools.Effect P) :=
  filter (fun e => match e with Tools.Log _ => false | _ => true end)
         (Tools.trace s).

(** The text [sig] occurs in the text [m]. *)
Definition occurs_in (sig m : string) : Prop :=
  exists pre post, m = (pre ++ sig ++ post)%string.

(** An error whose message carries one of the three transport
    signatures. *)
Definition transport_signature (error : Exn) : Prop :=
  exists m, message error = Some m
            /\ (occurs_in "No active transport" m
                \/ occurs_in "Connection closed" m
                \/ occurs_in "HTTP 400" m).

(** The two tools of the client number [client]. *)
Definition search_engine (client : nat) : Tools.Tool :=
  {| Tools.name := "search_engine"; Tools.client := client |}.

Definition scrape_as_markdown (client : nat) : Tools.Tool :=
  {| Tools.name := "scrape_as_markdown"; Tools.client := client |}.

(** A tool server whose connection drops once: the first invocation fails
    with a closed connection, every later one answers, and every new
    client offers both tools. *)
Definition env_dropped : Tools.Env string string :=
  {| Tools.invoke :=
       fun n _ params =>
         match n with
         | 0 => Throw (Error "MCP error -32000: Connection closed")
         | _ => Normal ("results for " ++ params)%string
         end;
     Tools.getTools := fun n => Normal [search_engine (S n); scrape_as_markdown (S n)] |}.

(** A tool server whose connection stays down: every invocation fails
    with a closed connection. *)
Definition env_unreachable : Tools.Env string string :=
  {| Tools.invoke := fun _ _ _ => Throw (Error "MCP error -32000: Connection closed");
     Tools.getTools := fun n => Normal [search_engine (S n); scrape_as_markdown (S n)] |}.

(** The server after start-up: both tools of the first client, nothing
    done yet. *)
Definition started : Tools.State string :=
  {| Tools.searchTool := Some (search_engine 0);
     Tools.scrapeTool := Some (scrape_as_markdown 0);
     Tools.trace := [] |}.

(** The keys of a plain object after the assignments [o[d] = ...] for the
    [d] of a list, in creation order: each text once, where it first
    occurs. *)
Definition add_key (ks : list string) (d : string) : list string :=
  if existsb (String.eqb d) ks then ks else ks ++ [d].

Definition keys_of (days : list string) : list string :=
  fold_left add_key days [].

(** The day an event is filed under: the text before the first T of a
    truthy [start_time]. [Normal None] is an event the grouping skips. *)
Definition day_of {H : JS.Host} (event : json) : Completion (option string) :=
  start_time <- JS.get event "start_time" ;;
  if JS.truthy start_time then
    match start_time with
    | Some (JString s) => Normal (Some (hd "" (Text.split "T" s)))
    | _ => Throw (TypeError "event.start_time.split is not a function")
    end
  else Normal None.

Definition on_day {H : JS.Host} (d : string) (event : json) : bool :=
  match day_of event with
  | Normal (Some x) => String.eqb x d
  | _ => false
  end.

(** An event the grouping loop passes without throwing, given the days
    [ks] that were initialised. *)
Definition quiet {H : JS.Host} (ks : list string) (event : json) : Prop :=
  exists d, day_of event = Normal d
            /\ match d with
               | Some x => In x ks \/ JS.inherited x = false
               | None => True
               end.

(** The characters of the day texts [toISOString] produces. *)
Definition day_char (c : ascii) : bool :=
  Text.is_digit c || Ascii.eqb c "-" || Ascii.eqb c "+".

(** An event object with a name and a start time. *)
Definition event (name start_time : string) : json :=
  JObject [("name", JString name); ("start_time", JString start_time)].

(** Three talks on 2026-01-03, at 09:30, 14:00 and 19:00. *)
Definition three_talks : list json :=
  [event "Breakfast talk" "2026-01-03T09:30:00";
   event "Afternoon workshop" "2026-01-03T14:00:00";
   event "Evening concert" "2026-01-03T19:00:00"].

(** The number of clock readings in a world. *)
Definition ticks (w : Effects.World) : nat :=
  List.length (filter Effects.is_now w).

(** What the [try] block of [searchForInterest] computes from a reply:
    [result.links] and [result.queries_used], or the exception that sends
    it to the [catch] block. *)
Definition search_analysis {H : JS.Host} (reply : Effects.Reply)
  : Completion (JS.value * JS.value) :=
  match reply with
  | Effects.Rejects e => Throw e
  | Effects.Responds responseText =>
      result <- Extract.extractJSON3 "Scout" responseText ;;
      links <- JS.get result "links" ;;
      _ <- Scout.found_count links ;;
      queries <- JS.get result "queries_used" ;;
      Normal (links, queries)
  end.

(** The upstream call or the JSON extraction fails. *)
Definition search_fails (reply : Effects.Reply) : Prop :=
  match reply with
  | Effects.Rejects _ => True
  | Effects.Responds responseText =>
      exists e, Extract.extractJSON3 "Scout" responseText = Throw e
  end.

(** [result.links || []] *)
Definition links_or_empty {H : JS.Host} (links : JS.value) : json :=
  match links with
  | Some v => if JS.truthy links then v else JArray []
  | None => JArray []
  end.

(** The links a search result hands to the sweep: the elements of an
    array, nothing otherwise. *)
Definition items (links : json) : list json :=
  match links with
  | JArray l => l
  | _ => []
  end.

(** What [searchForInterest] resolves to, given the reply to its request. *)
Definition search_result {H : JS.Host} (reply : Effects.Reply)
    (interest city date : string) : Scout.SearchResult :=
  match search_analysis reply with
  | Normal (links, queries) =>
      {| Scout.success := true;
         Scout.interest := interest;
         Scout.city := city;
         Scout.date := date;
         Scout.links := links_or_empty links;
         Scout.queries_used := if JS.truthy queries then queries else None;
         Scout.error := None |}
  | Throw e =>
      {| Scout.success := false;
         Scout.interest := interest;
         Scout.city := city;
         Scout.date := date;
         Scout.links := JArray [];
         Scout.queries_used := None;
         Scout.error := Some (message e) |}
  end.

(** A reply that does not make the sweep of [scoutEvents] throw: the
    search failed, or [links] is an array, or the guard
    [result.links.length > 0] is false. *)
Definition harmless {H : JS.Host} (reply : Effects.Reply) : bool :=
  match search_analysis reply with
  | Throw _ => true
  | Normal (links, _) =>
      match links_or_empty links with
      | JArray _ => true
      | other =>
          match Scout.has_links other with
          | Normal false => true
          | _ => false
          end
      end
  end.

(** A reply whose links the sweep can walk: the search failed, or
    [result.links || []] is an array. *)
Definition lists_links {H : JS.Host} (reply : Effects.Reply) : bool :=
  match search_analysis reply with
  | Throw _ => true
  | Normal (links, _) =>
      match links_or_empty links with
      | JArray _ => true
      | _ => false
      end
  end.

(** A link whose url is a text or missing, as the Link schema has it. *)
Definition url_is_text (link : Effects.object) : bool :=
  match Scout.url link with
  | None | Some (JString _) => true
  | _ => false
  end.

(** The url of a link as a key. *)
Definition url_key (link : Effects.object) : option string :=
  match Scout.url link with
  | Some (JString s) => Some s
  | _ => None
  end.

(** The links of one search, each with the interest and the date of the
    search and the clock reading of its turn. *)
Fixpoint stamp (clock : nat -> string) (interest date : string) (tick : nat)
    (found : list json) : list Effects.object :=
  match found with
  | [] => []
  | link :: rest =>
      Scout.annotate link interest date (clock tick)
      :: stamp clock interest date (S tick) rest
  end.

(** The links of the search results in sweep order: what
    [allResults.allLinks] holds before deduplication. *)
Fixpoint merged (clock : nat -> string) (tick : nat) (results : list Scout.SearchResult)
  : list Effects.object :=
  match results with
  | [] => []
  | r :: rest =>
      stamp clock (Scout.interest r) (Scout.date r) tick (items (Scout.links r))
      ++ merged clock (tick + List.length (items (Scout.links r))) rest
  end.

(** The results of a sweep over (interest, date) pairs: the k-th pair gets
    the reply to the k-th request. *)
Fixpoint sweep_results {H : JS.Host} (env : Effects.Env) (city : string) (n : nat)
    (pairs : list (string * string)) : list Scout.SearchResult :=
  match pairs with
  | [] => []
  | (interest, date) :: rest =>
      search_result
        (Effects.generateContent env n (Effects.ScoutPrompt interest city date))
        interest city date
      :: sweep_results env city (S n) rest
  end.

(** The request of a pair. *)
Definition prompt (city : string) (pair : string * string) : Effects.Request :=
  Effects.ScoutPrompt (fst pair) city (snd pair).

(** A reply within the Link schema: the search failed, or [links] is an
    array of values whose url is a text or missing. *)
Definition within_schema {H : JS.Host} (reply : Effects.Reply) : bool :=
  match search_analysis reply with
  | Throw _ => true
  | Normal (links, _) =>
      match links_or_empty links with
      | JArray found =>
          forallb (fun link => match own (JS.own_properties link) "url" with
                               | None | Some (JString _) => true
                               | _ => false
                               end) found
      | _ => false
      end
  end.

(** The key of a value of the set [seenUrls]. *)
Definition value_key (v : JS.value) : option string :=
  match v with
  | Some (JString s) => Some s
  | _ => None
  end.

Definition is_text (v : JS.value) : bool :=
  match v with
  | None | Some (JString _) => true
  | _ => false
  end.

Definition key_eq_dec (a b : option string) : {a = b} + {a <> b}.
Proof. decide equality. apply string_dec. Defined.

(** The first link of a list with a given url key. *)
Definition first_with (key : option string) (links : list Effects.object)
  : option Effects.object :=
  find (fun l => if key_eq_dec (url_key l) key then true else false) links.

(** The key text of an event, when the template literal yields one. *)
Definition event_key {H : JS.Host} (e : json) : option string :=
  match Explorer.key e with
  | Normal k => Some k
  | Throw _ => None
  end.

(** The first event of a list with a given key text. *)
Definition first_event_with {H : JS.Host} (k : option string) (events : list json)
  : option json :=
  find (fun e => if Spec.key_eq_dec (event_key e) k then true else false) events.

(** The time value an event is sorted by, for an event whose start time
    denotes a valid date. *)
Definition event_time {H : JS.Host} (e : json) : Z :=
  match Explorer.start_ms e with
  | Normal (Some t) => t
  | _ => 0%Z
  end.

Definition dated {H : JS.Host} (e : json) : bool :=
  match Explorer.start_ms e with
  | Normal (Some _) => true
  | _ => false
  end.

(** The name and the start time of an event that has both as texts. *)
Definition name_and_start {H : JS.Host} (e : json) : option (string * string) :=
  match JS.get e "name", JS.get e "start_time" with
  | Normal (Some (JString n)), Normal (Some (JString s)) => Some (n, s)
  | _, _ => None
  end.

(** The API key is set and not empty. *)
Definition configured (env : Effects.Env) : Prop :=
  exists key, Effects.googleApiKey env = Some key /\ key <> "".

(** A service that is down: every request is rejected. *)
Definition env_down : Effects.Env :=
  {| Effects.googleApiKey := Some "key";
     Effects.generateContent :=
       fun _ _ => Effects.Rejects (Thrown (Some "503 Service Unavailable"));
     Effects.clock := fun _ => "2026-01-01T00:00:00.000Z" |}.

(** A service that answers every search with a text where the links
    should be. *)
Definition env_text_links : Effects.Env :=
  {| Effects.googleApiKey := Some "key";
     Effects.generateContent :=
       fun _ _ => Effects.Responds (Some (quoted "{'links':'abc'}"));
     Effects.clock := fun _ => "2026-01-01T00:00:00.000Z" |}.

(** A service that rejects the first request and answers every later
    search with a text where the links should be. *)
Definition env_late_text : Effects.Env :=
  {| Effects.googleApiKey := Some "key";
     Effects.generateContent :=
       fun n _ =>
         match n with
         | 0 => Effects.Rejects (Thrown (Some "503 Service Unavailable"))
         | _ => Effects.Responds (Some (quoted "{'links':'abc'}"))
         end;
     Effects.clock := fun _ => "2026-01-01T00:00:00.000Z" |}.

(** A service whose first reply lists two links and whose later replies
    list, inside a fence, one of them again and a new one. *)
Definition env_repeating : Effects.Env :=
  {| Effects.googleApiKey := Some "key";
     Effects.generateContent :=
       fun n _ =>
         match n with
         | O =>
             Effects.Responds (Some (quoted
               "{'links':[{'url':'https://a.example/e1','title':'First'},{'url':'https://b.example/e2','title':'Other'}]}"))
         | S _ =>
             Effects.Responds (Some
               ("Here you go: ```json" ++ LF ++ quoted
                "{'links':[{'url':'https://a.example/e1','title':'Again'},{'url':'https://c.example/e3'}]}"
                ++ LF ++ "```")%string)
         end;
     Effects.clock := fun n => ("tick " ++ Text.of_nat n)%string |}.

(** A value that turns into text or into a time without fail: anything
    but an array or an object. *)
Definition simple (v : JS.value) : bool :=
  match v with
  | Some (JArray _) | Some (JObject _) => false
  | _ => true
  end.

(** A link whose interpolated fields are simple. *)
Definition plain_link (link : Effects.object) : bool :=
  forallb (fun k => simple (own link k))
          ["url"; "title"; "snippet"; "interest"; "date"; "platform"].

(** What the [try] block of [analyzeBatch] computes from a reply:
    [result.valid_events || []], [result.rejected_links || []] and
    [result.analyzed_links], or the exception that sends it to the
    [catch] block. *)
Definition batch_analysis {H : JS.Host} (reply : Effects.Reply)
  : Completion (json * json * JS.value) :=
  match reply with
  | Effects.Rejects e => Throw e
  | Effects.Responds responseText =>
      result <- Extract.extractJSON3 "Explorer" responseText ;;
      valid_events <- JS.get result "valid_events" ;;
      rejected_links <- JS.get result "rejected_links" ;;
      analyzed_links <- JS.get result "analyzed_links" ;;
      Normal (Explorer.or_empty valid_events, Explorer.or_empty rejected_links,
              analyzed_links)
  end.

(** What [analyzeBatch] resolves to, given the reply to its request. *)
Definition batch_result {H : JS.Host} (reply : Effects.Reply)
    (links : list Effects.object) : Explorer.Batch.result :=
  match batch_analysis reply with
  | Normal (valid_events, rejected_links, analyzed_links) =>
      {| Explorer.Batch.success := true;
         Explorer.Batch.events := valid_events;
         Explorer.Batch.rejected := inr rejected_links;
         Explorer.Batch.analyzed :=
           Some (match analyzed_links with
                 | Some v =>
                     if JS.truthy analyzed_links then Explorer.Reported v
                     else Explorer.Counted (List.length links)
                 | None => Explorer.Counted (List.length links)
                 end);
         Explorer.Batch.error := None |}
  | Throw e =>
      {| Explorer.Batch.success := false;
         Explorer.Batch.events := JArray [];
         Explorer.Batch.rejected :=
           inl (map (fun l => Explorer.Failed (own l "url") (message e)) links);
         Explorer.Batch.analyzed := None;
         Explorer.Batch.error := Some (message e) |}
  end.

(** The events a batch contributes: the elements of [valid_events]. *)
Definition batch_events {H : JS.Host} (reply : Effects.Reply) : list json :=
  match batch_analysis reply with
  | Normal (valid_events, _, _) =>
      match JS.spread valid_events with
      | Normal found => found
      | Throw _ => []
      end
  | Throw _ => []
  end.

(** The rejections a batch contributes: every link of a failed batch with
    the failure message, or the elements of [rejected_links]. *)
Definition batch_rejected {H : JS.Host} (reply : Effects.Reply)
    (links : list Effects.object) : list Explorer.Rejected :=
  match batch_analysis reply with
  | Normal (_, rejected_links, _) =>
      match JS.spread rejected_links with
      | Normal listed => map Explorer.Listed listed
      | Throw _ => []
      end
  | Throw e => map (fun l => Explorer.Failed (own l "url") (message e)) links
  end.

(** An event whose name and start time are simple. *)
Definition tidy_event {H : JS.Host} (e : json) : bool :=
  match JS.get e "name", JS.get e "start_time" with
  | Normal name, Normal start_time => simple name && simple start_time
  | _, _ => false
  end.

(** A reply that [exploreLinks] digests without throwing: the analysis
    failed, or [valid_events] and [rejected_links] are iterable, the events
    are tidy and [analyzed_links] is no array and no object. *)
Definition tidy {H : JS.Host} (reply : Effects.Reply) : bool :=
  match batch_analysis reply with
  | Throw _ => true
  | Normal (valid_events, rejected_links, analyzed_links) =>
      match JS.spread valid_events, JS.spread rejected_links with
      | Normal found, Normal _ =>
          forallb tidy_event found
          && match analyzed_links with
             | Some (JArray _) | Some (JObject _) => false
             | _ => true
             end
      | _, _ => false
      end
  end.

(** The batches with their indices. *)
Definition numbered {A} (batches : list (list A)) : list (nat * list A) :=
  combine (seq 0 (List.length batches)) batches.


(** The request of a batch. *)
Definition batch_prompt (city : string) (batch : list Effects.object) : Effects.Request :=
  Effects.ExplorerPrompt batch city.

(** The events and the rejections of a run over batches: the k-th batch
    contributes what the reply to the k-th request gives, and nothing
    else. *)
Fixpoint events_from {H : JS.Host} (env : Effects.Env) (city : string) (n : nat)
    (batches : list (list Effects.object)) : list json :=
  match batches with
  | [] => []
  | batch :: rest =>
      batch_events (Effects.generateContent env n (batch_prompt city batch))
      ++ events_from env city (S n) rest
  end.

Fixpoint rejected_from {H : JS.Host} (env : Effects.Env) (city : string) (n : nat)
    (batches : list (list Effects.object)) : list Explorer.Rejected :=
  match batches with
  | [] => []
  | batch :: rest =>
      batch_rejected (Effects.generateContent env n (batch_prompt city batch)) batch
      ++ rejected_from env city (S n) rest
  end.




(** One link as Scout hands it over. *)
Definition one_link : list Effects.object :=
  [[("url", JString "https://e.example/1"); ("interest", JString "jazz");
    ("date", JString "2026-01-09")]].

(** Two events with different names and different start times whose keys
    name-start_time are the same text. *)
Definition friday_a : json := event "Jazz Night" "Friday-2026-01-09T20:00:00".
Definition friday_b : json := event "Jazz Night-Friday" "2026-01-09T20:00:00".

(** A service that lists these two events. *)
Definition env_colliding : Effects.Env :=
  {| Effects.googleApiKey := Some "key";
     Effects.generateContent :=
       fun _ _ =>
         Effects.Responds (Some (quoted
           "{'valid_events':[{'name':'Jazz Night','start_time':'Friday-2026-01-09T20:00:00'},{'name':'Jazz Night-Friday','start_time':'2026-01-09T20:00:00'}]}"));
     Effects.clock := fun _ => "2026-01-01T00:00:00.000Z" |}.

(** An event as the analysis prompt asks for it, provenance included. *)
Definition with_provenance : json :=
  JObject [("name", JString "Jazz Night");
           ("start_time", JString "2026-01-09T20:00:00");
           ("interest_matched", JString "jazz");
           ("target_date", JString "2026-01-09")].

(** A service that lists this event. *)
Definition env_provenance : Effects.Env :=
  {| Effects.googleApiKey := Some "key";
     Effects.generateContent :=
       fun _ _ =>
         Effects.Responds (Some (quoted
           "{'valid_events':[{'name':'Jazz Night','start_time':'2026-01-09T20:00:00','interest_matched':'jazz','target_date':'2026-01-09'}]}"));
     Effects.clock := fun _ => "2026-01-01T00:00:00.000Z" |}.

(** What [logFinalItinerary] leaves of an event: an object without the two
    provenance fields and with every other own property as it was. *)
Definition cleaned_from (e c : json) : Prop :=
  exists fields,
    c = JObject fields
    /\ own fields "interest_matched" = None
    /\ own fields "target_date" = None
    /\ forall k, k <> "interest_matched" -> k <> "target_date" ->
         own fields k = own (JS.own_properties e) k.

(** One round of a grouping [reduce]: the event is filed under the name
    that [key] gives, or passed over when it gives none. *)
Definition group_step {H : JS.Host} (what : string)
    (key : json -> Completion (option string))
    (acc : Server.dict (list json)) (event : json)
  : Completion (Server.dict (list json)) :=
  d <- key event ;;
  match d with
  | Some k => Planner.file_under what acc k event
  | None => Normal acc
  end.

(** The event is filed under the name [k]. *)
Definition under (key : json -> Completion (option string)) (k : string)
    (event : json) : bool :=
  match key event with
  | Normal (Some x) => String.eqb x k
  | _ => false
  end.

(** An event that a grouping passes without throwing: its name is
    computed, and no built-in prototype defines it. *)
Definition calm (key : json -> Completion (option string)) (event : json) : Prop :=
  exists d, key event = Normal d
            /\ match d with
               | Some x => JS.inherited x = false
               | None => True
               end.

(** What a group holds after more events were filed. *)
Definition merged_group (before : option (list json)) (more : list json)
  : option (list json) :=
  match before, more with
  | Some es, _ => Some (es ++ more)
  | None, [] => None
  | None, _ => Some more
  end.

(** The name [groupByCategory] files an event under. *)
Definition category_key {H : JS.Host} (event : json) : Completion (option string) :=
  c <- Planner.category_of event ;; Normal (Some c).

(** The event has a truthy [start_time]. *)
Definition has_start {H : JS.Host} (event : json) : bool :=
  match JS.get event "start_time" with
  | Normal v => JS.truthy v
  | Throw _ => false
  end.

(** The event has a truthy [start_time] that denotes an instant between
    [lo] and [hi], both included. *)
Definition starts_within {H : JS.Host} (lo hi : Z) (event : json) : bool :=
  match JS.get event "start_time" with
  | Normal v =>
      JS.truthy v
      && match JS.getTime v with
         | Normal (Some t) => (lo <=? t)%Z && (t <=? hi)%Z
         | _ => false
         end
  | Throw _ => false
  end.

(** The hour that [getTimeDistribution] reads off an event with a truthy
    [start_time]; the inner [None] is NaN. *)
Definition start_hour {H : JS.Host} (event : json) : option (option Z) :=
  match JS.get event "start_time" with
  | Normal v =>
      if JS.truthy v then
        match Planner.hour_of v with
        | Normal h => Some h
        | Throw _ => None
        end
      else None
  | Throw _ => None
  end.

(** The event starts at an hour from [lo] up to, not including, [hi]. *)
Definition in_hours {H : JS.Host} (lo hi : Z) (event : json) : bool :=
  match start_hour event with
  | Some (Some h) => (lo <=? h)%Z && (h <? hi)%Z
  | _ => false
  end.

(** The event starts at no hour from 6 up to 21, or at none at all. *)
Definition at_night {H : JS.Host} (event : json) : bool :=
  match start_hour event with
  | Some (Some h) => negb ((6 <=? h)%Z && (h <? 21)%Z)
  | Some None => true
  | None => false
  end.

(** What ECMAScript requires of [Date.parse] on a date-time text without
    a UTC offset, at the last second of a day: it is read as local time. *)
Definition end_of_day_is_local (H : JS.Host) : Prop :=
  forall day n,
    Dates.parse_iso_date day = Some n ->
    JS.Date_parse (day ++ "T23:59:59")
    = Some (Dates.UTC JS.zone (n * Dates.msPerDay + 86399000))%Z.

(** Events around 2026-01-03, their start times local. *)
Definition around_saturday : list json :=
  [event "Friday late show" "2026-01-02T20:00:00";
   event "Saturday brunch" "2026-01-03T11:00:00";
   event "Sunday after midnight" "2026-01-04T00:30:00";
   event "Friday early show" "2026-01-02T18:00:00"].

(** Events of a weekend: out of order, one of them twice, one without a
    category and one without a start time. *)
Definition weekend : list json :=
  [JObject [("name", JString "Gallery tour");
            ("start_time", JString "2026-01-04T11:00:00");
            ("category", JString "art")];
   JObject [("name", JString "Jazz Jam");
            ("start_time", JString "2026-01-03T19:00:00");
            ("category", JString "music")];
   JObject [("name", JString "Morning run");
            ("start_time", JString "2026-01-03T06:30:00")];
   JObject [("name", JString "Jazz Jam");
            ("start_time", JString "2026-01-03T19:00:00");
            ("category", JString "music")];
   JObject [("name", JString "Open house")]].

(** A text of ASCII characters: on such a text [trim] and [toLowerCase]
    of the model are those of the engine. *)
Definition ascii_text (s : string) : Prop :=
  forallb (fun c => Text.code c <? 128) (Text.chars s) = true.

(** A category lists a tag that is an interest up to letter case. *)
Definition matches (interests : list string) (category : Interests.Category) : Prop :=
  exists tag interest,
    In tag (Interests.tags category) /\ In interest interests
    /\ Interests.toLowerCase tag = Interests.toLowerCase interest.

(** Two lists of interests with the same members up to letter case. *)
Definition same_interests (a b : list string) : Prop :=
  forall x, In x (map Interests.toLowerCase a) <-> In x (map Interests.toLowerCase b).

(** A text without surrounding white space, without a comma and not
    empty: an interest as [parseInterests] gives it. *)
Definition clean_interest (i : string) : Prop :=
  i <> "" /\ Text.trim i = i /\ ~ In ","%char (Text.chars i).

(** The interest belongs to a category of the catalogue. *)
Definition known (interest : string) : bool :=
  match Interests.findCategoriesForInterests [interest] with
  | [] => false
  | _ => true
  end.

(** The result of [generateItinerary] when the Scout found no link. *)
Definition no_links_found : Api.Itinerary :=
  {| Api.success := false;
     Api.events := [];
     Api.message := Some "No event links found during search";
     Api.coverage := None;
     Api.scoutStats := None;
     Api.explorerStats := None |}.

(** The API key is not set, or empty. *)
Definition unconfigured (env : Effects.Env) : Prop :=
  match Effects.googleApiKey env with
  | Some key => key = ""
  | None => True
  end.

(** A service that answers a search with two links, one of them without
    a title, and an analysis with two events that are out of order. *)
Definition env_two_phase : Effects.Env :=
  {| Effects.googleApiKey := Some "key";
     Effects.generateContent :=
       fun _ request =>
         match request with
         | Effects.ScoutPrompt _ _ _ =>
             Effects.Responds (Some (quoted
               "{'links':[{'url':'https://a.example/e1','title':'Jazz Jam'},{'url':'https://b.example/e2'}]}"))
         | Effects.ExplorerPrompt _ _ =>
             Effects.Responds (Some (quoted
               "{'valid_events':[{'name':'Jazz Jam','start_time':'2026-01-03T19:00:00','type':'event'},{'name':'Morning Run','start_time':'2026-01-03T08:00:00','type':'activity'}],'rejected_links':[]}"))
         end;
     Effects.clock := fun _ => "2026-01-01T00:00:00.000Z" |}.

(** A process without an API key. *)
Definition env_no_key : Effects.Env :=
  {| Effects.googleApiKey := None;
     Effects.generateContent := fun _ _ => Effects.Responds (Some "{}");
     Effects.clock := fun _ => "2026-01-01T00:00:00.000Z" |}.

End Spec.

(* ##################################################################### *)
(** * Facts *)
(* ##################################################################### *)

Import JSON.

(* ===================================================================== *)
(** ** Completions *)
(* ===================================================================== *)

Lemma bind_normal {A B} (c : Completion A) (k : A -> Completion B) (b : B) :
  bind c k = Normal b -> exists a, c = Normal a /\ k a = Normal b.
Proof.
  destruct c as [a | e]; simpl; intros Hk; [exists a; auto | discriminate].
Qed.

Lemma bind_throw {A B} (c : Completion A) (k : A -> Completion B) (e : Exn) :
  bind c k = Throw e ->
  c = Throw e \/ exists a, c = Normal a /\ k a = Throw e.
Proof.
  destruct c as [a | e']; simpl; intros Hk.
  - right. exists a. auto.
  - left. congruence.
Qed.

Lemma for_each_app {A S} (body : S -> A -> Completion S) (l1 l2 : list A) (s : S) :
  for_each body (l1 ++ l2) s = (s' <- for_each body l1 s ;; for_each body l2 s').
Proof.
  revert s. induction l1 as [| x l1 IH]; intros s; simpl; [reflexivity |].
  destruct (body s x) as [s1 | e]; simpl; [apply IH | reflexivity].
Qed.

Lemma map_each_length {A B} (f : A -> Completion B) (l : list A) (l' : list B) :
  map_each f l = Normal l' -> List.length l' = List.length l.
Proof.
  revert l'. induction l as [| x l IH]; intros l' Hm; simpl in Hm.
  - inversion Hm. reflexivity.
  - apply bind_normal in Hm. destruct Hm as [y [_ Hm]].
    apply bind_normal in Hm. destruct Hm as [ys [Hys Hm]].
    inversion Hm. simpl. f_equal. apply IH. exact Hys.
Qed.

Lemma map_each_all {A B} (f : A -> Completion B) (g : A -> B) (l : list A) :
  (forall x, In x l -> f x = Normal (g x)) -> map_each f l = Normal (map g l).
Proof.
  induction l as [| x l IH]; intros Hf; simpl; [reflexivity |].
  rewrite (Hf x (or_introl eq_refl)). simpl.
  rewrite IH by (intros y Hy; apply Hf; right; exact Hy). reflexivity.
Qed.

(* ===================================================================== *)
(** ** The reference host is lawful *)
(* ===================================================================== *)

Section NodeSort.

Context {A : Type}.
Variable cmp : A -> A -> Completion (option Z).

Lemma node_insert_perm (x : A) (l l' : list A) :
  Node.insert cmp x l = Normal l' -> Permutation (x :: l) l'.
Proof.
  revert l'. induction l as [| y r IH]; intros l' Hi; simpl in Hi.
  - inversion Hi. apply Permutation_refl.
  - apply bind_normal in Hi. destruct Hi as [c [_ Hi]].
    destruct (Node.not_after c).
    + inversion Hi. apply Permutation_refl.
    + apply bind_normal in Hi. destruct Hi as [r' [Hr' Hi]].
      inversion Hi. subst l'.
      apply perm_trans with (y :: x :: r); [apply perm_swap |].
      apply perm_skip. apply IH. exact Hr'.
Qed.

Lemma node_sort_perm (l l' : list A) :
  Node.array_sort cmp l = Normal l' -> Permutation l l'.
Proof.
  revert l'. induction l as [| x r IH]; intros l' Hs; simpl in Hs.
  - inversion Hs. apply perm_nil.
  - apply bind_normal in Hs. destruct Hs as [r' [Hr' Hs]].
    apply perm_trans with (x :: r').
    + apply perm_skip. apply IH. exact Hr'.
    + apply node_insert_perm. exact Hs.
Qed.

Lemma node_insert_throw (x : A) (l : list A) (e : Exn) :
  Node.insert cmp x l = Throw e -> exists y, In y l /\ cmp x y = Throw e.
Proof.
  induction l as [| y r IH]; intros Hi; simpl in Hi; [discriminate |].
  apply bind_throw in Hi. destruct Hi as [Hc | [c [_ Hi]]].
  - exists y. split; [left; reflexivity | exact Hc].
  - destruct (Node.not_after c); [discriminate |].
    apply bind_throw in Hi. destruct Hi as [Hi | [r' [_ Hi]]]; [| discriminate].
    destruct (IH Hi) as [z [Hz Hcz]]. exists z. split; [right; exact Hz | exact Hcz].
Qed.

Lemma node_sort_throw (l : list A) (e : Exn) :
  Node.array_sort cmp l = Throw e ->
  exists a b, In a l /\ In b l /\ cmp a b = Throw e.
Proof.
  induction l as [| x r IH]; intros Hs; simpl in Hs; [discriminate |].
  apply bind_throw in Hs. destruct Hs as [Hs | [r' [Hr' Hs]]].
  - destruct (IH Hs) as [a [b [Ha [Hb Hab]]]].
    exists a, b. repeat split; auto using in_cons.
  - apply node_insert_throw in Hs. destruct Hs as [y [Hy Hxy]].
    exists x, y. repeat split; [left; reflexivity | right | exact Hxy].
    apply Permutation_in with r'; [| exact Hy].
    apply Permutation_sym. apply node_sort_perm. exact Hr'.
Qed.

Variable key : A -> Z.

Lemma insert_by_perm (x : A) (l : list A) :
  Permutation (x :: l) (JS.insert_by key x l).
Proof.
  induction l as [| y r IH]; simpl; [apply Permutation_refl |].
  destruct (key x <=? key y)%Z; [apply Permutation_refl |].
  apply perm_trans with (y :: x :: r); [apply perm_swap | apply perm_skip, IH].
Qed.

Lemma stable_sort_perm (l : list A) : Permutation l (JS.stable_sort key l).
Proof.
  induction l as [| x r IH]; simpl; [apply perm_nil |].
  apply perm_trans with (x :: JS.stable_sort key r);
    [apply perm_skip, IH | apply insert_by_perm].
Qed.

Lemma node_insert_by_key (x : A) (l : list A) :
  (forall y, In y l -> cmp x y = Normal (Some (key x - key y)%Z)) ->
  Node.insert cmp x l = Normal (JS.insert_by key x l).
Proof.
  induction l as [| y r IH]; intros Hc; simpl; [reflexivity |].
  rewrite (Hc y (or_introl eq_refl)). simpl.
  replace (key x - key y <=? 0)%Z with (key x <=? key y)%Z
    by (destruct (Z.leb_spec (key x) (key y)), (Z.leb_spec (key x - key y) 0); lia).
  destruct (key x <=? key y)%Z; [reflexivity |].
  rewrite IH by (intros z Hz; apply Hc; right; exact Hz). reflexivity.
Qed.

Lemma node_sort_by_key (l : list A) :
  (forall a b, In a l -> In b l -> cmp a b = Normal (Some (key a - key b)%Z)) ->
  Node.array_sort cmp l = Normal (JS.stable_sort key l).
Proof.
  induction l as [| x r IH]; intros Hc; simpl; [reflexivity |].
  rewrite IH by (intros a b Ha Hb; apply Hc; right; assumption). simpl.
  apply node_insert_by_key. intros y Hy. apply Hc; [left; reflexivity | right].
  apply Permutation_in with (JS.stable_sort key r); [| exact Hy].
  apply Permutation_sym, stable_sort_perm.
Qed.

End NodeSort.

(** The stable sort puts the keys in non-decreasing order. *)
Lemma insert_by_sorted {A} (key : A -> Z) (x : A) (l : list A) :
  Sorted (fun a b => (key a <= key b)%Z) l ->
  Sorted (fun a b => (key a <= key b)%Z) (JS.insert_by key x l).
Proof.
  induction l as [| y r IH]; intros Hs; simpl.
  - constructor; constructor.
  - destruct (Z.leb_spec (key x) (key y)) as [Hle | Hgt].
    + constructor; [exact Hs | constructor; exact Hle].
    + inversion Hs as [| ? ? Hr Hhd]; subst.
      constructor; [apply IH; exact Hr |].
      destruct r as [| z r']; simpl.
      * constructor. lia.
      * destruct (Z.leb_spec (key x) (key z)); constructor; [lia |].
        inversion Hhd; assumption.
Qed.

Lemma stable_sort_sorted {A} (key : A -> Z) (l : list A) :
  Sorted (fun a b => (key a <= key b)%Z) (JS.stable_sort key l).
Proof.
  induction l as [| x r IH]; simpl; [constructor | apply insert_by_sorted, IH].
Qed.

Lemma node_laws (z : Dates.TimeZone) : Spec.progresses z -> JS.HostLaws (Node.host z).
Proof.
  intros Hz. constructor.
  - intros s n Hp. simpl. unfold Node.Date_parse. rewrite Hp. reflexivity.
  - exact Hz.
  - intros A cmp l Hl. simpl.
    destruct l as [| x [| y r]]; [reflexivity | reflexivity | simpl in Hl; lia].
  - intros A cmp l l'. simpl. apply node_sort_perm.
  - intros A cmp key l. simpl. apply node_sort_by_key.
  - intros A cmp l e. simpl. apply node_sort_throw.
Qed.

Lemma utc_progresses : Spec.progresses Dates.utc.
Proof.
  intros t. unfold Dates.UTC, Dates.LocalTime, Dates.utc, Dates.msPerDay. simpl.
  change (86400000 / 2)%Z with 43200000%Z. lia.
Qed.

Lemma us_eastern_progresses : Spec.progresses Dates.us_eastern_2026.
Proof.
  intros t.
  unfold Dates.UTC, Dates.LocalTime, Dates.us_eastern_2026, Dates.msPerDay,
    Dates.msPerHour.
  cbn [Dates.tza_utc Dates.tza_local].
  change (86400000 / 2)%Z with 43200000%Z.
  change (Dates.days_from_civil 2026 3 8) with 20520%Z.
  change (Dates.days_from_civil 2026 11 1) with 20758%Z.
  repeat match goal with
         | |- context [(?a <=? ?b)%Z] => destruct (Z.leb_spec a b)
         | |- context [(?a <? ?b)%Z] => destruct (Z.ltb_spec a b)
         end; simpl; lia.
Qed.

Lemma utc_laws : JS.HostLaws Node.utc.
Proof. apply node_laws, utc_progresses. Qed.

Lemma new_york_laws : JS.HostLaws Node.new_york.
Proof. apply node_laws, us_eastern_progresses. Qed.

Lemma utc_fixed_offset : Spec.fixed_offset (JS.zone (Host := Node.utc)).
Proof. exists 0%Z. split; reflexivity. Qed.

(* ===================================================================== *)
(** ** The JSON extractor of the itinerary call site *)
(* ===================================================================== *)

(** A pattern that starts with a literal character finds nothing in a text
    without that character. *)
Lemma search_without_first (c : ascii) (p : Regex.pattern) (l : list ascii) (pos : nat) :
  ~ In c l -> Regex.search (Regex.One (Regex.Chr c) :: p) l pos = None.
Proof.
  revert pos. induction l as [| x r IH]; intros pos Hc; simpl; [reflexivity |].
  destruct (Ascii.eqb_spec c x) as [-> | _]; [exfalso; apply Hc; left; reflexivity |].
  apply IH. intros Hin. apply Hc. right. exact Hin.
Qed.

Lemma exec_without_first (c : ascii) (p : Regex.pattern) (s : string) :
  ~ In c (Text.chars s) ->
  Regex.exec (Regex.One (Regex.Chr c) :: p) s = None.
Proof.
  intros Hc. unfold Regex.exec. rewrite search_without_first by exact Hc.
  reflexivity.
Qed.

Lemma backtick_lower (x : ascii) :
  Ascii.eqb (Text.to_lower "`") (Text.to_lower x) = Ascii.eqb "`" x.
Proof.
  destruct x as [[] [] [] [] [] [] [] []]; reflexivity.
Qed.

Lemma search_fence_without_backtick (p : Regex.pattern) (l : list ascii) (pos : nat) :
  ~ In "`"%char l -> Regex.search (Regex.One (Regex.ChrI "`") :: p) l pos = None.
Proof.
  revert pos. induction l as [| x r IH]; intros pos Hc; [reflexivity |].
  cbn [Regex.search Regex.match_here Regex.test]. rewrite backtick_lower.
  destruct (Ascii.eqb_spec "`"%char x) as [<- | _];
    [exfalso; apply Hc; left; reflexivity |].
  apply IH. intros Hin. apply Hc. right. exact Hin.
Qed.

(** Text that is no JSON and has no backtick, brace or bracket defeats
    every strategy of [extractJSON]. *)
Lemma extractJSON_garbage (text : string) :
  Extract.try_parse text = None ->
  ~ In "`"%char (Text.chars text) ->
  ~ In "{"%char (Text.chars text) ->
  ~ In "["%char (Text.chars text) ->
  Extract.extractJSON (Some text) =
  Throw (Error ("Could not extract valid JSON from response. First 200 chars: "
                ++ Text.substring0 200 text)%string).
Proof.
  intros Hparse Htick Hbrace Hbracket.
  unfold Extract.extractJSON. rewrite Hparse.
  unfold Extract.from_json_fence, Extract.from_any_fence, Extract.from_braces,
    Extract.from_brackets.
  assert (Hjson : Regex.exec Regex.json_fence text = None).
  { unfold Regex.exec, Regex.json_fence. simpl Regex.litI. simpl app.
    rewrite search_fence_without_backtick by exact Htick. reflexivity. }
  rewrite Hjson.
  rewrite (exec_without_first "`" _ text Htick : Regex.exec Regex.any_fence text = None).
  rewrite (exec_without_first "{" _ text Hbrace : Regex.exec Regex.braces text = None).
  rewrite (exec_without_first "[" _ text Hbracket : Regex.exec Regex.brackets text = None).
  reflexivity.
Qed.

Lemma extractJSON_garbage_witness :
  Extract.extractJSON (Some "Sorry, I could not find any events.") =
  Throw (Error "Could not extract valid JSON from response. First 200 chars: Sorry, I could not find any events.").
Proof.
  apply (extractJSON_garbage "Sorry, I could not find any events.").
  - reflexivity.
  - simpl. intuition discriminate.
  - simpl. intuition discriminate.
  - simpl. intuition discriminate.
Defined.

(** C3, as the source has it. [extractJSON] of the itinerary call site
    returns the object with a = 1 for the fenced text and for the text with
    noise around the braces. For the text [1,2,3] it returns the array
    itself, since the direct parse comes first; an array found by the
    bracket match, as in noise [1,2,3] noise, is wrapped as the itinerary
    member of an object. A result is always what the first successful
    strategy recovered, and when all five strategies fail the function
    throws the extraction error and returns nothing. *)
Theorem C3_extractJSON_recovers_or_throws :
  Extract.extractJSON
    (Some ("prefix text ```json" ++ LF ++ quoted "{'a':1}" ++ LF ++ "``` suffix")%string)
  = Normal Spec.a_is_one
  /\ Extract.extractJSON (Some (quoted "noise {'a':1} noise")) = Normal Spec.a_is_one
  /\ Extract.extractJSON (Some "[1,2,3]") = Normal Spec.one_two_three
  /\ Extract.extractJSON (Some "noise [1,2,3] noise")
     = Normal (JSON.JObject [("itinerary", Spec.one_two_three)])
  /\ Extract.extractJSON (Some "unparseable garbage")
     = Throw (Error "Could not extract valid JSON from response. First 200 chars: unparseable garbage")
  /\ forall text,
       match Extract.extractJSON (Some text) with
       | Normal v =>
           Extract.try_parse text = Some v
           \/ Extract.from_json_fence text = Some v
           \/ Extract.from_any_fence text = Some v
           \/ Extract.from_braces text = Some v
           \/ Extract.from_brackets text = Some v
       | Throw e =>
           e = Error ("Could not extract valid JSON from response. First 200 chars: "
                      ++ Text.substring0 200 text)%string
           /\ Extract.try_parse text = None
           /\ Extract.from_json_fence text = None
           /\ Extract.from_any_fence text = None
           /\ Extract.from_braces text = None
           /\ Extract.from_brackets text = None
       end.
Proof.
  split; [vm_compute; reflexivity |].
  split; [vm_compute; reflexivity |].
  split; [vm_compute; reflexivity |].
  split; [vm_compute; reflexivity |].
  split; [vm_compute; reflexivity |].
  intros text. unfold Extract.extractJSON, Extract.or_else.
  destruct (Extract.try_parse text); [auto |].
  destruct (Extract.from_json_fence text); [auto |].
  destruct (Extract.from_any_fence text); [auto |].
  destruct (Extract.from_braces text); [auto 6 |].
  destruct (Extract.from_brackets text); [auto 6 |].
  repeat split; reflexivity.
Qed.

(** C3 as stated fails on the third text: [1,2,3] is returned as the bare
    array, not wrapped in an object with an itinerary member. *)
Lemma C3_bare_array_not_wrapped :
  Extract.extractJSON (Some "[1,2,3]")
  <> Normal (JSON.JObject [("itinerary", Spec.one_two_three)]).
Proof. vm_compute. discriminate. Qed.

(* ===================================================================== *)
(** ** The resilient tool invoker *)
(* ===================================================================== *)

Lemma chars_append (a b : string) :
  Text.chars (a ++ b)%string = Text.chars a ++ Text.chars b.
Proof.
  induction a as [| c a IH]; simpl; [reflexivity |].
  unfold Text.chars in *. simpl. rewrite IH. reflexivity.
Qed.

Lemma text_chars (s : string) : Text.text (Text.chars s) = s.
Proof. apply string_of_list_ascii_of_string. Qed.

Lemma chars_text (l : list ascii) : Text.chars (Text.text l) = l.
Proof. apply list_ascii_of_string_of_list_ascii. Qed.

Lemma starts_with_prefix (p l : list ascii) :
  Text.starts_with p l = true <-> exists post, l = p ++ post.
Proof.
  revert l. induction p as [| a p IH]; intros l; simpl.
  - split; [intros _; exists l; reflexivity | reflexivity].
  - destruct l as [| b l]; [split; [discriminate | intros [post Hp]; discriminate] |].
    rewrite andb_true_iff, IH. split.
    + intros [Hab [post Hl]]. apply Ascii.eqb_eq in Hab. subst. exists post. reflexivity.
    + intros [post Hl]. inversion Hl. split; [apply Ascii.eqb_refl | exists post; reflexivity].
Qed.

Lemma includes_chars_infix (p l : list ascii) :
  Text.includes_chars p l = true <-> exists pre post, l = pre ++ p ++ post.
Proof.
  induction l as [| c l IH]; cbn [Text.includes_chars]; rewrite orb_true_iff.
  - split.
    + intros [Hs | Hf]; [| discriminate].
      apply starts_with_prefix in Hs. destruct Hs as [post Hp].
      exists [], post. exact Hp.
    + intros [pre [post Hl]]. left. apply starts_with_prefix.
      destruct pre; [exists post; exact Hl | discriminate Hl].
  - rewrite IH, starts_with_prefix. split.
    + intros [[post Hp] | [pre [post Hl]]];
        [exists [], post; exact Hp
        | exists (c :: pre), post; simpl; rewrite Hl; reflexivity].
    + intros [pre [post Hl]]. destruct pre as [| c' pre];
        [left; exists post; exact Hl
        | right; inversion Hl; exists pre, post; reflexivity].
Qed.

(** [m.includes(sig)] holds exactly when [sig] occurs in [m]. *)
Lemma includes_occurs (m sig : string) :
  Text.includes m sig = true <-> Spec.occurs_in sig m.
Proof.
  unfold Text.includes, Spec.occurs_in. rewrite includes_chars_infix. split.
  - intros [pre [post Hl]]. exists (Text.text pre), (Text.text post).
    rewrite <- (text_chars m), <- (text_chars (Text.text pre ++ sig ++ Text.text post)).
    f_equal. rewrite !chars_append, !chars_text. exact Hl.
  - intros [pre [post Hm]]. exists (Text.chars pre), (Text.chars post).
    rewrite Hm, !chars_append. reflexivity.
Qed.

(** The test of [safeToolInvoke] holds exactly for the errors whose message
    carries one of the three signatures. *)
Lemma isTransportError_signature (error : Exn) :
  Tools.isTransportError error = true <-> Spec.transport_signature error.
Proof.
  unfold Tools.isTransportError, Spec.transport_signature.
  destruct (message error) as [m |].
  - rewrite andb_true_iff, !orb_true_iff, !includes_occurs, negb_true_iff. split.
    + intros [_ Hsig]. exists m. split; [reflexivity | tauto].
    + intros [m' [Hm Hsig]]. inversion Hm; subst m'. split; [| tauto].
      destruct m; [| reflexivity]. exfalso.
      destruct Hsig as [Hs | [Hs | Hs]]; destruct Hs as [pre [post Hs]];
        destruct pre; simpl in Hs; discriminate Hs.
  - split; [discriminate | intros [m [Hm _]]; discriminate].
Qed.

Section ToolFacts.

Context {P R : Type}.
Variable env : Tools.Env P R.

Lemma actions_record_log (e : Tools.Entry) (s : Tools.State P) :
  Spec.actions (Tools.record (Tools.Log e) s) = Spec.actions s.
Proof.
  unfold Spec.actions, Tools.record. simpl. rewrite filter_app. simpl.
  apply app_nil_r.
Qed.

Lemma invocations_record_log (e : Tools.Entry) (s : Tools.State P) :
  Tools.invocations (Tools.record (Tools.Log e) s) = Tools.invocations s.
Proof.
  unfold Tools.invocations, Tools.record. simpl. rewrite filter_app. simpl.
  rewrite app_nil_r. reflexivity.
Qed.

Lemma connections_record_log (e : Tools.Entry) (s : Tools.State P) :
  Tools.connections (Tools.record (Tools.Log e) s) = Tools.connections s.
Proof.
  unfold Tools.connections, Tools.record. simpl. rewrite filter_app. simpl.
  rewrite app_nil_r. reflexivity.
Qed.

Lemma actions_record_invoke (t : Tools.Tool) (p : P) (s : Tools.State P) :
  Spec.actions (Tools.record (Tools.Invoke t p) s) = Spec.actions s ++ [Tools.Invoke t p].
Proof.
  unfold Spec.actions, Tools.record. simpl. rewrite filter_app. reflexivity.
Qed.

Lemma invocations_record_invoke (t : Tools.Tool) (p : P) (s : Tools.State P) :
  Tools.invocations (Tools.record (Tools.Invoke t p) s) = Tools.invocations s + 1.
Proof.
  unfold Tools.invocations, Tools.record. simpl. rewrite filter_app, length_app.
  reflexivity.
Qed.

Lemma connections_record_invoke (t : Tools.Tool) (p : P) (s : Tools.State P) :
  Tools.connections (Tools.record (Tools.Invoke t p) s) = Tools.connections s.
Proof.
  unfold Tools.connections, Tools.record. simpl. rewrite filter_app. simpl.
  rewrite app_nil_r. reflexivity.
Qed.

(** What [initializeMCP] leaves behind. *)
Lemma initializeMCP_spec (s : Tools.State P) :
  let '(out, s') := Tools.initializeMCP env s in
  Spec.actions s' = Spec.actions s ++ [Tools.GetTools]
  /\ Tools.invocations s' = Tools.invocations s
  /\ match Tools.getTools env (Tools.connections s) with
     | Throw e => out = Throw e
     | Normal allTools =>
         match Tools.find_tool "search_engine" allTools,
               Tools.find_tool "scrape_as_markdown" allTools with
         | Some st, Some sc =>
             out = Normal tt /\ Tools.searchTool s' = Some st
             /\ Tools.scrapeTool s' = Some sc
         | _, _ => out = Throw (Error "Required tools not found")
         end
     end.
Proof.
  unfold Tools.initializeMCP.
  destruct (Tools.getTools env (Tools.connections s)) as [allTools | e].
  - cbn [Tools.searchTool Tools.scrapeTool].
    destruct (Tools.find_tool "search_engine" allTools) as [st |] eqn:Hst;
      destruct (Tools.find_tool "scrape_as_markdown" allTools) as [sc |] eqn:Hsc;
      cbn; unfold Spec.actions, Tools.invocations, Tools.record; cbn;
      rewrite ?filter_app; cbn; rewrite ?app_nil_r; auto.
  - unfold Spec.actions, Tools.invocations, Tools.record; cbn;
      rewrite ?filter_app; cbn; rewrite ?app_nil_r; auto.
Qed.

(** When the attempt counter is past 1 the function never calls itself:
    one round of the budget is all it uses. *)
Lemma safeToolInvoke_last_attempt (fuel : nat) (tool : option Tools.Tool)
    (params : P) (attempt : nat) (s : Tools.State P) :
  1 < attempt ->
  Tools.safeToolInvoke_rec env (S fuel) tool params attempt s
  = Tools.safeToolInvoke_rec env 1 tool params attempt s.
Proof.
  intros Hattempt. cbn [Tools.safeToolInvoke_rec].
  destruct (Tools.call env tool params s) as [[r | error] s1]; [reflexivity |].
  apply Nat.ltb_lt in Hattempt. rewrite Hattempt. reflexivity.
Qed.

(** The budget of two rounds is enough: a larger one changes nothing, and
    the budget never runs out. *)
Lemma safeToolInvoke_budget (fuel : nat) (tool : option Tools.Tool)
    (params : P) (s : Tools.State P) :
  2 <= fuel ->
  Tools.safeToolInvoke_rec env fuel tool params 1 s
  = Tools.safeToolInvoke env tool params s
  /\ Tools.safeToolInvoke env tool params s <> None.
Proof.
  intros Hfuel. destruct fuel as [| [| fuel]]; [lia | lia |].
  unfold Tools.safeToolInvoke.
  cbn [Tools.safeToolInvoke_rec].
  destruct (Tools.call env tool params s) as [[r | error] s1];
    [split; [reflexivity | discriminate] |].
  change (1 <? 1) with false. cbv iota.
  destruct (Tools.isTransportError error); [| split; [reflexivity | discriminate]].
  destruct (Tools.initializeMCP env _) as [[[] | e] s3];
    [| split; [reflexivity | discriminate]].
  destruct tool as [t |]; [| split; [reflexivity | discriminate]].
  change (1 + 1) with 2.
  destruct (Tools.call env _ params _) as [[r | e] s4];
    (split; [reflexivity | discriminate]).
Qed.

(** C4. A call of [safeToolInvoke] on a tool makes at most two invocations.
    If the first succeeds its result is returned. If it fails with a
    message in which none of the texts No active transport, Connection
    closed and HTTP 400 occurs, that error propagates after the one
    invocation. If it fails with a message in which one of them occurs,
    the client is initialised again; an error of that (a rejected
    [getTools] or a missing tool) propagates with no second invocation;
    otherwise the tool of the same name is taken from the new client and
    invoked once with the same parameters, and whatever that invocation
    does, result or error, is the outcome. *)
Theorem C4_safeToolInvoke_retries_once
    (tool : Tools.Tool) (params : P) (s : Tools.State P) :
  exists out s',
    Tools.safeToolInvoke env (Some tool) params s = Some (out, s')
    /\ Tools.invocations s' <= Tools.invocations s + 2
    /\ match Tools.invoke env (Tools.invocations s) tool params with
       | Normal r =>
           out = Normal r
           /\ Spec.actions s' = Spec.actions s ++ [Tools.Invoke tool params]
       | Throw error =>
           (Spec.transport_signature error ->
            match Tools.getTools env (Tools.connections s) with
            | Throw reconnectError =>
                out = Throw reconnectError
                /\ Spec.actions s' =
                   Spec.actions s ++ [Tools.Invoke tool params; Tools.GetTools]
            | Normal allTools =>
                match Tools.find_tool "search_engine" allTools,
                      Tools.find_tool "scrape_as_markdown" allTools with
                | Some search, Some scrape =>
                    let newTool :=
                      if String.eqb (Tools.name tool) "search_engine"
                      then search else scrape in
                    out = Tools.invoke env (Tools.invocations s + 1) newTool params
                    /\ Spec.actions s' =
                       Spec.actions s ++ [Tools.Invoke tool params; Tools.GetTools;
                                          Tools.Invoke newTool params]
                | _, _ =>
                    out = Throw (Error "Required tools not found")
                    /\ Spec.actions s' =
                       Spec.actions s ++ [Tools.Invoke tool params; Tools.GetTools]
                end
            end)
           /\ (~ Spec.transport_signature error ->
               out = Throw error
               /\ Spec.actions s' = Spec.actions s ++ [Tools.Invoke tool params])
       end.
Proof.
  unfold Tools.safeToolInvoke. cbn [Tools.safeToolInvoke_rec Tools.call].
  destruct (Tools.invoke env (Tools.invocations s) tool params) as [r | error] eqn:Hfirst.
  - eexists _, _. split; [reflexivity |]. split.
    + rewrite invocations_record_invoke. lia.
    + split; [reflexivity | apply actions_record_invoke].
  - change (1 <? 1) with false. cbv iota.
    destruct (Tools.isTransportError error) eqn:Htransport.
    + set (s1 := Tools.record (Tools.Invoke tool params) s).
      set (s2 := Tools.record (Tools.Log (Tools.ConnectionLost (message error))) s1).
      pose proof (initializeMCP_spec s2) as Hinit.
      assert (Hconn : Tools.connections s2 = Tools.connections s)
        by (unfold s2, s1; rewrite connections_record_log;
            apply connections_record_invoke).
      assert (Hinv : Tools.invocations s2 = Tools.invocations s + 1)
        by (unfold s2, s1; rewrite invocations_record_log;
            apply invocations_record_invoke).
      assert (Hact : Spec.actions s2 = Spec.actions s ++ [Tools.Invoke tool params])
        by (unfold s2, s1; rewrite actions_record_log;
            apply actions_record_invoke).
      rewrite Hconn in Hinit.
      destruct (Tools.initializeMCP env s2) as [[[] | reconnectError] s3].
      * destruct Hinit as [Hact3 [Hinv3 Hinit]].
        destruct (Tools.getTools env (Tools.connections s)) as [allTools | e];
          [| discriminate].
        destruct (Tools.find_tool "search_engine" allTools) as [search |];
          [| discriminate].
        destruct (Tools.find_tool "scrape_as_markdown" allTools) as [scrape |];
          [| discriminate].
        destruct Hinit as [_ [Hsearch Hscrape]].
        assert (Hnew : (if String.eqb (Tools.name tool) "search_engine"
                        then Tools.searchTool s3 else Tools.scrapeTool s3)
                       = Some (if String.eqb (Tools.name tool) "search_engine"
                               then search else scrape))
          by (rewrite Hsearch, Hscrape;
              destruct (String.eqb (Tools.name tool) "search_engine"); reflexivity).
        rewrite Hnew. cbn [Tools.call].
        rewrite invocations_record_log, Hinv3, Hinv.
        set (newTool := if String.eqb (Tools.name tool) "search_engine"
                        then search else scrape).
        destruct (Tools.invoke env (Tools.invocations s + 1) newTool params) as [r | e2].
        -- eexists _, _. split; [reflexivity |]. split.
           ++ rewrite invocations_record_invoke, invocations_record_log, Hinv3, Hinv. lia.
           ++ split; [intros _ | intros Hno; exfalso; apply Hno, isTransportError_signature, Htransport].
              split; [reflexivity |].
              rewrite actions_record_invoke, actions_record_log, Hact3, Hact.
              rewrite <- !app_assoc. reflexivity.
        -- change (1 <? 1 + 1) with true. cbv iota.
           eexists _, _. split; [reflexivity |]. split.
           ++ rewrite !invocations_record_log, invocations_record_invoke,
                invocations_record_log, Hinv3, Hinv. lia.
           ++ split; [intros _ | intros Hno; exfalso; apply Hno, isTransportError_signature, Htransport].
              split; [reflexivity |].
              rewrite !actions_record_log, actions_record_invoke, actions_record_log,
                Hact3, Hact.
              rewrite <- !app_assoc. reflexivity.
      * destruct Hinit as [Hact3 [Hinv3 Hinit]].
        eexists _, _. split; [reflexivity |]. split.
        -- rewrite invocations_record_log, Hinv3, Hinv. lia.
        -- split; [intros _ | intros Hno; exfalso; apply Hno, isTransportError_signature, Htransport].
           rewrite actions_record_log, Hact3, Hact, <- app_assoc. simpl.
           destruct (Tools.getTools env (Tools.connections s)) as [allTools | e].
           ++ destruct (Tools.find_tool "search_engine" allTools);
                [destruct (Tools.find_tool "scrape_as_markdown" allTools) |].
              ** destruct Hinit as [Hinit _]. discriminate.
              ** split; [congruence | reflexivity].
              ** destruct (Tools.find_tool "scrape_as_markdown" allTools);
                   (split; [congruence | reflexivity]).
           ++ split; [congruence | reflexivity].
    + eexists _, _. split; [reflexivity |]. split.
      * rewrite invocations_record_invoke. lia.
      * split.
        -- intros Hsig. apply isTransportError_signature in Hsig. congruence.
        -- intros _. split; [reflexivity | apply actions_record_invoke].
Qed.

End ToolFacts.

Lemma C4_safeToolInvoke_retries_once_witness :
  (exists s',
      Tools.safeToolInvoke Spec.env_dropped (Some (Spec.search_engine 0)) "jazz in Boston"
        Spec.started
      = Some (Normal "results for jazz in Boston", s')
      /\ Spec.actions s'
         = [Tools.Invoke (Spec.search_engine 0) "jazz in Boston"; Tools.GetTools;
            Tools.Invoke (Spec.search_engine 1) "jazz in Boston"])
  /\ exists s',
      Tools.safeToolInvoke Spec.env_unreachable (Some (Spec.scrape_as_markdown 0))
        "https://e.example/1" Spec.started
      = Some (Throw (Error "MCP error -32000: Connection closed"), s')
      /\ Spec.actions s'
         = [Tools.Invoke (Spec.scrape_as_markdown 0) "https://e.example/1"; Tools.GetTools;
            Tools.Invoke (Spec.scrape_as_markdown 1) "https://e.example/1"].
Proof.
  assert (Hclosed : Spec.transport_signature (Error "MCP error -32000: Connection closed")).
  { exists "MCP error -32000: Connection closed". split; [reflexivity |].
    right. left. exists "MCP error -32000: ", "". reflexivity. }
  split.
  - destruct (C4_safeToolInvoke_retries_once Spec.env_dropped (Spec.search_engine 0)
                "jazz in Boston" Spec.started) as [out [s' [Hrun [_ Hcase]]]].
    cbn in Hcase. destruct Hcase as [Hretry _].
    destruct (Hretry Hclosed) as [Hout Hact].
    exists s'. rewrite Hrun, Hout. split; [reflexivity | exact Hact].
  - destruct (C4_safeToolInvoke_retries_once Spec.env_unreachable (Spec.scrape_as_markdown 0)
                "https://e.example/1" Spec.started) as [out [s' [Hrun [_ Hcase]]]].
    cbn in Hcase. destruct Hcase as [Hretry _].
    destruct (Hretry Hclosed) as [Hout Hact].
    exists s'. rewrite Hrun, Hout. split; [reflexivity | exact Hact].
Defined.

(* ===================================================================== *)
(** ** The coverage analyzer *)
(* ===================================================================== *)
Section Dicts.
Context {V : Type}.

Lemma lookup_map_keys (F : string -> V) (ks : list string) (k : string) :
  Server.lookup (map (fun d => (d, F d)) ks) k
  = if existsb (String.eqb k) ks then Some (F k) else None.
Proof.
  induction ks as [| d ks IH]; simpl; [reflexivity |].
  rewrite (String.eqb_sym k d).
  destruct (String.eqb_spec d k) as [-> | Hne]; simpl; [reflexivity | exact IH].
Qed.

Lemma assign_map_keys (v : V) (ks : list string) (k : string) :
  Server.assign (map (fun d => (d, v)) ks) k v
  = map (fun d => (d, v)) (if existsb (String.eqb k) ks then ks else ks ++ [k]).
Proof.
  induction ks as [| d ks IH]; simpl; [reflexivity |].
  rewrite (String.eqb_sym k d).
  destruct (String.eqb_spec d k) as [-> | Hne]; simpl; [reflexivity |].
  rewrite IH. destruct (existsb (String.eqb k) ks); reflexivity.
Qed.

End Dicts.

Lemma existsb_eqb_In (k : string) (ks : list string) :
  existsb (String.eqb k) ks = true <-> In k ks.
Proof.
  rewrite existsb_exists. split.
  - intros [x [Hx Hk]]. apply String.eqb_eq in Hk. subst. exact Hx.
  - intros Hk. exists k. split; [exact Hk | apply String.eqb_refl].
Qed.

Lemma existsb_eqb_not_In (k : string) (ks : list string) :
  existsb (String.eqb k) ks = false <-> ~ In k ks.
Proof.
  rewrite <- existsb_eqb_In. destruct (existsb (String.eqb k) ks); intuition congruence.
Qed.

Lemma keys_fold_spec (days : list string) (ks : list string) :
  NoDup ks ->
  NoDup (fold_left Spec.add_key days ks)
  /\ forall d, In d (fold_left Spec.add_key days ks) <-> In d ks \/ In d days.
Proof.
  revert ks. induction days as [| x days IH]; intros ks Hks; simpl.
  - split; [exact Hks | intuition].
  - assert (Hks' : NoDup (Spec.add_key ks x)).
    { unfold Spec.add_key. destruct (existsb (String.eqb x) ks) eqn:Hx; [exact Hks |].
      apply existsb_eqb_not_In in Hx.
      apply NoDup_app; [exact Hks | repeat constructor; simpl; tauto |].
      intros y Hy [<- | []]. exact (Hx Hy). }
    destruct (IH _ Hks') as [Hnd Hin]. split; [exact Hnd |].
    intros d. rewrite Hin. unfold Spec.add_key.
    destruct (existsb (String.eqb x) ks) eqn:Hx.
    + apply existsb_eqb_In in Hx. intuition (subst; auto).
    + rewrite in_app_iff. simpl. intuition (subst; auto).
Qed.

Section CoverageFacts.
Context {H : JS.Host}.

Lemma initial_days_keys (startDate endDate : string) :
  Server.initial_days startDate endDate
  = map (fun d => (d, [])) (Spec.keys_of (JS.days_between startDate endDate)).
Proof.
  unfold Server.initial_days, Spec.keys_of.
  change (@nil (string * list json)) with (map (fun d : string => (d, @nil json)) []).
  generalize (@nil string) as ks.
  induction (JS.days_between startDate endDate) as [| x days IH]; intros ks; simpl;
    [reflexivity |].
  rewrite assign_map_keys. apply IH.
Qed.

End CoverageFacts.

Section Dicts2.
Context {A : Type}.

Lemma push_map_keys (F : string -> list A) (ks : list string) (d : string) (x : A) :
  NoDup ks ->
  Server.push (map (fun k => (k, F k)) ks) d x
  = map (fun k => (k, if String.eqb k d then F k ++ [x] else F k)) ks.
Proof.
  induction ks as [| k ks IH]; intros Hnd; simpl; [reflexivity |].
  inversion Hnd as [| ? ? Hk Hnd']; subst.
  destruct (String.eqb_spec k d) as [-> | Hne].
  - f_equal. apply map_ext_in. intros k' Hk'.
    destruct (String.eqb_spec k' d) as [-> | _]; [contradiction | reflexivity].
  - f_equal. apply IH. exact Hnd'.
Qed.

End Dicts2.

Section CoverageFacts2.
Context {H : JS.Host}.

Lemma group_event_day_of (grouped : Server.dict (list json)) (event : json) :
  Server.group_event grouped event
  = (d <- Spec.day_of event ;;
     match d with
     | None => Normal grouped
     | Some eventDate =>
         match Server.lookup grouped eventDate with
         | Some _ => Normal (Server.push grouped eventDate event)
         | None =>
             if JS.inherited eventDate
             then Throw (TypeError "grouped[eventDate].push is not a function")
             else Normal grouped
         end
     end).
Proof.
  unfold Server.group_event, Spec.day_of.
  destruct (JS.get event "start_time") as [start_time | e]; simpl; [| reflexivity].
  destruct (JS.truthy start_time); [| reflexivity].
  destruct start_time as [[| | | | |] |]; reflexivity.
Qed.

(** The grouping loop files every event under its day, in order. *)
Lemma grouping (events : list json) (F : string -> list json) (ks : list string) :
  NoDup ks ->
  (forall e, In e events -> Spec.quiet ks e) ->
  for_each Server.group_event events (map (fun k => (k, F k)) ks)
  = Normal (map (fun k => (k, F k ++ filter (Spec.on_day k) events)) ks).
Proof.
  intros Hnd. revert F. induction events as [| e events IH]; intros F Hq.
  - simpl. f_equal. apply map_ext. intros k. rewrite app_nil_r. reflexivity.
  - destruct (Hq e (or_introl eq_refl)) as [d [Hd Hcase]].
    cbn [for_each]. rewrite group_event_day_of, Hd. cbn [bind].
    assert (Hrest : forall e', In e' events -> Spec.quiet ks e')
      by (intros e' He'; apply Hq; right; exact He').
    assert (Hon : forall k, Spec.on_day k e
                            = match d with Some x => String.eqb x k | None => false end)
      by (intros k; unfold Spec.on_day; rewrite Hd; reflexivity).
    destruct d as [x |].
    + cbv beta iota. rewrite lookup_map_keys.
      destruct (existsb (String.eqb x) ks) eqn:Hx.
      * rewrite push_map_keys by exact Hnd. cbn [bind].
        rewrite (IH (fun k => if String.eqb k x then F k ++ [e] else F k) Hrest).
        f_equal. apply map_ext. intros k. cbn [filter]. rewrite Hon.
        rewrite (String.eqb_sym x k).
        destruct (String.eqb k x); [rewrite <- app_assoc |]; reflexivity.
      * apply existsb_eqb_not_In in Hx.
        destruct Hcase as [Hin | Hinh]; [contradiction |]. rewrite Hinh.
        cbn [bind]. rewrite (IH F Hrest). f_equal. apply map_ext_in. intros k Hk.
        cbn [filter]. rewrite Hon.
        destruct (String.eqb_spec x k) as [-> | _]; [contradiction | reflexivity].
    + cbn [bind]. rewrite (IH F Hrest). f_equal. apply map_ext. intros k.
      cbn [filter]. rewrite Hon. reflexivity.
Qed.

(** The coverage of events that the grouping passes: one entry for every
    initialised day, computed from the events of that day alone. *)
Lemma coverage_by_day (events : list json) (startDate endDate : string) :
  let ks := Spec.keys_of (JS.days_between startDate endDate) in
  (forall e, In e events -> Spec.quiet ks e) ->
  Server.analyzeEventCoverage events startDate endDate
  = map_each (fun k => c <- Server.cover (filter (Spec.on_day k) events) ;; Normal (k, c)) ks.
Proof.
  intros ks Hq. unfold Server.analyzeEventCoverage.
  rewrite initial_days_keys. fold ks.
  rewrite grouping; [| apply keys_fold_spec; constructor | exact Hq].
  simpl. clear Hq. induction ks as [| k ks IH]; simpl; [reflexivity |].
  rewrite IH. reflexivity.
Qed.

End CoverageFacts2.

(* ---- text facts ---- *)

Lemma split_chars_before (sep : ascii) (l1 l2 : list ascii) :
  ~ In sep l1 ->
  Text.split_chars sep (l1 ++ sep :: l2) = l1 :: Text.split_chars sep l2.
Proof.
  induction l1 as [| c l1 IH]; intros Hsep; simpl.
  - rewrite Ascii.eqb_refl. reflexivity.
  - destruct (Ascii.eqb_spec c sep) as [-> | _];
      [exfalso; apply Hsep; left; reflexivity |].
    rewrite IH by (intros Hin; apply Hsep; right; exact Hin). reflexivity.
Qed.

(** The text before the first T, and what follows it. *)
Lemma split_T (day rest : string) :
  ~ In "T"%char (Text.chars day) ->
  Text.split "T" (day ++ "T" ++ rest)%string = day :: Text.split "T" rest.
Proof.
  intros HT. unfold Text.split. rewrite chars_append. simpl.
  change (Text.chars (String "T" rest)) with ("T"%char :: Text.chars rest).
  rewrite split_chars_before by exact HT. simpl. rewrite text_chars. reflexivity.
Qed.

Lemma digit_of_nat (k : nat) : k < 10 -> Text.is_digit (ascii_of_nat (48 + k)) = true.
Proof.
  intros Hk. do 10 (destruct k as [| k]; [reflexivity |]). lia.
Qed.

Lemma digits_fuel_digits (fuel n : nat) (acc : list ascii) :
  forallb Text.is_digit acc = true ->
  forallb Text.is_digit (Text.digits_fuel fuel n acc) = true.
Proof.
  revert n acc. induction fuel as [| fuel IH]; intros n acc Hacc;
    cbn [Text.digits_fuel]; [exact Hacc |].
  assert (Hacc' : forallb Text.is_digit (ascii_of_nat (48 + n mod 10) :: acc) = true).
  { cbn [forallb]. rewrite Hacc, digit_of_nat; [reflexivity |].
    apply Nat.mod_upper_bound. discriminate. }
  destruct (n / 10 =? 0); [exact Hacc' | apply IH; exact Hacc'].
Qed.

(** The numeral of [n] has at most [n + 1] digits: more fuel changes
    nothing. *)
Lemma digits_fuel_enough (f1 f2 n : nat) (acc : list ascii) :
  n < f1 -> n < f2 -> Text.digits_fuel f1 n acc = Text.digits_fuel f2 n acc.
Proof.
  revert f2 n acc. induction f1 as [| f1 IH]; intros f2 n acc H1 H2; [lia |].
  destruct f2 as [| f2]; [lia |]. cbn [Text.digits_fuel].
  destruct (Nat.eqb_spec (n / 10) 0) as [_ | Hq]; [reflexivity |].
  assert (Hlt : n / 10 < n) by (apply Nat.div_lt; [destruct n; [contradiction | lia] | lia]).
  apply IH; lia.
Qed.

Lemma dates_digits_day_chars (width : nat) (n : Z) :
  forallb Spec.day_char (Dates.digits width n) = true.
Proof.
  unfold Dates.digits, Text.pad_left. rewrite forallb_app. apply andb_true_iff. split.
  - apply forallb_forall. intros c Hc. apply repeat_spec in Hc. subst. reflexivity.
  - apply forallb_forall. intros c Hc. unfold Spec.day_char.
    assert (Hd : forallb Text.is_digit (Text.nat_digits (Z.to_nat n)) = true)
      by (apply digits_fuel_digits; reflexivity).
    rewrite forallb_forall in Hd. rewrite (Hd c Hc). reflexivity.
Qed.

Lemma iso_date_day_chars (n : Z) :
  forallb Spec.day_char (Text.chars (Dates.iso_date_of_day n)) = true.
Proof.
  unfold Dates.iso_date_of_day.
  destruct (Dates.civil_from_days n) as [[y m] d].
  rewrite chars_text.
  rewrite forallb_app. cbn [forallb]. rewrite forallb_app. cbn [forallb].
  rewrite !dates_digits_day_chars.
  destruct ((0 <=? y)%Z && (y <=? 9999)%Z).
  - rewrite dates_digits_day_chars. reflexivity.
  - cbn [forallb]. rewrite dates_digits_day_chars. destruct (y <? 0)%Z; reflexivity.
Qed.

Lemma day_chars_no_T (s : string) :
  forallb Spec.day_char (Text.chars s) = true -> ~ In "T"%char (Text.chars s).
Proof.
  intros Hs HT. rewrite forallb_forall in Hs. specialize (Hs _ HT). discriminate.
Qed.

Section DayLoop.
Context {H : JS.Host}.

Lemma days_loop_iso (fuel : nat) (current stop : Dates.time) (d : string) :
  In d (JS.days_loop fuel current stop) -> exists t, d = Dates.iso_date t.
Proof.
  revert current. induction fuel as [| fuel IH]; intros current Hd; simpl in Hd;
    [contradiction |].
  destruct (Dates.le current stop); [| contradiction].
  destruct current as [t |]; [| contradiction].
  destruct Hd as [<- | Hd]; [exists t; reflexivity | exact (IH _ Hd)].
Qed.

Lemma days_between_no_T (startDate endDate d : string) :
  In d (JS.days_between startDate endDate) -> ~ In "T"%char (Text.chars d).
Proof.
  intros Hd. apply days_loop_iso in Hd. destruct Hd as [t ->].
  apply day_chars_no_T, iso_date_day_chars.
Qed.

End DayLoop.

Section DayLoopBudget.

Context {H : JS.Host}.
Hypothesis laws : JS.HostLaws H.

Lemma days_loop_past (fuel : nat) (current stop : Dates.time) :
  Dates.le current stop = false -> JS.days_loop fuel current stop = [].
Proof.
  intros Hle. destruct fuel; [reflexivity |]. cbn [JS.days_loop]. rewrite Hle. reflexivity.
Qed.

Lemma days_fuel_positive (current stop : Dates.time) : 0 < JS.days_fuel current stop.
Proof. unfold JS.days_fuel. destruct current, stop; lia. Qed.

(** The loop over the days ends by its condition: a budget beyond
    [days_fuel] gives the same days. *)
Lemma days_loop_enough (f1 f2 : nat) (current stop : Dates.time) :
  JS.days_fuel current stop <= f1 -> JS.days_fuel current stop <= f2 ->
  JS.days_loop f1 current stop = JS.days_loop f2 current stop.
Proof.
  revert f2 current. induction f1 as [| f1 IH]; intros f2 current H1 H2.
  - pose proof (days_fuel_positive current stop). lia.
  - destruct f2 as [| f2]; [pose proof (days_fuel_positive current stop); lia |].
    cbn [JS.days_loop].
    destruct (Dates.le current stop) eqn:Hle; [| reflexivity].
    destruct current as [t |]; [| reflexivity].
    destruct stop as [s |]; [| discriminate].
    cbn [Dates.le] in Hle. apply Z.leb_le in Hle.
    f_equal.
    destruct (Dates.le (Dates.next_day JS.zone t) (Some s)) eqn:Hnext;
      [| rewrite !days_loop_past by exact Hnext; reflexivity].
    unfold Dates.next_day, Dates.TimeClip in *.
    pose proof (JS.zone_progress H laws t) as Hstep.
    set (t' := Dates.UTC JS.zone (Dates.LocalTime JS.zone t + Dates.msPerDay)) in *.
    destruct (Z.abs t' <=? Dates.maxTime)%Z; [| discriminate].
    cbn [Dates.le] in Hnext. apply Z.leb_le in Hnext.
    unfold JS.days_fuel in H1, H2.
    assert (Hhalf : (0 < Dates.msPerDay / 2)%Z) by reflexivity.
    assert (Hq : (Z.to_nat ((s - t') / (Dates.msPerDay / 2))
                  < Z.to_nat ((s - t) / (Dates.msPerDay / 2)))%nat).
    { assert (Hle' : ((s - t') / (Dates.msPerDay / 2) + 1
                      <= (s - t) / (Dates.msPerDay / 2))%Z).
      { rewrite <- Z.div_add by lia. apply Z.div_le_mono; lia. }
      assert (0 <= (s - t') / (Dates.msPerDay / 2))%Z by (apply Z.div_pos; lia).
      lia. }
    apply IH; unfold JS.days_fuel; lia.
Qed.

End DayLoopBudget.

Lemma digit_val_range (c : ascii) :
  Text.is_digit c = true -> (0 <= Text.digit_val c <= 9)%Z.
Proof.
  unfold Text.is_digit, Text.digit_val. intros Hc.
  apply andb_true_iff in Hc. destruct Hc as [H1 H2].
  apply Nat.leb_le in H1, H2. lia.
Qed.

Lemma days_from_civil_range (y m d : Z) :
  (0 <= y <= 9999 -> 1 <= m <= 12 -> 1 <= d <= 31 ->
   -1000000 <= Dates.days_from_civil y m d <= 3000000)%Z.
Proof.
  intros Hy Hm Hd. unfold Dates.days_from_civil.
  destruct (m <=? 2)%Z; destruct (2 <? m)%Z eqn:H2;
    try apply Z.ltb_lt in H2; try apply Z.ltb_ge in H2;
    Z.div_mod_to_equations; lia.
Qed.

Lemma parse_iso_date_range (s : string) (n : Z) :
  Dates.parse_iso_date s = Some n -> (-1000000 <= n <= 3000000)%Z.
Proof.
  unfold Dates.parse_iso_date.
  destruct (Text.chars s) as [| y1 [| y2 [| y3 [| y4 [| h1 [| m1 [| m2 [| h2 [| d1 [| d2 [| ? ?]]]]]]]]]]];
    try discriminate.
  destruct (forallb Text.is_digit [y1; y2; y3; y4; m1; m2; d1; d2]
            && Ascii.eqb h1 "-" && Ascii.eqb h2 "-") eqn:Hdigits; [| discriminate].
  apply andb_true_iff in Hdigits. destruct Hdigits as [Hdigits _].
  apply andb_true_iff in Hdigits. destruct Hdigits as [Hdigits _].
  cbn [forallb] in Hdigits.
  repeat (apply andb_true_iff in Hdigits; destruct Hdigits as [?Hc Hdigits]).
  repeat match goal with
         | Hc : Text.is_digit _ = true |- _ => apply digit_val_range in Hc
         end.
  destruct (_ && _) eqn:Hvalid; [| discriminate].
  intros Hn. inversion Hn. subst n. clear Hn.
  repeat (apply andb_true_iff in Hvalid; destruct Hvalid as [Hvalid ?Hv]).
  apply Z.leb_le in Hvalid, Hv, Hv0, Hv1.
  assert (Hdim : (Dates.days_in_month (Dates.number_of [y1; y2; y3; y4])
                    (Dates.number_of [m1; m2]) <= 31)%Z).
  { unfold Dates.days_in_month.
    repeat match goal with
           | |- context [match ?x with _ => _ end] => destruct x
           end; lia. }
  apply days_from_civil_range; [| lia | lia].
  unfold Dates.number_of. cbn [fold_left]. lia.
Qed.

Section FixedOffset.

Context {H : JS.Host}.
Hypothesis laws : JS.HostLaws H.
Hypothesis Hzone : Spec.fixed_offset JS.zone.

Lemma next_day_fixed (n : Z) :
  (-1000000 <= n <= 3000000)%Z ->
  Dates.next_day JS.zone (n * Dates.msPerDay) = Some ((n + 1) * Dates.msPerDay)%Z.
Proof.
  intros Hn. destruct Hzone as [offset [Hu Hl]].
  unfold Dates.next_day, Dates.UTC, Dates.LocalTime. rewrite Hu, Hl.
  replace (n * Dates.msPerDay + offset + Dates.msPerDay - offset)%Z
    with ((n + 1) * Dates.msPerDay)%Z by lia.
  unfold Dates.TimeClip.
  destruct (Z.leb_spec (Z.abs ((n + 1) * Dates.msPerDay)) Dates.maxTime) as [_ | Hbig];
    [reflexivity |].
  unfold Dates.msPerDay, Dates.maxTime in *. lia.
Qed.

Lemma iso_date_midnight (n : Z) :
  Dates.iso_date (n * Dates.msPerDay) = Dates.iso_date_of_day n.
Proof.
  unfold Dates.iso_date. rewrite Z.div_mul by discriminate. reflexivity.
Qed.

Lemma day_numbers_step (a b : Z) :
  (a <= b)%Z -> Spec.day_numbers a b = a :: Spec.day_numbers (a + 1) b.
Proof.
  intros Hab. unfold Spec.day_numbers.
  replace (Z.to_nat (b - a + 1)) with (S (Z.to_nat (b - (a + 1) + 1))) by lia.
  cbn [seq map]. f_equal; [lia |].
  rewrite <- seq_shift, map_map. apply map_ext. intros k. lia.
Qed.

Lemma days_loop_fixed (fuel : nat) (a b : Z) :
  (-1000000 <= a)%Z -> (b <= 3000000)%Z ->
  Z.to_nat (b - a + 1) <= fuel ->
  JS.days_loop fuel (Some (a * Dates.msPerDay)%Z) (Some (b * Dates.msPerDay)%Z)
  = map Dates.iso_date_of_day (Spec.day_numbers a b).
Proof.
  revert a. induction fuel as [| fuel IH]; intros a Ha Hb Hfuel.
  - unfold Spec.day_numbers. replace (Z.to_nat (b - a + 1)) with 0 by lia. reflexivity.
  - cbn [JS.days_loop Dates.le].
    destruct (Z.leb_spec (a * Dates.msPerDay) (b * Dates.msPerDay)) as [Hle | Hgt].
    + assert (Hab : (a <= b)%Z) by (unfold Dates.msPerDay in Hle; lia).
      rewrite day_numbers_step by exact Hab. cbn [map].
      rewrite iso_date_midnight, next_day_fixed by lia.
      f_equal. apply IH; lia.
    + assert (Hab : (b < a)%Z) by (unfold Dates.msPerDay in Hgt; lia).
      unfold Spec.day_numbers. replace (Z.to_nat (b - a + 1)) with 0 by lia. reflexivity.
Qed.

(** In a zone without offset changes [getDateRange] lists every day from
    the start date to the end date once, in order. *)
Lemma getDateRange_fixed (startDate endDate : string) (a b : Z) :
  Dates.parse_iso_date startDate = Some a ->
  Dates.parse_iso_date endDate = Some b ->
  Scout.getDateRange startDate endDate
  = map Dates.iso_date_of_day (Spec.day_numbers a b).
Proof.
  intros Ha Hb. unfold Scout.getDateRange, JS.days_between.
  rewrite (JS.parse_iso H laws _ _ Ha), (JS.parse_iso H laws _ _ Hb).
  apply parse_iso_date_range in Ha, Hb.
  apply days_loop_fixed; [lia | lia |].
  unfold JS.days_fuel.
  replace (b * Dates.msPerDay - a * Dates.msPerDay)%Z with ((b - a) * Dates.msPerDay)%Z by lia.
  destruct (Z.le_gt_cases a b) as [Hab | Hab]; [| lia].
  assert (Hq : (b - a <= (b - a) * Dates.msPerDay / (Dates.msPerDay / 2))%Z).
  { apply Z.div_le_lower_bound; [reflexivity |]. unfold Dates.msPerDay.
    change (86400000 / 2)%Z with 43200000%Z. lia. }
  lia.
Qed.

End FixedOffset.

Section CoverFacts.
Context {H : JS.Host}.

(** A flag of a day is set exactly when the hour of one of its events
    lies in the band. *)
Lemma some_in_band (band : option Z -> bool) (dayEvents : list json) (hours : list (option Z)) :
  map_each Server.hour_of dayEvents = Normal hours ->
  some (Server.in_band band) dayEvents = Normal (existsb band hours).
Proof.
  revert hours. induction dayEvents as [| e r IH]; intros hours Hh; simpl in Hh.
  - inversion Hh. reflexivity.
  - apply bind_normal in Hh. destruct Hh as [h [Hh1 Hh]].
    apply bind_normal in Hh. destruct Hh as [hs [Hhs Hh]].
    inversion Hh. subst hours. simpl. unfold Server.in_band at 1. rewrite Hh1. simpl.
    destruct (band h); [reflexivity | apply IH; exact Hhs].
Qed.

Lemma cover_by_hours (dayEvents : list json) (hours : list (option Z)) :
  map_each Server.hour_of dayEvents = Normal hours ->
  Server.cover dayEvents
  = Normal {| Server.count := List.length dayEvents;
              Server.events := dayEvents;
              Server.hasMorning := existsb Server.is_morning hours;
              Server.hasAfternoon := existsb Server.is_afternoon hours;
              Server.hasEvening := existsb Server.is_evening hours |}.
Proof.
  intros Hh. unfold Server.cover.
  rewrite !(some_in_band _ _ _ Hh). reflexivity.
Qed.

Lemma nonempty_append (a b : string) : b <> "" -> String.eqb (a ++ b) "" = false.
Proof.
  intros Hb. destruct a; simpl; [| reflexivity].
  destruct b; [contradiction | reflexivity].
Qed.

Lemma day_of_timed (e : json) (day clock : string) :
  ~ In "T"%char (Text.chars day) ->
  JS.get e "start_time" = Normal (Some (JString (day ++ "T" ++ clock))) ->
  Spec.day_of e = Normal (Some day).
Proof.
  intros HT Hget. unfold Spec.day_of. rewrite Hget. cbn [bind JS.truthy].
  rewrite nonempty_append by discriminate. cbn [negb].
  rewrite split_T by exact HT. reflexivity.
Qed.

Lemma hour_of_timed (e : json) (day clock : string) :
  ~ In "T"%char (Text.chars day) ->
  JS.get e "start_time" = Normal (Some (JString (day ++ "T" ++ clock))) ->
  Server.hour_of e
  = Normal (JS.parseInt (hd "" (Text.split ":" (hd "" (Text.split "T" clock))))).
Proof.
  intros HT Hget. unfold Server.hour_of. rewrite Hget. cbn [bind].
  rewrite split_T by exact HT. cbn [nth_error].
  unfold Text.split at 1.
  destruct (Text.split_chars "T" (Text.chars clock)) as [| p ps] eqn:Hs.
  - destruct (Text.chars clock) as [| c r]; simpl in Hs; [discriminate |].
    destruct (Ascii.eqb c "T"); [discriminate |].
    destruct (Text.split_chars "T" r); discriminate.
  - unfold Text.split. rewrite Hs. reflexivity.
Qed.

End CoverFacts.

(** C8, as the source has it. Three events that start at 09:30, 14:00 and
    19:00 on one initialised day give that day the entry with count 3 and
    all three flags set: the hour 9 lies in the morning band from 8 up to
    12, so hasMorning is true. In general the flags of a day are: some
    event of the day has its start hour in 8 to 11 (morning), in 12 to 16
    (afternoon), at 17 or later (evening). *)
Theorem C8_three_events_cover_all_bands {H : JS.Host}
    (startDate endDate day : string) (e1 e2 e3 : JSON.json) :
  In day (JS.days_between startDate endDate) ->
  JS.get e1 "start_time" = Normal (Some (JSON.JString (day ++ "T09:30:00"))) ->
  JS.get e2 "start_time" = Normal (Some (JSON.JString (day ++ "T14:00:00"))) ->
  JS.get e3 "start_time" = Normal (Some (JSON.JString (day ++ "T19:00:00"))) ->
  (exists coverage,
      Server.analyzeEventCoverage [e1; e2; e3] startDate endDate = Normal coverage
      /\ Server.lookup coverage day
         = Some {| Server.count := 3;
                   Server.events := [e1; e2; e3];
                   Server.hasMorning := true;
                   Server.hasAfternoon := true;
                   Server.hasEvening := true |})
  /\ (forall dayEvents hours,
         map_each Server.hour_of dayEvents = Normal hours ->
         Server.cover dayEvents
         = Normal {| Server.count := List.length dayEvents;
                     Server.events := dayEvents;
                     Server.hasMorning :=
                       existsb (fun hour => match hour with
                                            | Some h => (8 <=? h)%Z && (h <? 12)%Z
                                            | None => false
                                            end) hours;
                     Server.hasAfternoon :=
                       existsb (fun hour => match hour with
                                            | Some h => (12 <=? h)%Z && (h <? 17)%Z
                                            | None => false
                                            end) hours;
                     Server.hasEvening :=
                       existsb (fun hour => match hour with
                                            | Some h => (17 <=? h)%Z
                                            | None => false
                                            end) hours |}).
Proof.
  intros Hday H1 H2 H3. split; [| exact cover_by_hours].
  pose proof (days_between_no_T _ _ _ Hday) as HT.
  pose proof (day_of_timed e1 day "09:30:00" HT H1) as D1.
  pose proof (day_of_timed e2 day "14:00:00" HT H2) as D2.
  pose proof (day_of_timed e3 day "19:00:00" HT H3) as D3.
  pose proof (hour_of_timed e1 day "09:30:00" HT H1) as T1.
  pose proof (hour_of_timed e2 day "14:00:00" HT H2) as T2.
  pose proof (hour_of_timed e3 day "19:00:00" HT H3) as T3.
  set (ks := Spec.keys_of (JS.days_between startDate endDate)).
  assert (Hks : In day ks)
    by (apply (keys_fold_spec _ [] (NoDup_nil _)); right; exact Hday).
  set (full := {| Server.count := 3; Server.events := [e1; e2; e3];
                  Server.hasMorning := true; Server.hasAfternoon := true;
                  Server.hasEvening := true |}).
  set (empty := {| Server.count := 0; Server.events := [];
                   Server.hasMorning := false; Server.hasAfternoon := false;
                   Server.hasEvening := false |}).
  exists (map (fun k => (k, if String.eqb day k then full else empty)) ks).
  split.
  - rewrite coverage_by_day.
    + fold ks. apply map_each_all. intros k _.
      unfold Spec.on_day. cbn [filter]. unfold Spec.on_day. rewrite D1, D2, D3.
      destruct (String.eqb day k).
      * rewrite (cover_by_hours _ [Some 9%Z; Some 14%Z; Some 19%Z]); [reflexivity |].
        cbn [map_each]. rewrite T1, T2, T3. reflexivity.
      * reflexivity.
    + fold ks. intros e [<- | [<- | [<- | []]]]; eexists; (split; [eassumption | left; exact Hks]).
  - rewrite lookup_map_keys. apply existsb_eqb_In in Hks. rewrite Hks.
    rewrite String.eqb_refl. reflexivity.
Qed.

Lemma C8_three_events_cover_all_bands_witness :
  exists coverage,
    Server.analyzeEventCoverage (H := Node.utc) Spec.three_talks "2026-01-02" "2026-01-04"
    = Normal coverage
    /\ Server.lookup coverage "2026-01-03"
       = Some {| Server.count := 3;
                 Server.events := Spec.three_talks;
                 Server.hasMorning := true;
                 Server.hasAfternoon := true;
                 Server.hasEvening := true |}.
Proof.
  refine (proj1 (C8_three_events_cover_all_bands (H := Node.utc)
                   "2026-01-02" "2026-01-04" "2026-01-03" _ _ _ _ _ _ _)).
  - vm_compute. auto.
  - reflexivity.
  - reflexivity.
  - reflexivity.
Defined.

(** C8 as stated fails: for the three events the morning flag is set, so
    no entry of the day has hasMorning false. *)
Lemma C8_morning_flag_is_set :
  ~ exists coverage entry,
      Server.analyzeEventCoverage (H := Node.utc) Spec.three_talks
        "2026-01-03" "2026-01-03" = Normal coverage
      /\ Server.lookup coverage "2026-01-03" = Some entry
      /\ Server.hasMorning entry = false
      /\ Server.hasAfternoon entry = true
      /\ Server.hasEvening entry = true
      /\ Server.count entry = 3.
Proof.
  intros [coverage [entry [Hrun [Hentry [Hmorning _]]]]].
  vm_compute in Hrun. inversion Hrun; subst coverage.
  vm_compute in Hentry. inversion Hentry; subst entry.
  discriminate Hmorning.
Qed.

(** C10, at inputs where the code departs from it. An event whose
    [start_time] is the text constructor names no initialised day, yet it
    is not skipped: [grouped[eventDate]] finds the inherited property of
    that name, the guard passes, and the call of [push] throws, whatever
    the host and the date range. The same happens to an in-range event
    whose [start_time] has no time part, when the flags are computed. In
    both cases no day receives an entry. And on a host in United States
    Eastern time the range from 2026-11-01 to 2026-11-02 initialises the
    first day only, so an event on the second day is filed nowhere and that
    day has no entry. *)
Theorem C10_inherited_day_name_throws {H : JS.Host} (startDate endDate : string) :
  Server.analyzeEventCoverage [Spec.event "Talk" "constructor"] startDate endDate
  = Throw (TypeError "grouped[eventDate].push is not a function")
  /\ Server.analyzeEventCoverage (H := Node.utc)
       [Spec.event "Street fair" "2026-01-03"] "2026-01-03" "2026-01-03"
     = Throw (TypeError "Cannot read properties of undefined (reading 'split')")
  /\ Server.analyzeEventCoverage (H := Node.new_york)
       [Spec.event "Late show" "2026-11-02T21:00:00"] "2026-11-01" "2026-11-02"
     = Normal [("2026-11-01",
                {| Server.count := 0; Server.events := [];
                   Server.hasMorning := false; Server.hasAfternoon := false;
                   Server.hasEvening := false |})].
Proof.
  split; [| split; vm_compute; reflexivity].
  unfold Server.analyzeEventCoverage. rewrite initial_days_keys.
  cbn [for_each]. rewrite group_event_day_of.
  change (Spec.day_of (Spec.event "Talk" "constructor"))
    with (Normal (Some "constructor") : Completion (option string)).
  cbn [bind]. rewrite lookup_map_keys.
  destruct (existsb (String.eqb "constructor")
              (Spec.keys_of (JS.days_between startDate endDate))) eqn:Hkey.
  - exfalso. apply existsb_eqb_In in Hkey.
    apply (keys_fold_spec _ [] (NoDup_nil _)) in Hkey.
    destruct Hkey as [[] | Hkey].
    apply days_between_no_T in Hkey as HT.
    apply days_loop_iso in Hkey. destruct Hkey as [t Ht].
    pose proof (iso_date_day_chars (t / Dates.msPerDay)) as Hc.
    unfold Dates.iso_date in Ht. rewrite <- Ht in Hc. discriminate Hc.
  - reflexivity.
Qed.

(* ===================================================================== *)
(** ** Scout *)
(* ===================================================================== *)

Lemma calls_app (w1 w2 : Effects.World) :
  Effects.calls (w1 ++ w2) = Effects.calls w1 ++ Effects.calls w2.
Proof. unfold Effects.calls. apply flat_map_app. Qed.

Lemma ticks_app (w1 w2 : Effects.World) :
  Spec.ticks (w1 ++ w2) = Spec.ticks w1 + Spec.ticks w2.
Proof. unfold Spec.ticks. rewrite filter_app, length_app. reflexivity. Qed.

Section ScoutFacts.

Context {H : JS.Host}.
Variable env : Effects.Env.
Hypothesis Hkey : Spec.configured env.

Lemma getGenAI_configured (who : string) (w : Effects.World) :
  Effects.getGenAI env who w = (Normal tt, w).
Proof.
  destruct Hkey as [key [Hk Hne]]. unfold Effects.getGenAI. rewrite Hk.
  destruct (String.eqb_spec key ""); [contradiction | reflexivity].
Qed.

(** [searchForInterest] never throws: it issues one request and resolves
    to the result that the reply determines. *)
Lemma searchForInterest_run (interest city date : string) (w : Effects.World) :
  let request := Effects.ScoutPrompt interest city date in
  let reply := Effects.generateContent env (List.length (Effects.calls w)) request in
  exists entry,
    Scout.searchForInterest env interest city date w
    = (Normal (Spec.search_result reply interest city date),
       w ++ [Effects.Log (Effects.Searching interest date);
             Effects.Call request;
             Effects.Log entry]).
Proof.
  intros request reply.
  unfold Scout.searchForInterest, Effects.bindM.
  rewrite getGenAI_configured.
  unfold Effects.logger, Effects.emit, Effects.try_catch, Effects.generate.
  rewrite calls_app. simpl Effects.calls at 2. rewrite app_nil_r. fold request reply.
  unfold Spec.search_result, Spec.search_analysis.
  destruct reply as [e | responseText].
  - eexists. rewrite <- !app_assoc. reflexivity.
  - unfold Effects.lift.
    destruct (Extract.extractJSON3 "Scout" responseText) as [result | e]; cbn [bind];
      [| eexists; rewrite <- !app_assoc; reflexivity].
    destruct (JS.get result "links") as [links | e] eqn:Hlinks; cbn [bind];
      [| eexists; rewrite <- !app_assoc; reflexivity].
    destruct (Scout.found_count links) as [[] | e]; cbn [bind];
      [| eexists; rewrite <- !app_assoc; reflexivity].
    destruct (JS.get result "queries_used") as [queries | e] eqn:Hq; cbn [bind].
    + eexists. rewrite <- !app_assoc. reflexivity.
    + destruct result; discriminate.
Qed.

End ScoutFacts.

Section ScoutSweep.

Context {H : JS.Host}.
Variable env : Effects.Env.
Hypothesis Hkey : Spec.configured env.

Lemma collect_run (found : list json) (interest date : string)
    (allLinks : list Effects.object) (w : Effects.World) :
  Scout.collect env (JArray found) interest date allLinks w
  = (Normal (allLinks ++ Spec.stamp (Effects.clock env) interest date (Spec.ticks w) found),
     w ++ repeat Effects.Now (List.length found)).
Proof.
  unfold Scout.collect. revert allLinks w.
  induction found as [| link rest IH]; intros allLinks w; cbn [Effects.for_of].
  - unfold Effects.ret. simpl. rewrite !app_nil_r. reflexivity.
  - unfold Effects.bindM at 1. unfold Effects.bindM at 1.
    unfold Effects.now at 1. unfold Effects.ret at 1.
    rewrite IH. cbn [Spec.stamp repeat List.length].
    rewrite ticks_app. cbn [Spec.ticks filter Effects.is_now List.length].
    fold (Spec.ticks w). rewrite Nat.add_1_r, <- !app_assoc. reflexivity.
Qed.

(** One round of the sweep under a harmless reply. *)
Lemma sweep_step_run (city interest date : string)
    (acc : list Scout.SearchResult * list Effects.object) (w : Effects.World) :
  let reply := Effects.generateContent env (List.length (Effects.calls w))
                 (Effects.ScoutPrompt interest city date) in
  let r := Spec.search_result reply interest city date in
  Spec.harmless reply = true ->
  exists w',
    Scout.sweep_step env city interest acc date w
    = (Normal (fst acc ++ [r],
               snd acc ++ Spec.stamp (Effects.clock env) interest date (Spec.ticks w)
                            (Spec.items (Scout.links r))),
       w')
    /\ Effects.calls w' = Effects.calls w ++ [Effects.ScoutPrompt interest city date]
    /\ Spec.ticks w' = Spec.ticks w + List.length (Spec.items (Scout.links r)).
Proof.
  intros reply r Hharmless.
  destruct (searchForInterest_run env Hkey interest city date w) as [entry Hrun].
  fold reply r in Hrun.
  unfold Scout.sweep_step. unfold Effects.bindM at 1. rewrite Hrun.
  set (w1 := w ++ _).
  assert (Hcalls1 : Effects.calls w1 = Effects.calls w ++ [Effects.ScoutPrompt interest city date])
    by (unfold w1; rewrite calls_app; reflexivity).
  assert (Hticks1 : Spec.ticks w1 = Spec.ticks w)
    by (unfold w1, Spec.ticks; rewrite filter_app, length_app; simpl; lia).
  assert (Hlinks : (exists found, Scout.links r = JArray found)
                   \/ (Scout.has_links (Scout.links r) = Normal false
                       /\ Spec.items (Scout.links r) = [])).
  { unfold Spec.harmless in Hharmless. unfold r, Spec.search_result.
    destruct (Spec.search_analysis reply) as [[links queries] | e]; cbn [Scout.links].
    - destruct (Spec.links_or_empty links) as [| b | x | s | found | fields] eqn:Hl;
        try (right; split;
             [destruct (Scout.has_links _) as [[] |]; congruence | reflexivity]).
      left. eexists. reflexivity.
    - left. eexists. reflexivity. }
  destruct Hlinks as [[found Hfound] | [Hnone Hitems]].
  - rewrite Hfound. cbn [Spec.items].
    unfold Effects.bindM, Effects.lift. cbn [Scout.has_links JS.truthy].
    destruct found as [| link rest].
    + cbn. exists (w1 ++ [Effects.Sleep 500]). rewrite app_nil_r.
      split; [reflexivity |]. split.
      * rewrite calls_app, Hcalls1. simpl. rewrite app_nil_r. reflexivity.
      * unfold Spec.ticks in *. rewrite filter_app, length_app, Hticks1. simpl. lia.
    + change (0 <? List.length (link :: rest)) with true. cbv iota.
      rewrite collect_run. unfold Effects.sleep, Effects.emit, Effects.ret.
      rewrite Hticks1.
      eexists. split; [reflexivity |]. split.
      * rewrite !calls_app, Hcalls1.
        assert (Hnow : forall n, Effects.calls (repeat Effects.Now n) = [])
          by (induction n; simpl; auto).
        rewrite Hnow. simpl. rewrite !app_nil_r. reflexivity.
      * assert (Hnow : forall n, Spec.ticks (repeat Effects.Now n) = n)
          by (induction n; auto; unfold Spec.ticks in *; simpl; congruence).
        rewrite !ticks_app, Hticks1, Hnow. unfold Spec.ticks. simpl. lia.
  - rewrite Hitems. unfold Effects.bindM, Effects.lift. rewrite Hnone.
    unfold Effects.ret, Effects.sleep, Effects.emit.
    exists (w1 ++ [Effects.Sleep 500]). rewrite app_nil_r.
    split; [reflexivity |]. split.
    + rewrite calls_app, Hcalls1. simpl. rewrite app_nil_r. reflexivity.
    + unfold Spec.ticks in *. rewrite filter_app, length_app, Hticks1. simpl. lia.
Qed.

End ScoutSweep.

Lemma for_of_map {A B S} (g : A -> B) (body : S -> B -> Effects.M S)
    (l : list A) (s : S) (w : Effects.World) :
  Effects.for_of body (map g l) s w = Effects.for_of (fun s x => body s (g x)) l s w.
Proof.
  revert s w. induction l as [| x l IH]; intros s w; cbn [map Effects.for_of];
    [reflexivity |].
  unfold Effects.bindM. destruct (body s (g x) w) as [[s' | e] w']; [apply IH | reflexivity].
Qed.

Lemma for_of_app {A S} (body : S -> A -> Effects.M S) (l1 l2 : list A) (s : S)
    (w : Effects.World) :
  Effects.for_of body (l1 ++ l2) s w
  = Effects.bindM (Effects.for_of body l1 s) (Effects.for_of body l2) w.
Proof.
  revert s w. induction l1 as [| x l1 IH]; intros s w; cbn [app Effects.for_of].
  - reflexivity.
  - unfold Effects.bindM.
    destruct (body s x w) as [[s' | e] w']; [| reflexivity].
    rewrite IH. reflexivity.
Qed.

(** Two nested loops visit the pairs of the product, the outer list
    first. *)
Lemma for_of_nested {X Y S} (f : X -> S -> Y -> Effects.M S)
    (xs : list X) (ys : list Y) (s : S) (w : Effects.World) :
  Effects.for_of (fun acc x => Effects.for_of (f x) ys acc) xs s w
  = Effects.for_of (fun acc p => f (fst p) acc (snd p)) (list_prod xs ys) s w.
Proof.
  revert s w. induction xs as [| x xs IH]; intros s w; cbn [list_prod Effects.for_of];
    [reflexivity |].
  rewrite for_of_app. unfold Effects.bindM. rewrite for_of_map. cbn [fst snd].
  destruct (Effects.for_of (f x) ys s w) as [[s' | e] w']; [apply IH | reflexivity].
Qed.

Section ScoutRun.

Context {H : JS.Host}.
Variable env : Effects.Env.
Hypothesis Hkey : Spec.configured env.
Hypothesis Hharmless :
  forall n request, Spec.harmless (Effects.generateContent env n request) = true.

Lemma search_result_fields (reply : Effects.Reply) (interest city date : string) :
  Scout.interest (Spec.search_result reply interest city date) = interest
  /\ Scout.date (Spec.search_result reply interest city date) = date.
Proof.
  unfold Spec.search_result.
  destruct (Spec.search_analysis reply) as [[links queries] | e]; split; reflexivity.
Qed.

Lemma sweep_run (city : string) (pairs : list (string * string))
    (acc : list Scout.SearchResult * list Effects.object) (w : Effects.World) :
  let results := Spec.sweep_results env city (List.length (Effects.calls w)) pairs in
  exists w',
    Effects.for_of (fun acc p => Scout.sweep_step env city (fst p) acc (snd p)) pairs acc w
    = (Normal (fst acc ++ results,
               snd acc ++ Spec.merged (Effects.clock env) (Spec.ticks w) results),
       w')
    /\ Effects.calls w' = Effects.calls w ++ map (Spec.prompt city) pairs.
Proof.
  revert acc w. induction pairs as [| [interest date] rest IH]; intros acc w results.
  - exists w. cbn. unfold Effects.ret. rewrite !app_nil_r.
    destruct acc. split; reflexivity.
  - cbn [Effects.for_of fst snd]. unfold Effects.bindM.
    destruct (sweep_step_run env Hkey city interest date acc w (Hharmless _ _))
      as [w1 [Hstep [Hcalls Hticks]]].
    rewrite Hstep.
    destruct (IH (fst acc ++ [Spec.search_result
                                (Effects.generateContent env (List.length (Effects.calls w))
                                   (Effects.ScoutPrompt interest city date))
                                interest city date],
                  snd acc ++ Spec.stamp (Effects.clock env) interest date (Spec.ticks w)
                               (Spec.items (Scout.links
                                  (Spec.search_result
                                     (Effects.generateContent env (List.length (Effects.calls w))
                                        (Effects.ScoutPrompt interest city date))
                                     interest city date)))) w1)
      as [w' [Hrest Hcalls']].
    exists w'. split.
    + rewrite Hrest. cbn [fst snd]. unfold results. cbn [Spec.sweep_results Spec.merged].
      destruct (search_result_fields
                  (Effects.generateContent env (List.length (Effects.calls w))
                     (Effects.ScoutPrompt interest city date)) interest city date)
        as [Hi Hd].
      rewrite Hi, Hd, Hcalls, Hticks, length_app, Nat.add_1_r, <- !app_assoc.
      reflexivity.
    + rewrite Hcalls', Hcalls, <- app_assoc. reflexivity.
Qed.

(** [scoutEvents] under harmless replies: it returns, having issued one
    request for every pair of an interest and a date, in sweep order. *)
Lemma scoutEvents_run (city : string) (interests : list string)
    (startDate endDate : string) (w : Effects.World) :
  let pairs := list_prod interests (Scout.getDateRange startDate endDate) in
  exists r w',
    Scout.scoutEvents env city interests startDate endDate w = (Normal r, w')
    /\ Scout.searchResults r
       = Spec.sweep_results env city (List.length (Effects.calls w)) pairs
    /\ Scout.allLinks r
       = Scout.dedupe (Spec.merged (Effects.clock env) (Spec.ticks w)
                         (Scout.searchResults r)) []
    /\ Scout.totalLinksFound r = List.length (Scout.allLinks r)
    /\ Effects.calls w' = Effects.calls w ++ map (Spec.prompt city) pairs.
Proof.
  intros pairs. unfold Scout.scoutEvents.
  unfold Effects.bindM at 1. unfold Effects.logger at 1, Effects.emit at 1.
  unfold Effects.bindM at 1. rewrite for_of_nested. fold pairs.
  destruct (sweep_run city pairs ([], []) (w ++ [Effects.Log Effects.Started]))
    as [w' [Hsweep Hcalls]].
  rewrite Hsweep. cbn [fst snd app].
  unfold Effects.bindM, Effects.logger, Effects.emit, Effects.ret.
  assert (Hc : Effects.calls (w ++ [Effects.Log Effects.Started]) = Effects.calls w)
    by (rewrite calls_app; apply app_nil_r).
  assert (Ht : Spec.ticks (w ++ [Effects.Log Effects.Started]) = Spec.ticks w)
    by (rewrite ticks_app; apply Nat.add_0_r).
  rewrite Hc, Ht in *.
  eexists _, _. split; [reflexivity |]. cbn [Scout.searchResults Scout.allLinks Scout.totalLinksFound].
  repeat split. rewrite calls_app, Hcalls. simpl. rewrite app_nil_r. reflexivity.
Qed.

End ScoutRun.

(* ---- deduplication by url ---- *)

Section ScoutDedupe.

Context {H : JS.Host}.

Lemma same_value_text (a b : JS.value) :
  Spec.is_text a = true -> Spec.is_text b = true ->
  (JS.same_value a b = true <-> Spec.value_key a = Spec.value_key b).
Proof.
  destruct a as [[| | | x | |] |], b as [[| | | y | |] |]; simpl;
    try discriminate; intros _ _; try (split; [discriminate | congruence]).
  - rewrite String.eqb_eq. split; congruence.
  - split; reflexivity.
Qed.

Lemma seen_has (u : JS.value) (seenUrls : list JS.value) :
  Spec.is_text u = true -> Forall (fun v => Spec.is_text v = true) seenUrls ->
  (existsb (JS.same_value u) seenUrls = true
   <-> In (Spec.value_key u) (map Spec.value_key seenUrls)).
Proof.
  intros Hu Hseen. rewrite existsb_exists, in_map_iff. rewrite Forall_forall in Hseen.
  split; intros [v [H1 H2]].
  - exists v. split; [| exact H1]. symmetry.
    apply (same_value_text u v Hu (Hseen v H1)). exact H2.
  - exists v. split; [exact H2 |].
    apply (same_value_text u v Hu (Hseen v H2)). symmetry. exact H1.
Qed.

Lemma first_with_cons (k : option string) (link : Effects.object) (rest : list Effects.object) :
  Spec.first_with k (link :: rest)
  = if Spec.key_eq_dec (Spec.url_key link) k then Some link else Spec.first_with k rest.
Proof.
  unfold Spec.first_with. simpl.
  destruct (Spec.key_eq_dec (Spec.url_key link) k); reflexivity.
Qed.

Lemma url_key_value (link : Effects.object) :
  Spec.value_key (Scout.url link) = Spec.url_key link.
Proof. reflexivity. Qed.

(** The loop keeps, of every url that was not seen before, the first link
    that has it. *)
Lemma dedupe_first_seen (links : list Effects.object) (seenUrls : list JS.value) :
  Forall (fun l => Spec.url_is_text l = true) links ->
  Forall (fun v => Spec.is_text v = true) seenUrls ->
  let kept := Scout.dedupe links seenUrls in
  NoDup (map Spec.url_key kept)
  /\ (forall x, In x kept ->
        ~ In (Spec.url_key x) (map Spec.value_key seenUrls)
        /\ Spec.first_with (Spec.url_key x) links = Some x)
  /\ (forall x, In x links ->
        In (Spec.url_key x) (map Spec.value_key seenUrls)
        \/ exists y, Spec.first_with (Spec.url_key x) links = Some y /\ In y kept).
Proof.
  revert seenUrls. induction links as [| link rest IH]; intros seenUrls Hlinks Hseen kept.
  - repeat split; [constructor | contradiction | contradiction | contradiction].
  - inversion Hlinks as [| ? ? Hlink Hrest]; subst.
    assert (Hu : Spec.is_text (Scout.url link) = true) by exact Hlink.
    pose proof (seen_has (Scout.url link) seenUrls Hu Hseen) as Hhas.
    rewrite url_key_value in Hhas.
    unfold kept. cbn [Scout.dedupe].
    destruct (existsb (JS.same_value (Scout.url link)) seenUrls) eqn:Hex.
    + assert (Hin : In (Spec.url_key link) (map Spec.value_key seenUrls))
        by (apply Hhas; reflexivity).
      destruct (IH seenUrls Hrest Hseen) as [Hnd [Hkept Hall]].
      split; [exact Hnd |]. split.
      * intros x Hx. destruct (Hkept x Hx) as [Hnot Hfirst]. split; [exact Hnot |].
        rewrite first_with_cons.
        destruct (Spec.key_eq_dec (Spec.url_key link) (Spec.url_key x)) as [Heq | _];
          [rewrite Heq in Hin; contradiction | exact Hfirst].
      * intros x [<- | Hx]; [left; exact Hin |].
        destruct (Hall x Hx) as [Hs | [y [Hy Hyk]]]; [left; exact Hs |].
        rewrite first_with_cons.
        destruct (Spec.key_eq_dec (Spec.url_key link) (Spec.url_key x)) as [Heq | _];
          [left; rewrite <- Heq; exact Hin | right; exists y; auto].
    + assert (Hnin : ~ In (Spec.url_key link) (map Spec.value_key seenUrls))
        by (intros Hin; apply Hhas in Hin; congruence).
      assert (Hseen' : Forall (fun v => Spec.is_text v = true) (seenUrls ++ [Scout.url link]))
        by (apply Forall_app; split; [exact Hseen | constructor; [exact Hu | constructor]]).
      destruct (IH (seenUrls ++ [Scout.url link]) Hrest Hseen') as [Hnd [Hkept Hall]].
      rewrite map_app in Hkept, Hall. cbn [map] in Hkept, Hall.
      rewrite url_key_value in Hkept, Hall.
      split; [| split].
      * cbn [map]. constructor; [| exact Hnd].
        intros Hin. apply in_map_iff in Hin. destruct Hin as [x [Hkx Hx]].
        destruct (Hkept x Hx) as [Hnot _]. apply Hnot. apply in_or_app. right.
        left. symmetry. exact Hkx.
      * intros x [<- | Hx].
        -- split; [exact Hnin |]. rewrite first_with_cons.
           destruct (Spec.key_eq_dec (Spec.url_key link) (Spec.url_key link));
             [reflexivity | contradiction].
        -- destruct (Hkept x Hx) as [Hnot Hfirst]. split.
           ++ intros Hin. apply Hnot. apply in_or_app. left. exact Hin.
           ++ rewrite first_with_cons.
              destruct (Spec.key_eq_dec (Spec.url_key link) (Spec.url_key x)) as [Heq | _];
                [| exact Hfirst].
              exfalso. apply Hnot. apply in_or_app. right. left. exact Heq.
      * intros x Hx. rewrite first_with_cons.
        destruct (Spec.key_eq_dec (Spec.url_key link) (Spec.url_key x)) as [Heq | Hne].
        -- right. exists link. split; [reflexivity | left; reflexivity].
        -- destruct Hx as [<- | Hx]; [contradiction |].
           destruct (Hall x Hx) as [Hs | [y [Hy Hyk]]].
           ++ apply in_app_or in Hs. destruct Hs as [Hs | [Hs | []]];
                [left; exact Hs | contradiction].
           ++ right. exists y. split; [exact Hy | right; exact Hyk].
Qed.

(** As many links are kept as there are distinct urls. *)
Lemma dedupe_count (links : list Effects.object) :
  Forall (fun l => Spec.url_is_text l = true) links ->
  List.length (Scout.dedupe links [])
  = List.length (nodup Spec.key_eq_dec (map Spec.url_key links)).
Proof.
  intros Hlinks.
  destruct (dedupe_first_seen links [] Hlinks (Forall_nil _)) as [Hnd [Hkept Hall]].
  rewrite <- (length_map Spec.url_key (Scout.dedupe links [])).
  apply Permutation_length. apply NoDup_Permutation; [exact Hnd | apply NoDup_nodup |].
  intros k. rewrite nodup_In, !in_map_iff. split; intros [x [Hk Hx]].
  - destruct (Hkept x Hx) as [_ Hfirst]. unfold Spec.first_with in Hfirst.
    apply find_some in Hfirst. exists x. split; [exact Hk | apply Hfirst].
  - destruct (Hall x Hx) as [[] | [y [Hy Hyk]]].
    exists y. split; [| exact Hyk]. unfold Spec.first_with in Hy.
    apply find_some in Hy. destruct Hy as [_ Hy].
    destruct (Spec.key_eq_dec (Spec.url_key y) (Spec.url_key x)); congruence.
Qed.

End ScoutDedupe.

Lemma own_set_other (fields : list (string * json)) (k k' : string) (v : json) :
  k <> k' -> own (JSON.set fields k v) k' = own fields k'.
Proof.
  intros Hne. induction fields as [| [k0 v0] r IH]; simpl.
  - destruct (String.eqb_spec k k'); [contradiction | reflexivity].
  - destruct (String.eqb_spec k0 k) as [-> | Hk0]; simpl.
    + destruct (String.eqb_spec k k'); [contradiction | reflexivity].
    + destruct (String.eqb k0 k'); [reflexivity | exact IH].
Qed.

Lemma url_annotate (link : json) (interest date searchedAt : string) :
  Scout.url (Scout.annotate link interest date searchedAt)
  = own (JS.own_properties link) "url".
Proof.
  unfold Scout.url, Scout.annotate, define_all. cbn [fold_left fst snd].
  rewrite !own_set_other by discriminate. reflexivity.
Qed.

Section ScoutSchema.

Context {H : JS.Host}.

Lemma lists_links_harmless (reply : Effects.Reply) :
  Spec.lists_links reply = true -> Spec.harmless reply = true.
Proof.
  unfold Spec.lists_links, Spec.harmless.
  destruct (Spec.search_analysis reply) as [[links queries] | e]; [| reflexivity].
  destruct (Spec.links_or_empty links); congruence.
Qed.

Lemma within_schema_harmless (reply : Effects.Reply) :
  Spec.within_schema reply = true -> Spec.harmless reply = true.
Proof.
  unfold Spec.within_schema, Spec.harmless.
  destruct (Spec.search_analysis reply) as [[links queries] | e]; [| reflexivity].
  destruct (Spec.links_or_empty links); congruence.
Qed.

Lemma stamp_text (clock : nat -> string) (interest date : string) (tick : nat)
    (found : list json) :
  forallb (fun link => match own (JS.own_properties link) "url" with
                       | None | Some (JString _) => true
                       | _ => false
                       end) found = true ->
  Forall (fun l => Spec.url_is_text l = true) (Spec.stamp clock interest date tick found).
Proof.
  revert tick. induction found as [| link rest IH]; intros tick Hf; cbn [Spec.stamp];
    [constructor |].
  cbn [forallb] in Hf. apply andb_true_iff in Hf. destruct Hf as [Hlink Hrest].
  constructor; [| apply IH; exact Hrest].
  unfold Spec.url_is_text. rewrite url_annotate. exact Hlink.
Qed.

Lemma search_result_text (reply : Effects.Reply) (interest city date : string) :
  Spec.within_schema reply = true ->
  forallb (fun link => match own (JS.own_properties link) "url" with
                       | None | Some (JString _) => true
                       | _ => false
                       end)
          (Spec.items (Scout.links (Spec.search_result reply interest city date))) = true.
Proof.
  unfold Spec.within_schema, Spec.search_result.
  destruct (Spec.search_analysis reply) as [[links queries] | e]; cbn [Scout.links];
    [| reflexivity].
  destruct (Spec.links_or_empty links); try discriminate. cbn [Spec.items]. auto.
Qed.

Lemma merged_text (env : Effects.Env) (city : string) (pairs : list (string * string))
    (n tick : nat) :
  (forall n request, Spec.within_schema (Effects.generateContent env n request) = true) ->
  Forall (fun l => Spec.url_is_text l = true)
         (Spec.merged (Effects.clock env) tick (Spec.sweep_results env city n pairs)).
Proof.
  intros Hschema. revert n tick.
  induction pairs as [| [interest date] rest IH]; intros n tick;
    cbn [Spec.sweep_results Spec.merged]; [constructor |].
  apply Forall_app. split; [| apply IH].
  apply stamp_text. apply search_result_text. apply Hschema.
Qed.

Lemma sweep_results_nth (env : Effects.Env) (city : string)
    (pairs : list (string * string)) (n k : nat) (interest date : string) :
  nth_error pairs k = Some (interest, date) ->
  nth_error (Spec.sweep_results env city n pairs) k
  = Some (Spec.search_result
            (Effects.generateContent env (n + k) (Effects.ScoutPrompt interest city date))
            interest city date).
Proof.
  revert n k. induction pairs as [| [i d] rest IH]; intros n k Hk.
  - destruct k; discriminate.
  - destruct k as [| k]; cbn [Spec.sweep_results nth_error] in *.
    + inversion Hk. subst. rewrite Nat.add_0_r. reflexivity.
    + rewrite (IH (S n) k Hk). rewrite Nat.add_succ_r. reflexivity.
Qed.

Lemma sweep_results_length (env : Effects.Env) (city : string)
    (pairs : list (string * string)) (n : nat) :
  List.length (Spec.sweep_results env city n pairs) = List.length pairs.
Proof.
  revert n. induction pairs as [| [i d] rest IH]; intros n; simpl; [reflexivity |].
  rewrite IH. reflexivity.
Qed.

Lemma search_fails_result (reply : Effects.Reply) (interest city date : string) :
  Spec.search_fails reply ->
  Scout.success (Spec.search_result reply interest city date) = false
  /\ Scout.links (Spec.search_result reply interest city date) = JArray [].
Proof.
  intros Hfail. unfold Spec.search_result, Spec.search_analysis.
  destruct reply as [e | responseText]; [split; reflexivity |].
  destruct Hfail as [e He]. rewrite He. split; reflexivity.
Qed.

End ScoutSchema.

(** In a zone without offset changes, a sweep that no reply breaks issues
    one request for every interest and every day from the start date to
    the end date, both included. *)
Lemma scoutEvents_requests_fixed {H : JS.Host} (laws : JS.HostLaws H)
    (env : Effects.Env) (city : string) (interests : list string)
    (startDate endDate : string) (a b : Z) (w : Effects.World) :
  Spec.fixed_offset JS.zone ->
  Spec.configured env ->
  (forall n request, Spec.harmless (Effects.generateContent env n request) = true) ->
  Dates.parse_iso_date startDate = Some a ->
  Dates.parse_iso_date endDate = Some b ->
  exists r w',
    Scout.scoutEvents env city interests startDate endDate w = (Normal r, w')
    /\ Effects.calls w'
       = Effects.calls w
         ++ map (Spec.prompt city)
              (list_prod interests (map Dates.iso_date_of_day (Spec.day_numbers a b)))
    /\ List.length (Effects.calls w')
       = List.length (Effects.calls w)
         + List.length interests * Z.to_nat (b - a + 1).
Proof.
  intros Hzone Hkey Hharmless Ha Hb.
  destruct (scoutEvents_run env Hkey Hharmless city interests startDate endDate w)
    as [r [w' [Hrun [_ [_ [_ Hcalls]]]]]].
  rewrite (getDateRange_fixed laws Hzone startDate endDate a b Ha Hb) in Hcalls.
  exists r, w'. split; [exact Hrun |]. split; [exact Hcalls |].
  rewrite Hcalls, length_app, length_map, length_prod, length_map.
  unfold Spec.day_numbers. rewrite length_map, length_seq. reflexivity.
Qed.

(** C7, as the source has it. With the client configured, a search whose
    upstream call or JSON extraction fails resolves, without throwing, to a
    result with success false and no links. And when the links of every
    reply that is read are an array, or missing or falsy, [scoutEvents]
    returns its aggregate after one request for every (interest, day)
    pair: a failed pair leaves a failed result at its place and the sweep
    goes on. *)
Theorem C7_failed_search_degrades {H : JS.Host} (env : Effects.Env)
    (city : string) (interests : list string) (startDate endDate : string)
    (w : Effects.World) :
  Spec.configured env ->
  (forall n request, Spec.lists_links (Effects.generateContent env n request) = true) ->
  let pairs := list_prod interests (Scout.getDateRange startDate endDate) in
  (forall interest date w0,
      Spec.search_fails
        (Effects.generateContent env (List.length (Effects.calls w0))
           (Effects.ScoutPrompt interest city date)) ->
      exists r w1,
        Scout.searchForInterest env interest city date w0 = (Normal r, w1)
        /\ Scout.success r = false /\ Scout.links r = JArray [])
  /\ exists r w',
      Scout.scoutEvents env city interests startDate endDate w = (Normal r, w')
      /\ Effects.calls w' = Effects.calls w ++ map (Spec.prompt city) pairs
      /\ List.length (Scout.searchResults r)
         = List.length interests * List.length (Scout.getDateRange startDate endDate)
      /\ forall k interest date,
          nth_error pairs k = Some (interest, date) ->
          exists x,
            nth_error (Scout.searchResults r) k = Some x
            /\ Scout.interest x = interest /\ Scout.date x = date
            /\ (Spec.search_fails
                  (Effects.generateContent env (List.length (Effects.calls w) + k)
                     (Effects.ScoutPrompt interest city date)) ->
                Scout.success x = false /\ Scout.links x = JArray []).
Proof.
  intros Hkey Hlists pairs.
  assert (Hharmless : forall n request,
             Spec.harmless (Effects.generateContent env n request) = true)
    by (intros n request; apply lists_links_harmless, Hlists).
  split.
  - intros interest date w0 Hfail.
    destruct (searchForInterest_run env Hkey interest city date w0) as [entry Hrun].
    eexists _, _. split; [exact Hrun |].
    apply search_fails_result. exact Hfail.
  - destruct (scoutEvents_run env Hkey Hharmless city interests startDate endDate w)
      as [r [w' [Hrun [Hresults [_ [_ Hcalls]]]]]].
    exists r, w'. split; [exact Hrun |]. split; [exact Hcalls |]. split.
    + rewrite Hresults, sweep_results_length. apply length_prod.
    + intros k interest date Hk. rewrite Hresults.
      rewrite (sweep_results_nth env city _ _ k interest date Hk).
      eexists. split; [reflexivity |].
      destruct (search_result_fields
                  (Effects.generateContent env (List.length (Effects.calls w) + k)
                     (Effects.ScoutPrompt interest city date)) interest city date)
        as [Hi Hd].
      split; [exact Hi |]. split; [exact Hd |].
      apply search_fails_result.
Qed.

Lemma C7_failed_search_degrades_witness :
  exists r w',
    Scout.scoutEvents (H := Node.utc) Spec.env_down "Boston" ["jazz"; "art"]
      "2026-01-03" "2026-01-04" [] = (Normal r, w')
    /\ List.length (Scout.searchResults r) = 4
    /\ forallb (fun x => negb (Scout.success x)) (Scout.searchResults r) = true.
Proof.
  destruct (C7_failed_search_degrades (H := Node.utc) Spec.env_down "Boston"
              ["jazz"; "art"] "2026-01-03" "2026-01-04" [])
    as [_ [r [w' [Hrun [_ [Hlength _]]]]]].
  - exists "key". split; [reflexivity | discriminate].
  - intros n request. reflexivity.
  - exists r, w'. split; [exact Hrun |]. split; [exact Hlength |].
    vm_compute in Hrun. inversion Hrun. reflexivity.
Defined.

(** C7 as stated fails: the first search is rejected and degrades, but the
    reply to the second lists a text where the links should be; the call
    of [forEach] on it, which no [try] encloses, throws. The sweep ends
    there: the third day is never searched and no aggregate is returned. *)
Lemma C7_text_links_end_the_sweep :
  Spec.configured Spec.env_late_text
  /\ Spec.search_fails
       (Effects.generateContent Spec.env_late_text 0
          (Effects.ScoutPrompt "jazz" "Boston" "2026-01-03"))
  /\ Scout.getDateRange (H := Node.utc) "2026-01-03" "2026-01-05"
     = ["2026-01-03"; "2026-01-04"; "2026-01-05"]
  /\ (exists m,
        fst (Scout.scoutEvents (H := Node.utc) Spec.env_late_text "Boston" ["jazz"]
               "2026-01-03" "2026-01-05" []) = Throw (TypeError m))
  /\ Effects.calls (snd (Scout.scoutEvents (H := Node.utc) Spec.env_late_text "Boston"
                           ["jazz"] "2026-01-03" "2026-01-05" []))
     = [Effects.ScoutPrompt "jazz" "Boston" "2026-01-03";
        Effects.ScoutPrompt "jazz" "Boston" "2026-01-04"].
Proof.
  split; [exists "key"; split; [reflexivity | discriminate] |].
  split; [exact I |].
  split; [vm_compute; reflexivity |].
  split; [eexists; vm_compute; reflexivity | vm_compute; reflexivity].
Qed.

(** C2, as the source has it. With the client configured and every reply
    within the Link schema (the links an array of values whose url is a
    text or missing), [scoutEvents] returns, and of the links found in sweep order it keeps
    exactly the first-seen one of every url, unchanged, so that no two
    kept links share a url, every url found is kept once, and
    [totalLinksFound] is the number of distinct urls. *)
Theorem C2_one_link_per_url {H : JS.Host} (env : Effects.Env)
    (city : string) (interests : list string) (startDate endDate : string)
    (w : Effects.World) :
  Spec.configured env ->
  (forall n request, Spec.within_schema (Effects.generateContent env n request) = true) ->
  exists r w',
    Scout.scoutEvents env city interests startDate endDate w = (Normal r, w')
    /\ let found := Spec.merged (Effects.clock env) (Spec.ticks w) (Scout.searchResults r) in
       NoDup (map Spec.url_key (Scout.allLinks r))
       /\ (forall link, In link (Scout.allLinks r) ->
             Spec.first_with (Spec.url_key link) found = Some link)
       /\ (forall link, In link found ->
             exists kept, Spec.first_with (Spec.url_key link) found = Some kept
                          /\ In kept (Scout.allLinks r))
       /\ Scout.totalLinksFound r
          = List.length (nodup Spec.key_eq_dec (map Spec.url_key found)).
Proof.
  intros Hkey Hschema.
  assert (Hharmless : forall n request,
             Spec.harmless (Effects.generateContent env n request) = true)
    by (intros n request; apply within_schema_harmless, Hschema).
  destruct (scoutEvents_run env Hkey Hharmless city interests startDate endDate w)
    as [r [w' [Hrun [Hresults [Hall [Htotal _]]]]]].
  exists r, w'. split; [exact Hrun |]. intros found.
  assert (Htext : Forall (fun l => Spec.url_is_text l = true) found)
    by (unfold found; rewrite Hresults; apply merged_text; exact Hschema).
  destruct (dedupe_first_seen found [] Htext (Forall_nil _)) as [Hnd [Hkept Hfound]].
  fold found in Hall. rewrite <- Hall in Hnd, Hkept, Hfound.
  split; [exact Hnd |]. split; [intros link Hl; apply Hkept; exact Hl |]. split.
  - intros link Hl. destruct (Hfound link Hl) as [[] | Hy]. exact Hy.
  - rewrite Htotal, Hall. apply dedupe_count. exact Htext.
Qed.

Lemma C2_one_link_per_url_witness :
  exists r w',
    Scout.scoutEvents (H := Node.utc) Spec.env_repeating "Boston" ["jazz"]
      "2026-01-03" "2026-01-04" [] = (Normal r, w')
    /\ Scout.totalLinksFound r = 3
    /\ map Spec.url_key (Scout.allLinks r)
       = [Some "https://a.example/e1"; Some "https://b.example/e2";
          Some "https://c.example/e3"]
    /\ map (fun l => own l "title") (Scout.allLinks r)
       = [Some (JString "First"); Some (JString "Other"); None].
Proof.
  destruct (C2_one_link_per_url (H := Node.utc) Spec.env_repeating "Boston" ["jazz"]
              "2026-01-03" "2026-01-04" [])
    as [r [w' [Hrun _]]].
  - exists "key". split; [reflexivity | discriminate].
  - intros [| n] request; vm_compute; reflexivity.
  - exists r, w'. split; [exact Hrun |].
    vm_compute in Hrun. inversion Hrun. repeat split.
Defined.

(** C2 as stated fails: when a reply lists a text where the links should
    be, [scoutEvents] throws at the call of [forEach] on it and returns no
    links at all. *)
Lemma C2_text_links_no_result :
  Spec.configured Spec.env_text_links
  /\ (exists m,
        fst (Scout.scoutEvents (H := Node.utc) Spec.env_text_links "Boston" ["jazz"]
               "2026-01-03" "2026-01-04" []) = Throw (TypeError m))
  /\ forall r w',
       Scout.scoutEvents (H := Node.utc) Spec.env_text_links "Boston" ["jazz"]
         "2026-01-03" "2026-01-04" [] <> (Normal r, w').
Proof.
  split; [exists "key"; split; [reflexivity | discriminate] |].
  split; [eexists; vm_compute; reflexivity |].
  intros r w' Hrun.
  assert (Hfst : fst (Scout.scoutEvents (H := Node.utc) Spec.env_text_links "Boston"
                        ["jazz"] "2026-01-03" "2026-01-04" []) = Normal r)
    by (rewrite Hrun; reflexivity).
  vm_compute in Hfst. discriminate Hfst.
Qed.

(** C6, at an input where the code departs from it. On a host in United
    States Eastern time the range from 2026-11-01 to 2026-11-02 is swept
    with one request, for 2026-11-01 only: [setDate] moves the date by one
    local day, which is 25 hours when daylight time ends, so the second
    date is past the end of the range. In spring a day is visited twice and
    the last one is not visited. On a host that runs on UTC the same
    input is swept with the two requests. *)
Theorem C6_local_day_step_drops_a_date :
  Effects.calls (snd (Scout.scoutEvents (H := Node.new_york) Spec.env_down
                        "New York" ["jazz"] "2026-11-01" "2026-11-02" []))
  = [Effects.ScoutPrompt "jazz" "New York" "2026-11-01"]
  /\ Scout.getDateRange (H := Node.new_york) "2026-11-01" "2026-11-02" = ["2026-11-01"]
  /\ Scout.getDateRange (H := Node.new_york) "2026-03-08" "2026-03-09"
     = ["2026-03-08"; "2026-03-08"]
  /\ Effects.calls (snd (Scout.scoutEvents (H := Node.utc) Spec.env_down
                           "New York" ["jazz"] "2026-11-01" "2026-11-02" []))
     = [Effects.ScoutPrompt "jazz" "New York" "2026-11-01";
        Effects.ScoutPrompt "jazz" "New York" "2026-11-02"].
Proof. repeat split; vm_compute; reflexivity. Qed.

(* ===================================================================== *)
(** ** Explorer *)
(* ===================================================================== *)

Section Batches.

Context {A : Type}.


Lemma slice_skipn (i : nat) (links : list A) :
  Explorer.slice i (i + Explorer.batchSize) links
  = firstn Explorer.batchSize (skipn i links).
Proof. unfold Explorer.slice. f_equal. lia. Qed.

(** The batches are consecutive pieces of the input. *)
Lemma batches_from_concat (fuel i : nat) (links : list A) :
  List.length links - i <= fuel ->
  concat (Explorer.batches_from fuel i links) = skipn i links.
Proof.
  revert i. induction fuel as [| fuel IH]; intros i Hfuel.
  - cbn. symmetry. apply skipn_all2. lia.
  - cbn [Explorer.batches_from].
    destruct (Nat.ltb_spec i (List.length links)) as [Hlt | Hge].
    + cbn [concat]. rewrite slice_skipn, IH by (unfold Explorer.batchSize; lia).
      rewrite <- (firstn_skipn Explorer.batchSize (skipn i links)) at 2.
      rewrite skipn_skipn. f_equal. f_equal. lia.
    + cbn. symmetry. apply skipn_all2. lia.
Qed.




Lemma make_batches_concat (links : list A) :
  concat (Explorer.make_batches links) = links.
Proof.
  unfold Explorer.make_batches. rewrite batches_from_concat by lia. reflexivity.
Qed.


End Batches.

Section ExplorerRun.

Context {H : JS.Host}.
Variable env : Effects.Env.
Hypothesis Hkey : Spec.configured env.

Lemma to_String_simple (v : JS.value) :
  Spec.simple v = true -> exists s, JS.to_String v = Normal s.
Proof.
  destruct v as [[| [] | | | |] |]; simpl; try discriminate; intros _; eexists; reflexivity.
Qed.

Lemma text_or_simple (v : JS.value) (fallback : string) :
  Spec.simple v = true -> exists s, Explorer.text_or v fallback = Normal s.
Proof.
  intros Hv. unfold Explorer.text_or.
  destruct (JS.truthy v); [apply to_String_simple; exact Hv | eexists; reflexivity].
Qed.

Lemma buildAnalysisPrompt_plain (links : list Effects.object) :
  Forall (fun l => Spec.plain_link l = true) links ->
  Explorer.buildAnalysisPrompt links = Normal tt.
Proof.
  unfold Explorer.buildAnalysisPrompt.
  induction links as [| link rest IH]; intros Hl; [reflexivity |].
  inversion Hl as [| ? ? Hlink Hrest]; subst. cbn [for_each].
  unfold Spec.plain_link in Hlink. cbn [forallb] in Hlink.
  repeat (apply andb_true_iff in Hlink; destruct Hlink as [? Hlink]).
  destruct (to_String_simple (own link "url")) as [s1 ->]; [assumption |].
  destruct (text_or_simple (own link "title") "Unknown") as [s2 ->]; [assumption |].
  destruct (text_or_simple (own link "snippet") "No snippet") as [s3 ->]; [assumption |].
  destruct (to_String_simple (own link "interest")) as [s4 ->]; [assumption |].
  destruct (to_String_simple (own link "date")) as [s5 ->]; [assumption |].
  destruct (text_or_simple (own link "platform") "Unknown") as [s6 ->]; [assumption |].
  cbn [bind]. apply IH. exact Hrest.
Qed.

(** [analyzeBatch] on plain links never throws: it issues one request and
    resolves to the result that the reply determines. *)
Lemma analyzeBatch_run (links : list Effects.object) (city : string) (w : Effects.World) :
  Forall (fun l => Spec.plain_link l = true) links ->
  let reply := Effects.generateContent env (List.length (Effects.calls w))
                 (Spec.batch_prompt city links) in
  exists w',
    Explorer.analyzeBatch env links city w = (Normal (Spec.batch_result reply links), w')
    /\ Effects.calls w' = Effects.calls w ++ [Spec.batch_prompt city links].
Proof.
  intros Hplain reply.
  unfold Explorer.analyzeBatch, Effects.bindM.
  rewrite (getGenAI_configured env Hkey). unfold Effects.lift at 1.
  rewrite buildAnalysisPrompt_plain by exact Hplain.
  unfold Effects.try_catch, Effects.generate, Effects.logger, Effects.emit, Effects.ret,
    Effects.lift.
  fold (Spec.batch_prompt city links). fold reply.
  unfold Spec.batch_result, Spec.batch_analysis.
  destruct reply as [e | responseText].
  - eexists. split; [reflexivity |]. rewrite !calls_app. simpl. rewrite app_nil_r. reflexivity.
  - destruct (Extract.extractJSON3 "Explorer" responseText) as [result | e]; cbn [bind];
      [| eexists; split; [reflexivity | rewrite !calls_app; simpl; rewrite app_nil_r; reflexivity]].
    destruct (JS.get result "valid_events") as [valid_events | e] eqn:Hv; cbn [bind];
      [| eexists; split; [reflexivity | rewrite !calls_app; simpl; rewrite app_nil_r; reflexivity]].
    destruct (JS.get result "rejected_links") as [rejected_links | e] eqn:Hr; cbn [bind];
      [| destruct result; discriminate].
    destruct (JS.get result "analyzed_links") as [analyzed_links | e] eqn:Ha; cbn [bind];
      [| destruct result; discriminate].
    eexists. split; [reflexivity |]. rewrite calls_app. reflexivity.
Qed.

End ExplorerRun.

Section ExplorerLoop.

Context {H : JS.Host}.
Variable env : Effects.Env.
Hypothesis Hkey : Spec.configured env.
Hypothesis Htidy :
  forall n request, Spec.tidy (Effects.generateContent env n request) = true.

(** One round of the loop over the batches under a tidy reply. *)
Lemma explore_step_run (city : string) (count i : nat) (batch : list Effects.object)
    (acc : Explorer.Acc) (w : Effects.World) :
  Forall (fun l => Spec.plain_link l = true) batch ->
  let reply := Effects.generateContent env (List.length (Effects.calls w))
                 (Spec.batch_prompt city batch) in
  exists tot w',
    Explorer.explore_step env city count acc (i, batch) w
    = (Normal {| Explorer.allEvents := Explorer.allEvents acc ++ Spec.batch_events reply;
                 Explorer.allRejected :=
                   Explorer.allRejected acc ++ Spec.batch_rejected reply batch;
                 Explorer.total := tot |},
       w')
    /\ Effects.calls w' = Effects.calls w ++ [Spec.batch_prompt city batch].
Proof.
  intros Hplain reply.
  unfold Explorer.explore_step. unfold Effects.bindM at 1.
  unfold Effects.logger at 1, Effects.emit at 1.
  set (w0 := w ++ [Effects.Log (Effects.Batch (i + 1) (List.length batch))]).
  assert (Hc0 : Effects.calls w0 = Effects.calls w)
    by (unfold w0; rewrite calls_app; apply app_nil_r).
  destruct (analyzeBatch_run env Hkey batch city w0 Hplain) as [w1 [Hrun Hcalls1]].
  rewrite Hc0 in Hrun, Hcalls1. fold reply in Hrun.
  unfold Effects.bindM at 1. rewrite Hrun.
  pose proof (Htidy (List.length (Effects.calls w)) (Spec.batch_prompt city batch)) as Ht.
  fold reply in Ht. unfold Spec.tidy in Ht.
  assert (Hsleep : forall (a : Explorer.Acc) (w2 : Effects.World),
             Effects.calls w2 = Effects.calls w ++ [Spec.batch_prompt city batch] ->
             exists w',
               Effects.bindM (if i <? count - 1 then Effects.sleep 1000 else Effects.ret tt)
                 (fun _ => Effects.ret a) w2 = (Normal a, w')
               /\ Effects.calls w' = Effects.calls w ++ [Spec.batch_prompt city batch]).
  { intros a w2 Hw2. unfold Effects.bindM, Effects.sleep, Effects.emit, Effects.ret.
    destruct (i <? count - 1).
    - eexists. split; [reflexivity |]. rewrite calls_app, Hw2. apply app_nil_r.
    - eexists. split; [reflexivity | exact Hw2]. }
  unfold Spec.batch_result, Spec.batch_events, Spec.batch_rejected.
  destruct (Spec.batch_analysis reply) as [[[valid_events rejected_links] analyzed_links] | e].
  - cbn [Explorer.Batch.success Explorer.Batch.events Explorer.Batch.rejected
         Explorer.Batch.analyzed].
    destruct (JS.spread valid_events) as [found |] eqn:Hfound; [| discriminate].
    destruct (JS.spread rejected_links) as [listed |] eqn:Hlisted; [| discriminate].
    apply andb_true_iff in Ht. destruct Ht as [_ Hanalyzed].
    unfold Effects.bindM at 1. unfold Effects.bindM at 1. unfold Effects.lift at 1.
    unfold Effects.bindM at 1. unfold Effects.lift at 1.
    unfold Explorer.push_rejected. rewrite Hlisted. cbn [bind].
    unfold Effects.bindM at 1. unfold Effects.lift at 1.
    assert (Hadd : exists tot,
               Explorer.add_analyzed (Explorer.total acc)
                 (Some match analyzed_links with
                       | Some v => if JS.truthy analyzed_links then Explorer.Reported v
                                   else Explorer.Counted (List.length batch)
                       | None => Explorer.Counted (List.length batch)
                       end) = Normal tot).
    { unfold Explorer.add_analyzed.
      destruct analyzed_links as [v |]; [| eexists; reflexivity].
      destruct (JS.truthy (Some v)); [| eexists; reflexivity].
      destruct v; try discriminate; eexists; reflexivity. }
    destruct Hadd as [tot Hadd]. rewrite Hadd.
    unfold Effects.bindM at 1. unfold Effects.logger at 1, Effects.emit at 1.
    unfold Effects.ret at 1.
    edestruct (Hsleep {| Explorer.allEvents := Explorer.allEvents acc ++ found;
                         Explorer.allRejected :=
                           Explorer.allRejected acc ++ map Explorer.Listed listed;
                         Explorer.total := tot |}
                      (w1 ++ [Effects.Log (Effects.BatchFound (i + 1))]))
      as [w' [Hw' Hcalls']].
    { rewrite calls_app, Hcalls1. apply app_nil_r. }
    exists tot, w'. split; [exact Hw' | exact Hcalls'].
  - cbn [Explorer.Batch.success Explorer.Batch.rejected Explorer.Batch.error].
    unfold Effects.bindM at 1. unfold Effects.bindM at 1. unfold Effects.lift at 1.
    cbn [Explorer.push_rejected].
    unfold Effects.bindM at 1. unfold Effects.logger at 1, Effects.emit at 1.
    unfold Effects.ret at 1.
    edestruct (Hsleep {| Explorer.allEvents := Explorer.allEvents acc;
                         Explorer.allRejected :=
                           Explorer.allRejected acc
                           ++ map (fun l => Explorer.Failed (own l "url") (message e)) batch;
                         Explorer.total := Explorer.total acc |}
                      (w1 ++ [Effects.Log (Effects.BatchFailed (i + 1) (message e))]))
      as [w' [Hw' Hcalls']].
    { rewrite calls_app, Hcalls1. apply app_nil_r. }
    exists (Explorer.total acc), w'. rewrite app_nil_r. split; [exact Hw' | exact Hcalls'].
Qed.

(** The loop over the batches: every batch adds its own events and
    rejections, after one request each. *)
Lemma explore_loop_run (city : string) (count start : nat)
    (batches : list (list Effects.object)) (acc : Explorer.Acc) (w : Effects.World) :
  Forall (Forall (fun l => Spec.plain_link l = true)) batches ->
  exists tot w',
    Effects.for_of (Explorer.explore_step env city count)
      (combine (seq start (List.length batches)) batches) acc w
    = (Normal {| Explorer.allEvents :=
                   Explorer.allEvents acc
                   ++ Spec.events_from env city (List.length (Effects.calls w)) batches;
                 Explorer.allRejected :=
                   Explorer.allRejected acc
                   ++ Spec.rejected_from env city (List.length (Effects.calls w)) batches;
                 Explorer.total := tot |},
       w')
    /\ Effects.calls w' = Effects.calls w ++ map (Spec.batch_prompt city) batches.
Proof.
  revert start acc w. induction batches as [| batch rest IH]; intros start acc w Hplain.
  - exists (Explorer.total acc), w. cbn. unfold Effects.ret. rewrite !app_nil_r.
    destruct acc. split; reflexivity.
  - inversion Hplain as [| ? ? Hbatch Hrest]; subst.
    cbn [List.length seq combine Effects.for_of]. unfold Effects.bindM.
    destruct (explore_step_run city count start batch acc w Hbatch) as [tot1 [w1 [Hstep Hcalls1]]].
    rewrite Hstep.
    match type of Hstep with
    | _ = (Normal ?a, _) =>
        destruct (IH (S start) a w1 Hrest) as [tot [w' [Hloop Hcalls']]]
    end.
    exists tot, w'. rewrite Hloop. cbn [Explorer.allEvents Explorer.allRejected].
    rewrite Hcalls1, length_app, Nat.add_1_r in *.
    cbn [Spec.events_from Spec.rejected_from map]. rewrite <- !app_assoc.
    split; [reflexivity |]. rewrite Hcalls', <- app_assoc. reflexivity.
Qed.

End ExplorerLoop.

Lemma Forall_of_concat {A} (P : A -> Prop) (ls : list (list A)) :
  Forall P (concat ls) -> Forall (Forall P) ls.
Proof.
  induction ls as [| l ls IH]; intros Hc; [constructor |].
  cbn [concat] in Hc. apply Forall_app in Hc. destruct Hc as [Hl Hls].
  constructor; [exact Hl | apply IH; exact Hls].
Qed.

Section ExplorerEnd.

Context {H : JS.Host}.

Lemma key_tidy (e : json) :
  Spec.tidy_event e = true -> exists k, Explorer.key e = Normal k.
Proof.
  unfold Spec.tidy_event, Explorer.key. intros He.
  destruct (JS.get e "name") as [name |]; [| discriminate].
  destruct (JS.get e "start_time") as [start_time |]; [| discriminate].
  apply andb_true_iff in He. destruct He as [Hn Hs]. cbn [bind].
  destruct (to_String_simple name Hn) as [n ->]. cbn [bind].
  destruct (to_String_simple start_time Hs) as [s ->].
  eexists. reflexivity.
Qed.

(** Whatever the loop with the set [seen] keeps was there before. *)
Lemma dedupe_incl (events : list json) (seen : list string) (kept : list json) :
  Explorer.dedupe events seen = Normal kept -> incl kept events.
Proof.
  revert seen kept. induction events as [| e rest IH]; intros seen kept Hd;
    cbn [Explorer.dedupe] in Hd.
  - inversion Hd. apply incl_refl.
  - apply bind_normal in Hd. destruct Hd as [k [_ Hd]].
    destruct (existsb (String.eqb k) seen).
    + apply incl_tl. exact (IH _ _ Hd).
    + apply bind_normal in Hd. destruct Hd as [kept' [Hkept' Hd]].
      inversion Hd. subst kept. apply incl_cons; [left; reflexivity |].
      apply incl_tl. exact (IH _ _ Hkept').
Qed.

Lemma dedupe_tidy (events : list json) (seen : list string) :
  Forall (fun e => Spec.tidy_event e = true) events ->
  exists kept, Explorer.dedupe events seen = Normal kept.
Proof.
  revert seen. induction events as [| e rest IH]; intros seen He; cbn [Explorer.dedupe].
  - eexists. reflexivity.
  - inversion He as [| ? ? Htidy Hrest]; subst.
    destruct (key_tidy e Htidy) as [k ->]. cbn [bind].
    destruct (existsb (String.eqb k) seen); [apply IH; exact Hrest |].
    destruct (IH (seen ++ [k]) Hrest) as [kept ->]. eexists. reflexivity.
Qed.

Lemma getTime_simple (v : JS.value) :
  Spec.simple v = true -> exists t, JS.getTime v = Normal t.
Proof.
  destruct v as [[| [] | | | |] |]; simpl; try discriminate; intros _; eexists; reflexivity.
Qed.

Lemma start_ms_tidy (e : json) :
  Spec.tidy_event e = true -> exists t, Explorer.start_ms e = Normal t.
Proof.
  unfold Spec.tidy_event, Explorer.start_ms. intros He.
  destruct (JS.get e "name") as [name |]; [| discriminate].
  destruct (JS.get e "start_time") as [start_time |]; [| discriminate].
  apply andb_true_iff in He. destruct He as [_ Hs]. cbn [bind].
  apply getTime_simple. exact Hs.
Qed.

Lemma by_start_time_tidy (a b : json) :
  Spec.tidy_event a = true -> Spec.tidy_event b = true ->
  exists r, Explorer.by_start_time a b = Normal r.
Proof.
  intros Ha Hb. unfold Explorer.by_start_time.
  destruct (start_ms_tidy a Ha) as [ta ->]. destruct (start_ms_tidy b Hb) as [tb ->].
  eexists. reflexivity.
Qed.

Lemma sort_tidy (laws : JS.HostLaws H) (events : list json) :
  Forall (fun e => Spec.tidy_event e = true) events ->
  exists sorted,
    JS.array_sort Explorer.by_start_time events = Normal sorted
    /\ Permutation events sorted.
Proof.
  intros He. destruct (JS.array_sort Explorer.by_start_time events) as [sorted | e] eqn:Hs.
  - exists sorted. split; [reflexivity |]. exact (JS.sort_permutes H laws _ _ _ _ Hs).
  - exfalso. destruct (JS.sort_throws H laws _ _ _ _ Hs) as [a [b [Ha [Hb Hab]]]].
    rewrite Forall_forall in He.
    destruct (by_start_time_tidy a b (He a Ha) (He b Hb)) as [r Hr]. congruence.
Qed.

Variable env : Effects.Env.
Hypothesis Hkey : Spec.configured env.
Hypothesis Htidy :
  forall n request, Spec.tidy (Effects.generateContent env n request) = true.

Lemma batch_events_tidy (reply : Effects.Reply) :
  Spec.tidy reply = true ->
  Forall (fun e => Spec.tidy_event e = true) (Spec.batch_events reply).
Proof.
  unfold Spec.tidy, Spec.batch_events.
  destruct (Spec.batch_analysis reply) as [[[valid_events rejected_links] analyzed_links] | e];
    [| constructor].
  destruct (JS.spread valid_events) as [found |]; [| discriminate].
  destruct (JS.spread rejected_links); [| discriminate].
  intros Ht. apply andb_true_iff in Ht. destruct Ht as [Ht _].
  apply Forall_forall. rewrite forallb_forall in Ht. exact Ht.
Qed.

Lemma events_from_tidy (city : string) (n : nat) (batches : list (list Effects.object)) :
  Forall (fun e => Spec.tidy_event e = true) (Spec.events_from env city n batches).
Proof.
  revert n. induction batches as [| batch rest IH]; intros n; cbn [Spec.events_from];
    [constructor |].
  apply Forall_app. split; [apply batch_events_tidy, Htidy | apply IH].
Qed.

(** [exploreLinks] on plain links under tidy replies: it returns, after
    one request for every batch; what it rejects and what it finds is what
    the batches contribute one by one. *)
Lemma exploreLinks_run (laws : JS.HostLaws H) (links : list Effects.object)
    (city : string) (w : Effects.World) :
  Forall (fun l => Spec.plain_link l = true) links ->
  let batches := Explorer.make_batches links in
  let n := List.length (Effects.calls w) in
  exists r w',
    Explorer.exploreLinks env links city w = (Normal r, w')
    /\ Effects.calls w' = Effects.calls w ++ map (Spec.batch_prompt city) batches
    /\ Explorer.rejected r = Spec.rejected_from env city n batches
    /\ Explorer.totalEvents r = List.length (Explorer.events r)
    /\ exists unique,
        Explorer.dedupe (Spec.events_from env city n batches) [] = Normal unique
        /\ JS.array_sort Explorer.by_start_time unique = Normal (Explorer.events r)
        /\ Permutation unique (Explorer.events r).
Proof.
  intros Hplain batches n.
  unfold Explorer.exploreLinks. unfold Effects.bindM at 1.
  unfold Effects.logger at 1, Effects.emit at 1.
  set (w0 := w ++ [Effects.Log Effects.Started]).
  assert (Hc0 : Effects.calls w0 = Effects.calls w)
    by (unfold w0; rewrite calls_app; apply app_nil_r).
  destruct links as [| link rest].
  - unfold Effects.bindM, Effects.logger, Effects.emit, Effects.ret.
    eexists _, _. split; [reflexivity |]. cbn.
    split; [rewrite calls_app, Hc0; rewrite !app_nil_r; reflexivity |].
    repeat split. exists []. split; [reflexivity |].
    split; [apply (JS.sort_short H laws); simpl; lia | constructor].
  - set (links := link :: rest) in *. fold batches.
    assert (Hbatches : Forall (Forall (fun l => Spec.plain_link l = true)) batches)
      by (apply Forall_of_concat; unfold batches; rewrite make_batches_concat; exact Hplain).
    destruct (explore_loop_run env Hkey Htidy city (List.length batches) 0 batches
                {| Explorer.allEvents := []; Explorer.allRejected := [];
                   Explorer.total := [] |} w0 Hbatches)
      as [tot [w1 [Hloop Hcalls1]]].
    rewrite Hc0 in Hloop, Hcalls1. fold n in Hloop.
    cbn [Explorer.allEvents Explorer.allRejected app] in Hloop.
    unfold Effects.bindM at 1. rewrite Hloop.
    cbn [Explorer.allEvents Explorer.allRejected Explorer.total].
    destruct (dedupe_tidy (Spec.events_from env city n batches) []
                (events_from_tidy city n batches)) as [unique Hunique].
    assert (Hutidy : Forall (fun e => Spec.tidy_event e = true) unique).
    { apply Forall_forall. intros e He.
      pose proof (events_from_tidy city n batches) as Hall.
      rewrite Forall_forall in Hall. apply Hall.
      exact (dedupe_incl _ _ _ Hunique e He). }
    destruct (sort_tidy laws unique Hutidy) as [sorted [Hsorted Hperm]].
    unfold Effects.bindM, Effects.lift, Effects.logger, Effects.emit, Effects.ret.
    rewrite Hunique, Hsorted.
    eexists _, _. split; [reflexivity |].
    cbn [Explorer.events Explorer.rejected Explorer.totalEvents].
    split; [rewrite calls_app, Hcalls1; apply app_nil_r |].
    repeat split. exists unique. split; [reflexivity |].
    split; [exact Hsorted | exact Hperm].
Qed.

End ExplorerEnd.

Section ExplorerOrder.

Context {H : JS.Host}.

Lemma first_event_with_cons (k : option string) (e : json) (rest : list json) :
  Spec.first_event_with k (e :: rest)
  = if Spec.key_eq_dec (Spec.event_key e) k then Some e
    else Spec.first_event_with k rest.
Proof.
  unfold Spec.first_event_with. simpl.
  destruct (Spec.key_eq_dec (Spec.event_key e) k); reflexivity.
Qed.

Lemma seen_has_key (k : string) (seen : list string) :
  existsb (String.eqb k) seen = true <-> In (Some k) (map Some seen).
Proof.
  rewrite existsb_exists, in_map_iff. split; intros [x [H1 H2]].
  - apply String.eqb_eq in H2. subst. exists x. split; [reflexivity | exact H1].
  - inversion H1. subst. exists k. split; [exact H2 | apply String.eqb_refl].
Qed.

(** The loop keeps, of every key text that was not seen before, the first
    event that has it. *)
Lemma dedupe_first_per_key (events : list json) (seen : list string) (kept : list json) :
  Explorer.dedupe events seen = Normal kept ->
  NoDup (map Spec.event_key kept)
  /\ (forall x, In x kept ->
        ~ In (Spec.event_key x) (map Some seen)
        /\ Spec.first_event_with (Spec.event_key x) events = Some x)
  /\ (forall x, In x events ->
        In (Spec.event_key x) (map Some seen)
        \/ exists y, Spec.first_event_with (Spec.event_key x) events = Some y
                     /\ In y kept).
Proof.
  revert seen kept. induction events as [| e rest IH]; intros seen kept Hd;
    cbn [Explorer.dedupe] in Hd.
  - inversion Hd. subst. repeat split; [constructor | contradiction | contradiction | contradiction].
  - apply bind_normal in Hd. destruct Hd as [k [Hk Hd]].
    assert (Hek : Spec.event_key e = Some k) by (unfold Spec.event_key; rewrite Hk; reflexivity).
    pose proof (seen_has_key k seen) as Hhas.
    destruct (existsb (String.eqb k) seen) eqn:Hex.
    + assert (Hin : In (Some k) (map Some seen)) by (apply Hhas; reflexivity).
      destruct (IH seen kept Hd) as [Hnd [Hkept Hall]].
      split; [exact Hnd |]. split.
      * intros x Hx. destruct (Hkept x Hx) as [Hnot Hfirst]. split; [exact Hnot |].
        rewrite first_event_with_cons, Hek.
        destruct (Spec.key_eq_dec (Some k) (Spec.event_key x)) as [Heq | _];
          [rewrite Heq in Hin; contradiction | exact Hfirst].
      * intros x [<- | Hx]; [left; rewrite Hek; exact Hin |].
        destruct (Hall x Hx) as [Hs | [y [Hy Hyk]]]; [left; exact Hs |].
        rewrite first_event_with_cons, Hek.
        destruct (Spec.key_eq_dec (Some k) (Spec.event_key x)) as [Heq | _];
          [left; rewrite <- Heq; exact Hin | right; exists y; auto].
    + assert (Hnin : ~ In (Some k) (map Some seen))
        by (intros Hin; apply Hhas in Hin; congruence).
      apply bind_normal in Hd. destruct Hd as [kept' [Hkept' Hd]].
      inversion Hd. subst kept. clear Hd.
      destruct (IH (seen ++ [k]) kept' Hkept') as [Hnd [Hkept Hall]].
      rewrite map_app in Hkept, Hall. cbn [map] in Hkept, Hall.
      split; [| split].
      * cbn [map]. constructor; [| exact Hnd].
        intros Hin. apply in_map_iff in Hin. destruct Hin as [x [Hkx Hx]].
        destruct (Hkept x Hx) as [Hnot _]. apply Hnot. apply in_or_app. right.
        left. rewrite Hkx. symmetry. exact Hek.
      * intros x [<- | Hx].
        -- split; [rewrite Hek; exact Hnin |]. rewrite first_event_with_cons.
           destruct (Spec.key_eq_dec (Spec.event_key e) (Spec.event_key e));
             [reflexivity | contradiction].
        -- destruct (Hkept x Hx) as [Hnot Hfirst]. split.
           ++ intros Hin. apply Hnot. apply in_or_app. left. exact Hin.
           ++ rewrite first_event_with_cons.
              destruct (Spec.key_eq_dec (Spec.event_key e) (Spec.event_key x)) as [Heq | _];
                [| exact Hfirst].
              exfalso. apply Hnot. apply in_or_app. right. left.
              rewrite <- Heq. symmetry. exact Hek.
      * intros x Hx. rewrite first_event_with_cons.
        destruct (Spec.key_eq_dec (Spec.event_key e) (Spec.event_key x)) as [Heq | Hne].
        -- right. exists e. split; [reflexivity | left; reflexivity].
        -- destruct Hx as [<- | Hx]; [contradiction |].
           destruct (Hall x Hx) as [Hs | [y [Hy Hyk]]].
           ++ apply in_app_or in Hs. destruct Hs as [Hs | [Hs | []]];
                [left; exact Hs | rewrite <- Hek in Hs; contradiction].
           ++ right. exists y. split; [exact Hy | right; exact Hyk].
Qed.

Lemma by_start_time_dated (a b : json) :
  Spec.dated a = true -> Spec.dated b = true ->
  Explorer.by_start_time a b = Normal (Some (Spec.event_time a - Spec.event_time b)%Z).
Proof.
  unfold Spec.dated, Spec.event_time, Explorer.by_start_time.
  destruct (Explorer.start_ms a) as [[ta |] | ea]; try discriminate.
  destruct (Explorer.start_ms b) as [[tb |] | eb]; try discriminate.
  reflexivity.
Qed.

Lemma chars_length (s : string) : List.length (Text.chars s) = String.length s.
Proof. induction s as [| c s IH]; [reflexivity |]. unfold Text.chars in *. simpl. rewrite IH. reflexivity. Qed.

Lemma app_same_length {A} (l1 l2 r1 r2 : list A) :
  List.length l1 = List.length l2 -> l1 ++ r1 = l2 ++ r2 -> l1 = l2 /\ r1 = r2.
Proof.
  revert l2. induction l1 as [| x l1 IH]; intros [| y l2] Hlen Heq; try discriminate.
  - split; [reflexivity | exact Heq].
  - inversion Heq. subst. destruct (IH l2) as [-> ->]; [simpl in Hlen; lia | assumption |].
    split; reflexivity.
Qed.

(** Start times of one length keep the key text apart: two events with
    the same key text then have the same name and the same start time. *)
Lemma key_text_injective (n1 s1 n2 s2 : string) :
  String.length s1 = String.length s2 ->
  (n1 ++ "-" ++ s1 = n2 ++ "-" ++ s2)%string -> n1 = n2 /\ s1 = s2.
Proof.
  intros Hlen Heq.
  assert (Hl : Text.chars n1 ++ "-"%char :: Text.chars s1
               = Text.chars n2 ++ "-"%char :: Text.chars s2).
  { apply (f_equal Text.chars) in Heq. rewrite !chars_append in Heq. exact Heq. }
  assert (Hlen' : List.length (Text.chars s1) = List.length (Text.chars s2)).
  { rewrite !chars_length. exact Hlen. }
  assert (Hrev : rev (Text.chars s1) ++ "-"%char :: rev (Text.chars n1)
                 = rev (Text.chars s2) ++ "-"%char :: rev (Text.chars n2)).
  { apply (f_equal (@rev ascii)) in Hl. rewrite !rev_app_distr in Hl. cbn [rev] in Hl.
    rewrite <- !app_assoc in Hl. exact Hl. }
  assert (Hsplit : rev (Text.chars s1) = rev (Text.chars s2)
                   /\ "-"%char :: rev (Text.chars n1) = "-"%char :: rev (Text.chars n2)).
  { apply app_same_length; [| exact Hrev]. rewrite !length_rev. exact Hlen'. }
  destruct Hsplit as [Hs Hn]. inversion Hn as [Hn'].
  apply (f_equal (@rev ascii)) in Hs, Hn'. rewrite !rev_involutive in Hs, Hn'.
  split.
  - rewrite <- (text_chars n1), <- (text_chars n2), Hn'. reflexivity.
  - rewrite <- (text_chars s1), <- (text_chars s2), Hs. reflexivity.
Qed.

End ExplorerOrder.

Lemma event_key_pair {H : JS.Host} (e : json) (n s : string) :
  Spec.name_and_start e = Some (n, s) ->
  Spec.event_key e = Some (n ++ "-" ++ s)%string.
Proof.
  unfold Spec.name_and_start, Spec.event_key, Explorer.key.
  destruct (JS.get e "name") as [[[| | | | |] |] |]; try discriminate.
  destruct (JS.get e "start_time") as [[[| | | | |] |] |]; try discriminate.
  intros Hp. inversion Hp. subst. reflexivity.
Qed.

(** Events whose names are texts and whose start times are texts of one
    length, as ISO date-times without zone are, have the same key text
    only if they agree on name and start time. *)
Lemma event_key_separates {H : JS.Host} (a b : json) (na sa nb sb : string) :
  Spec.name_and_start a = Some (na, sa) ->
  Spec.name_and_start b = Some (nb, sb) ->
  String.length sa = String.length sb ->
  Spec.event_key a = Spec.event_key b ->
  na = nb /\ sa = sb.
Proof.
  intros Ha Hb Hlen Hk.
  rewrite (event_key_pair a na sa Ha), (event_key_pair b nb sb Hb) in Hk.
  inversion Hk as [Hk']. exact (key_text_injective na sa nb sb Hlen Hk').
Qed.

(** What [exploreLinks] returns on plain links under tidy replies: of the
    events the batches contribute it keeps, for every key text, the first
    event that has it, and no other; when every start time denotes a valid
    date, the events are in ascending order of their time values, events
    of equal time in the order found. *)
Lemma exploreLinks_unique_sorted {H : JS.Host} (laws : JS.HostLaws H)
    (env : Effects.Env) (links : list Effects.object) (city : string)
    (w : Effects.World) :
  Spec.configured env ->
  Forall (fun l => Spec.plain_link l = true) links ->
  (forall n request, Spec.tidy (Effects.generateContent env n request) = true) ->
  let found :=
    Spec.events_from env city (List.length (Effects.calls w))
      (Explorer.make_batches links) in
  exists r w',
    Explorer.exploreLinks env links city w = (Normal r, w')
    /\ NoDup (map Spec.event_key (Explorer.events r))
    /\ (forall e, In e (Explorer.events r) ->
          Spec.first_event_with (Spec.event_key e) found = Some e)
    /\ (forall e, In e found ->
          exists kept, Spec.first_event_with (Spec.event_key e) found = Some kept
                       /\ In kept (Explorer.events r))
    /\ (Forall (fun e => Spec.dated e = true) found ->
        Sorted (fun a b => (Spec.event_time a <= Spec.event_time b)%Z) (Explorer.events r)
        /\ exists unique,
            Explorer.dedupe found [] = Normal unique
            /\ Explorer.events r = JS.stable_sort Spec.event_time unique).
Proof.
  intros Hkey Hplain Htidy found.
  destruct (exploreLinks_run env Hkey Htidy laws links city w Hplain)
    as [r [w' [Hrun [_ [_ [_ [unique [Hunique [Hsort Hperm]]]]]]]]].
  fold found in Hunique.
  destruct (dedupe_first_per_key found [] unique Hunique) as [Hnd [Hkept Hall]].
  exists r, w'. split; [exact Hrun |]. split; [| split; [| split]].
  - apply (Permutation_NoDup (l := map Spec.event_key unique)); [| exact Hnd].
    apply Permutation_map. exact Hperm.
  - intros e He. apply Hkept. apply Permutation_in with (Explorer.events r);
      [apply Permutation_sym; exact Hperm | exact He].
  - intros e He. destruct (Hall e He) as [[] | [y [Hy Hyk]]].
    exists y. split; [exact Hy |]. apply Permutation_in with unique; assumption.
  - intros Hdated.
    assert (Heq : Explorer.events r = JS.stable_sort Spec.event_time unique).
    { assert (Hs : JS.array_sort Explorer.by_start_time unique
                   = Normal (JS.stable_sort Spec.event_time unique)).
      { apply (JS.sort_by_key H laws). intros a b Ha Hb.
        rewrite Forall_forall in Hdated.
        apply by_start_time_dated; apply Hdated.
        - exact (dedupe_incl _ _ _ Hunique a Ha).
        - exact (dedupe_incl _ _ _ Hunique b Hb). }
      rewrite Hs in Hsort. inversion Hsort. reflexivity. }
    split; [rewrite Heq; apply stable_sort_sorted |].
    exists unique. split; [exact Hunique | exact Heq].
Qed.





(** C1, at an input where the code departs from it. The model lists two
    events with different names and different start times; both give the
    key text Jazz Night-Friday-2026-01-09T20:00:00, so the second counts as
    seen and only the first is returned: the pair of the second event has
    no event in the result. *)
Theorem C1_key_text_merges_distinct_pairs :
  exists r w',
    Explorer.exploreLinks (H := Node.utc) Spec.env_colliding Spec.one_link "Boston" []
    = (Normal r, w')
    /\ Explorer.events r = [Spec.friday_a]
    /\ ~ In Spec.friday_b (Explorer.events r)
    /\ JS.get Spec.friday_a "name" <> JS.get Spec.friday_b "name"
    /\ JS.get Spec.friday_a "start_time" <> JS.get Spec.friday_b "start_time"
    /\ Explorer.key (H := Node.utc) Spec.friday_a
       = Explorer.key (H := Node.utc) Spec.friday_b.
Proof.
  eexists _, _. split; [vm_compute; reflexivity |]. cbn [Explorer.events].
  split; [reflexivity |]. split; [| split; [| split]].
  - intros [Hin | []]. discriminate Hin.
  - discriminate.
  - discriminate.
  - reflexivity.
Qed.

Section ExplorerProvenance.

Context {H : JS.Host}.
Variable env : Effects.Env.

(** Whenever [analyzeBatch] resolves, it has resolved to the result that
    the reply determines. *)
Lemma analyzeBatch_inv (links : list Effects.object) (city : string)
    (w w' : Effects.World) (result : Explorer.Batch.result) :
  Explorer.analyzeBatch env links city w = (Normal result, w') ->
  result = Spec.batch_result
             (Effects.generateContent env (List.length (Effects.calls w))
                (Spec.batch_prompt city links)) links.
Proof.
  unfold Explorer.analyzeBatch, Effects.bindM.
  destruct (Effects.getGenAI env "Explorer" w) as [[[] | e] w1] eqn:Hgen; [| discriminate].
  assert (Hw1 : w1 = w).
  { unfold Effects.getGenAI in Hgen. destruct (Effects.googleApiKey env) as [key |].
    - destruct (String.eqb key ""); inversion Hgen; reflexivity.
    - inversion Hgen. }
  subst w1. unfold Effects.lift at 1.
  destruct (Explorer.buildAnalysisPrompt links) as [[] | e]; [| discriminate].
  unfold Effects.try_catch, Effects.generate, Effects.logger, Effects.emit, Effects.ret,
    Effects.lift.
  fold (Spec.batch_prompt city links).
  unfold Spec.batch_result, Spec.batch_analysis.
  destruct (Effects.generateContent env (List.length (Effects.calls w))
              (Spec.batch_prompt city links)) as [e | responseText].
  - intros Hr. inversion Hr. reflexivity.
  - destruct (Extract.extractJSON3 "Explorer" responseText) as [res | e]; cbn [bind];
      [| intros Hr; inversion Hr; reflexivity].
    destruct (JS.get res "valid_events") as [valid_events | e] eqn:Hv; cbn [bind];
      [| intros Hr; inversion Hr; reflexivity].
    destruct (JS.get res "rejected_links") as [rejected_links | e] eqn:Hrl; cbn [bind];
      [| destruct res; discriminate].
    destruct (JS.get res "analyzed_links") as [analyzed_links | e] eqn:Ha; cbn [bind];
      [| destruct res; discriminate].
    intros Hr. inversion Hr. reflexivity.
Qed.

(** A round of the loop adds to the events the elements of the reply's
    [valid_events] and nothing else. *)
Lemma explore_step_events (city : string) (count i : nat) (batch : list Effects.object)
    (acc acc' : Explorer.Acc) (w w' : Effects.World) :
  Explorer.explore_step env city count acc (i, batch) w = (Normal acc', w') ->
  exists n,
    Explorer.allEvents acc'
    = Explorer.allEvents acc
      ++ Spec.batch_events (Effects.generateContent env n (Spec.batch_prompt city batch)).
Proof.
  unfold Explorer.explore_step. unfold Effects.bindM at 1.
  unfold Effects.logger at 1, Effects.emit at 1.
  unfold Effects.bindM at 1.
  destruct (Explorer.analyzeBatch env batch city _) as [[result | e] w1] eqn:Hrun;
    [| discriminate].
  apply analyzeBatch_inv in Hrun.
  match type of Hrun with
  | _ = Spec.batch_result (Effects.generateContent env ?n _) _ => intros Hstep; exists n
  end.
  revert Hstep. subst result.
  unfold Spec.batch_result, Spec.batch_events.
  destruct (Spec.batch_analysis _) as [[[valid_events rejected_links] analyzed_links] | e].
  - cbn [Explorer.Batch.success Explorer.Batch.events Explorer.Batch.rejected
         Explorer.Batch.analyzed].
    unfold Effects.bindM, Effects.lift.
    destruct (JS.spread valid_events) as [found | e]; [| discriminate].
    destruct (Explorer.push_rejected _ _) as [rej | e]; [| discriminate].
    destruct (Explorer.add_analyzed _ _) as [tot | e]; [| discriminate].
    unfold Effects.logger, Effects.emit, Effects.ret, Effects.sleep, Effects.emit.
    destruct (i <? count - 1); intros Hr; inversion Hr; reflexivity.
  - cbn [Explorer.Batch.success Explorer.Batch.rejected Explorer.Batch.error].
    unfold Effects.bindM, Effects.lift. cbn [Explorer.push_rejected].
    unfold Effects.logger, Effects.emit, Effects.ret, Effects.sleep, Effects.emit.
    destruct (i <? count - 1); intros Hr; inversion Hr; cbn; rewrite app_nil_r; reflexivity.
Qed.

Lemma explore_loop_events (city : string) (count : nat)
    (numbered : list (nat * list Effects.object)) (acc acc' : Explorer.Acc)
    (w w' : Effects.World) :
  Effects.for_of (Explorer.explore_step env city count) numbered acc w = (Normal acc', w') ->
  forall e, In e (Explorer.allEvents acc') ->
    In e (Explorer.allEvents acc)
    \/ exists n batch,
        In e (Spec.batch_events (Effects.generateContent env n (Spec.batch_prompt city batch))).
Proof.
  revert acc w. induction numbered as [| [i batch] rest IH]; intros acc w Hloop e He.
  - cbn in Hloop. inversion Hloop. subst. left. exact He.
  - cbn [Effects.for_of] in Hloop. unfold Effects.bindM in Hloop.
    destruct (Explorer.explore_step env city count acc (i, batch) w) as [[acc1 | x] w1] eqn:Hstep;
      [| discriminate].
    destruct (IH acc1 w1 Hloop e He) as [Hin | Hfrom]; [| right; exact Hfrom].
    destruct (explore_step_events _ _ _ _ _ _ _ _ Hstep) as [n Hn].
    rewrite Hn in Hin. apply in_app_or in Hin.
    destruct Hin as [Hin | Hin]; [left; exact Hin | right; exists n, batch; exact Hin].
Qed.

Lemma dedupe_keys (events : list json) (seen : list string) (kept : list json) :
  Explorer.dedupe events seen = Normal kept ->
  forall e, In e kept -> exists k, Explorer.key e = Normal k.
Proof.
  revert seen kept. induction events as [| e rest IH]; intros seen kept Hd x Hx;
    cbn [Explorer.dedupe] in Hd.
  - inversion Hd. subst. contradiction.
  - apply bind_normal in Hd. destruct Hd as [k [Hk Hd]].
    destruct (existsb (String.eqb k) seen); [exact (IH _ _ Hd x Hx) |].
    apply bind_normal in Hd. destruct Hd as [kept' [Hkept' Hd]].
    inversion Hd. subst kept. destruct Hx as [<- | Hx]; [exists k; exact Hk |].
    exact (IH _ _ Hkept' x Hx).
Qed.

End ExplorerProvenance.

Lemma own_filter_keeps (p : string * json -> bool) (fields : list (string * json))
    (k : string) :
  (forall k' v, p (k', v) = false -> k' <> k) ->
  own (filter p fields) k = own fields k.
Proof.
  intros Hp. induction fields as [| [k0 v0] r IH]; [reflexivity |].
  cbn [filter]. destruct (p (k0, v0)) eqn:Hpk; cbn [own].
  - destruct (String.eqb k0 k); [reflexivity | exact IH].
  - destruct (String.eqb_spec k0 k) as [-> | _]; [| exact IH].
    exfalso. exact (Hp k v0 Hpk eq_refl).
Qed.

Lemma own_filter_drops (p : string * json -> bool) (fields : list (string * json))
    (k : string) :
  (forall v, p (k, v) = false) -> own (filter p fields) k = None.
Proof.
  intros Hp. induction fields as [| [k0 v0] r IH]; [reflexivity |].
  cbn [filter]. destruct (p (k0, v0)) eqn:Hpk; [| exact IH]. cbn [own].
  destruct (String.eqb_spec k0 k) as [-> | _]; [| exact IH].
  rewrite Hp in Hpk. discriminate.
Qed.

Lemma clean_event_spec (e : json) :
  e <> JNull -> exists c, Server.clean_event e = Normal c /\ Spec.cleaned_from e c.
Proof.
  intros He. unfold Server.clean_event.
  set (p := fun kv : string * json =>
              negb (String.eqb (fst kv) "interest_matched"
                    || String.eqb (fst kv) "target_date")).
  exists (JObject (filter p (JS.own_properties e))). split.
  - destruct e; try reflexivity. contradiction.
  - eexists. split; [reflexivity |]. split; [| split].
    + apply own_filter_drops. intros v. reflexivity.
    + apply own_filter_drops. intros v. reflexivity.
    + intros k Hk1 Hk2. apply own_filter_keeps. intros k' v Hp.
      unfold p in Hp. cbn [fst] in Hp. apply negb_false_iff, orb_true_iff in Hp.
      destruct Hp as [Hp | Hp]; apply String.eqb_eq in Hp; congruence.
Qed.

Lemma logFinalItinerary_spec (events : list json) :
  Forall (fun e => e <> JNull) events ->
  exists cleaned,
    Server.logFinalItinerary events = Normal cleaned
    /\ Forall2 Spec.cleaned_from events cleaned.
Proof.
  unfold Server.logFinalItinerary.
  induction events as [| e rest IH]; intros He.
  - exists []. split; [reflexivity | constructor].
  - inversion He as [| ? ? Hnn Hrest]; subst.
    destruct (clean_event_spec e Hnn) as [c [Hc Hclean]].
    destruct (IH Hrest) as [cleaned [Hcs Hall]].
    exists (c :: cleaned). cbn [map_each]. rewrite Hc, Hcs. split; [reflexivity |].
    constructor; assumption.
Qed.

(** C9, as the source has it. Every event that [exploreLinks] returns is,
    unchanged, an element of the [valid_events] of one of the replies, with
    whatever [interest_matched] and [target_date] the model put there.
    The two fields are absent only from the copies that
    [Logger.logFinalItinerary] writes to the itinerary log, which keep
    every other property. *)
Theorem C9_provenance_stripped_only_in_log {H : JS.Host} (env : Effects.Env)
    (links : list Effects.object) (city : string) (w w' : Effects.World)
    (r : Explorer.ExploreResult) :
  JS.HostLaws H ->
  Explorer.exploreLinks env links city w = (Normal r, w') ->
  (forall e, In e (Explorer.events r) ->
     exists n batch,
       In e (Spec.batch_events
               (Effects.generateContent env n (Spec.batch_prompt city batch))))
  /\ exists cleaned,
      Server.logFinalItinerary (Explorer.events r) = Normal cleaned
      /\ Forall2 Spec.cleaned_from (Explorer.events r) cleaned.
Proof.
  intros laws Hrun. unfold Explorer.exploreLinks in Hrun.
  unfold Effects.bindM at 1 in Hrun. unfold Effects.logger at 1, Effects.emit at 1 in Hrun.
  destruct links as [| link rest].
  - unfold Effects.bindM, Effects.logger, Effects.emit, Effects.ret in Hrun.
    inversion Hrun. cbn. split; [contradiction |].
    exists []. split; [reflexivity | constructor].
  - unfold Effects.bindM at 1 in Hrun.
    destruct (Effects.for_of _ _ _ _) as [[acc | x] w1] eqn:Hloop; [| discriminate].
    unfold Effects.bindM at 1 in Hrun. unfold Effects.lift at 1 in Hrun.
    destruct (Explorer.dedupe (Explorer.allEvents acc) []) as [unique | x] eqn:Hunique;
      [| discriminate].
    unfold Effects.bindM at 1 in Hrun. unfold Effects.lift at 1 in Hrun.
    destruct (JS.array_sort Explorer.by_start_time unique) as [sorted | x] eqn:Hsorted;
      [| discriminate].
    unfold Effects.bindM, Effects.logger, Effects.emit, Effects.ret in Hrun.
    inversion Hrun. subst r. cbn [Explorer.events].
    pose proof (JS.sort_permutes H laws _ _ _ _ Hsorted) as Hperm.
    assert (Hsub : forall e, In e sorted -> In e unique)
      by (intros e He; apply Permutation_in with sorted;
          [apply Permutation_sym; exact Hperm | exact He]).
    split.
    + intros e He.
      destruct (explore_loop_events env city _ _ _ _ _ _ Hloop e
                  (dedupe_incl _ _ _ Hunique e (Hsub e He))) as [[] | Hfrom].
      exact Hfrom.
    + apply logFinalItinerary_spec. apply Forall_forall. intros e He Hnull.
      destruct (dedupe_keys _ _ _ Hunique e (Hsub e He)) as [k Hk].
      subst e. discriminate Hk.
Qed.

Lemma C9_provenance_stripped_only_in_log_witness :
  exists r w',
    Explorer.exploreLinks (H := Node.utc) Spec.env_provenance Spec.one_link "Boston" []
    = (Normal r, w')
    /\ Explorer.events r = [Spec.with_provenance]
    /\ Server.logFinalItinerary (Explorer.events r)
       = Normal [Spec.event "Jazz Night" "2026-01-09T20:00:00"].
Proof.
  assert (Hrun : exists r w',
             Explorer.exploreLinks (H := Node.utc) Spec.env_provenance Spec.one_link
               "Boston" [] = (Normal r, w'))
    by (eexists _, _; vm_compute; reflexivity).
  destruct Hrun as [r [w' Hrun]].
  destruct (C9_provenance_stripped_only_in_log (H := Node.utc) Spec.env_provenance
              Spec.one_link "Boston" [] w' r utc_laws Hrun) as [_ [cleaned [Hlog _]]].
  exists r, w'. split; [exact Hrun |].
  vm_compute in Hrun. inversion Hrun. split; reflexivity.
Defined.

(** C9 as stated fails: the event that the model listed with an
    [interest_matched] and a [target_date] is returned with both. *)
Lemma C9_provenance_fields_returned :
  ~ (forall r w',
        Explorer.exploreLinks (H := Node.utc) Spec.env_provenance Spec.one_link "Boston" []
        = (Normal r, w') ->
        Forall (fun e => JS.get e "interest_matched" = Normal None
                         /\ JS.get e "target_date" = Normal None)
               (Explorer.events r)).
Proof.
  intros Hclaim.
  assert (Hrun : exists r w',
             Explorer.exploreLinks (H := Node.utc) Spec.env_provenance Spec.one_link
               "Boston" [] = (Normal r, w')
             /\ Explorer.events r = [Spec.with_provenance])
    by (eexists _, _; split; [vm_compute; reflexivity | reflexivity]).
  destruct Hrun as [r [w' [Hrun Hevents]]].
  specialize (Hclaim r w' Hrun). rewrite Hevents in Hclaim.
  inversion Hclaim as [| ? ? [Hmatched _] _]. discriminate Hmatched.
Qed.

(* ===================================================================== *)
(** ** planner.js: grouping *)
(* ===================================================================== *)

Section PlainObjects.

Context {V : Type}.

Lemma lookup_app_none (o1 o2 : Server.dict V) (k : string) :
  Server.lookup o1 k = None -> Server.lookup (o1 ++ o2) k = Server.lookup o2 k.
Proof.
  induction o1 as [| [k' v'] r IH]; simpl; [reflexivity |].
  destruct (String.eqb k' k); [discriminate | exact IH].
Qed.

Lemma lookup_app_other (o1 : Server.dict V) (k k' : string) (v : V) :
  k <> k' -> Server.lookup (o1 ++ [(k, v)]) k' = Server.lookup o1 k'.
Proof.
  intros Hne. induction o1 as [| [k0 v0] r IH]; simpl.
  - destruct (String.eqb_spec k k'); [contradiction | reflexivity].
  - destruct (String.eqb k0 k'); [reflexivity | exact IH].
Qed.

(** A created property is found, and nothing else changes. *)
Lemma lookup_create (o : Server.dict V) (k k' : string) (v : V) :
  Server.lookup o k = None ->
  Server.lookup (Planner.create o k v) k'
  = if String.eqb k k' then Some v else Server.lookup o k'.
Proof.
  intros Hk. induction o as [| [k0 v0] r IH]; cbn [Planner.create].
  - destruct (Planner.array_index k); simpl; reflexivity.
  - simpl in Hk. destruct (String.eqb_spec k0 k) as [| Hne0]; [discriminate |].
    destruct (Planner.array_index k) as [n |].
    + assert (Hhead : Server.lookup ((k, v) :: (k0, v0) :: r) k'
                      = if String.eqb k k' then Some v
                        else Server.lookup ((k0, v0) :: r) k') by reflexivity.
      destruct (Planner.array_index k0) as [n0 |]; [| exact Hhead].
      destruct (n0 <? n)%Z; [| exact Hhead].
      cbn [Server.lookup]. rewrite (IH Hk).
      destruct (String.eqb_spec k0 k') as [-> | _]; [| reflexivity].
      destruct (String.eqb_spec k k'); [congruence | reflexivity].
    + destruct (String.eqb_spec k k') as [<- | Hne].
      * rewrite lookup_app_none; [simpl; rewrite String.eqb_refl; reflexivity |].
        simpl. destruct (String.eqb_spec k0 k); [contradiction | exact Hk].
      * apply lookup_app_other. exact Hne.
Qed.

Lemma keys_create (o : Server.dict V) (k : string) (v : V) :
  Permutation (k :: map fst o) (map fst (Planner.create o k v)).
Proof.
  induction o as [| [k0 v0] r IH]; cbn [Planner.create].
  - destruct (Planner.array_index k); apply Permutation_refl.
  - destruct (Planner.array_index k) as [n |].
    + destruct (Planner.array_index k0) as [n0 |]; [| apply Permutation_refl].
      destruct (n0 <? n)%Z; [| apply Permutation_refl].
      cbn [map fst]. apply perm_trans with (k0 :: k :: map fst r);
        [apply perm_swap | apply perm_skip, IH].
    + rewrite map_app. cbn [map fst].
      apply (Permutation_cons_append (map fst ((k0, v0) :: r)) k).
Qed.

Lemma lookup_none_keys (o : Server.dict V) (k : string) :
  Server.lookup o k = None <-> ~ In k (map fst o).
Proof.
  induction o as [| [k0 v0] r IH]; simpl; [tauto |].
  destruct (String.eqb_spec k0 k) as [-> | Hne].
  - split; [discriminate | intros Hn; exfalso; apply Hn; left; reflexivity].
  - rewrite IH. tauto.
Qed.

End PlainObjects.

Section Pushes.

Context {A : Type}.

Lemma lookup_push (o : Server.dict (list A)) (k k' : string) (x : A) :
  Server.lookup (Server.push o k x) k'
  = if String.eqb k k'
    then option_map (fun l => l ++ [x]) (Server.lookup o k')
    else Server.lookup o k'.
Proof.
  induction o as [| [k0 v0] r IH]; simpl.
  - destruct (String.eqb k k'); reflexivity.
  - destruct (String.eqb_spec k0 k) as [-> | Hne]; simpl.
    + destruct (String.eqb k k'); reflexivity.
    + rewrite IH. destruct (String.eqb_spec k0 k') as [-> | _]; [| reflexivity].
      destruct (String.eqb_spec k k'); [congruence | reflexivity].
Qed.

Lemma keys_push (o : Server.dict (list A)) (k : string) (x : A) :
  map fst (Server.push o k x) = map fst o.
Proof.
  induction o as [| [k0 v0] r IH]; simpl; [reflexivity |].
  destruct (String.eqb k0 k); simpl; [reflexivity | rewrite IH; reflexivity].
Qed.

End Pushes.

Lemma for_each_ext {A S} (f g : S -> A -> Completion S) (l : list A) (s : S) :
  (forall s x, f s x = g s x) -> for_each f l s = for_each g l s.
Proof.
  intros Hfg. revert s. induction l as [| x r IH]; intros s; simpl; [reflexivity |].
  rewrite Hfg. destruct (g s x); simpl; [apply IH | reflexivity].
Qed.

Section Grouping.

Context {H : JS.Host}.
Variable what : string.
Variable key : json -> Completion (option string).

Lemma under_calm (k : string) (e : json) (d : option string) :
  key e = Normal d ->
  Spec.under key k e = match d with Some x => String.eqb x k | None => false end.
Proof. intros Hd. unfold Spec.under. rewrite Hd. reflexivity. Qed.

(** A grouping loop over events it can file: it returns; the names stay
    distinct, and every name holds what it held before followed by the
    events filed under it, in the order of the input. *)
Lemma group_loop (events : list json) (acc : Server.dict (list json)) :
  NoDup (map fst acc) ->
  (forall e, In e events -> Spec.calm key e) ->
  exists g,
    for_each (Spec.group_step what key) events acc = Normal g
    /\ NoDup (map fst g)
    /\ forall k, Server.lookup g k
                 = Spec.merged_group (Server.lookup acc k)
                     (filter (Spec.under key k) events).
Proof.
  revert acc. induction events as [| e events IH]; intros acc Hnd Hcalm.
  - exists acc. split; [reflexivity |]. split; [exact Hnd |].
    intros k. simpl. destruct (Server.lookup acc k); simpl;
      [rewrite app_nil_r |]; reflexivity.
  - destruct (Hcalm e (or_introl eq_refl)) as [d [Hd Hinh]].
    assert (Hrest : forall e', In e' events -> Spec.calm key e')
      by (intros e' He'; apply Hcalm; right; exact He').
    cbn [for_each]. unfold Spec.group_step at 1. rewrite Hd. cbn [bind].
    destruct d as [x |].
    + unfold Planner.file_under.
      destruct (Server.lookup acc x) as [es |] eqn:Hx.
      * cbn [bind].
        destruct (IH (Server.push acc x e)) as [g [Hg [Hgnd Hlook]]];
          [rewrite keys_push; exact Hnd | exact Hrest |].
        exists g. split; [exact Hg |]. split; [exact Hgnd |].
        intros k. rewrite Hlook, lookup_push. cbn [filter].
        rewrite (under_calm k e _ Hd).
        destruct (String.eqb_spec x k) as [<- | _]; [| reflexivity].
        rewrite Hx. simpl. rewrite <- app_assoc. reflexivity.
      * rewrite Hinh. cbn [bind].
        destruct (IH (Planner.create acc x [e])) as [g [Hg [Hgnd Hlook]]];
          [| exact Hrest |].
        { apply (Permutation_NoDup (keys_create acc x [e])).
          constructor; [apply lookup_none_keys; exact Hx | exact Hnd]. }
        exists g. split; [exact Hg |]. split; [exact Hgnd |].
        intros k. rewrite Hlook, (lookup_create acc x k [e] Hx). cbn [filter].
        rewrite (under_calm k e _ Hd).
        destruct (String.eqb_spec x k) as [<- | _]; [| reflexivity].
        rewrite Hx. reflexivity.
    + cbn [bind]. destruct (IH acc Hnd Hrest) as [g [Hg [Hgnd Hlook]]].
      exists g. split; [exact Hg |]. split; [exact Hgnd |].
      intros k. rewrite Hlook. cbn [filter]. rewrite (under_calm k e _ Hd). reflexivity.
Qed.

(** The first event that is filed under a name of [Object.prototype] makes
    the loop throw. *)
Lemma group_loop_throws (before after : list json) (e : json) (x : string) :
  (forall e', In e' before -> Spec.calm key e') ->
  key e = Normal (Some x) -> JS.inherited x = true ->
  for_each (Spec.group_step what key) (before ++ e :: after) []
  = Throw (TypeError ("acc[" ++ what ++ "].push is not a function")).
Proof.
  intros Hcalm Hkey Hinh.
  destruct (group_loop before [] (NoDup_nil _) Hcalm) as [g [Hg [_ Hlook]]].
  rewrite for_each_app, Hg. cbn [bind for_each].
  unfold Spec.group_step at 1. rewrite Hkey. cbn [bind].
  unfold Planner.file_under. rewrite Hlook. cbn [Server.lookup Spec.merged_group].
  destruct (filter (Spec.under key x) before) as [| e0 es] eqn:Hf.
  - rewrite Hinh. reflexivity.
  - exfalso. assert (He0 : In e0 (filter (Spec.under key x) before))
      by (rewrite Hf; left; reflexivity).
    apply filter_In in He0. destruct He0 as [Hin Hunder].
    destruct (Hcalm e0 Hin) as [d [Hd Hcase]].
    rewrite (under_calm x e0 d Hd) in Hunder.
    destruct d as [y |]; [| discriminate].
    apply String.eqb_eq in Hunder. subst y. congruence.
Qed.

End Grouping.

(* ===================================================================== *)
(** ** planner.js: the utilities *)
(* ===================================================================== *)

Lemma stable_sort_of_sorted {A} (key : A -> Z) (l : list A) :
  Sorted (fun a b => (key a <= key b)%Z) l -> JS.stable_sort key l = l.
Proof.
  induction l as [| x r IH]; intros Hs; [reflexivity |].
  inversion Hs as [| ? ? Hr Hhd]; subst. cbn [JS.stable_sort]. rewrite (IH Hr).
  destruct r as [| y r']; [reflexivity |].
  inversion Hhd as [| ? ? Hxy]; subst. cbn [JS.insert_by].
  destruct (Z.leb_spec (key x) (key y)); [reflexivity | lia].
Qed.

Section PlannerSort.

Context {H : JS.Host}.
Hypothesis laws : JS.HostLaws H.

Lemma sortByTime_dated (events : list json) :
  Forall (fun e => Spec.dated e = true) events ->
  Planner.sortByTime events = Normal (JS.stable_sort Spec.event_time events).
Proof.
  intros Hd. unfold Planner.sortByTime. apply (JS.sort_by_key H laws).
  intros a b Ha Hb. rewrite Forall_forall in Hd.
  apply by_start_time_dated; apply Hd; assumption.
Qed.

End PlannerSort.

(** X1. [sortByTime] on events whose start times denote valid dates returns
    them in ascending order of their instants, events of one instant in
    the order of the input: nothing is lost or added. *)
Theorem sortByTime_sorts {H : JS.Host} (laws : JS.HostLaws H) (events : list json) :
  Forall (fun e => Spec.dated e = true) events ->
  exists sorted,
    Planner.sortByTime events = Normal sorted
    /\ Permutation events sorted
    /\ Sorted (fun a b => (Spec.event_time a <= Spec.event_time b)%Z) sorted
    /\ sorted = JS.stable_sort Spec.event_time events.
Proof.
  intros Hd. exists (JS.stable_sort Spec.event_time events).
  split; [apply sortByTime_dated; assumption |].
  split; [apply stable_sort_perm |].
  split; [apply stable_sort_sorted | reflexivity].
Qed.

Lemma sortByTime_sorts_witness :
  exists sorted,
    Planner.sortByTime (H := Node.utc) (rev Spec.three_talks) = Normal sorted
    /\ sorted = Spec.three_talks.
Proof.
  destruct (sortByTime_sorts utc_laws (rev Spec.three_talks))
    as [sorted [Hrun [_ [_ Hs]]]].
  - repeat constructor.
  - exists sorted. split; [exact Hrun |]. rewrite Hs. vm_compute. reflexivity.
Defined.

(** X2. Sorting what [sortByTime] returned changes nothing. *)
Theorem sortByTime_idempotent {H : JS.Host} (laws : JS.HostLaws H)
    (events sorted : list json) :
  Forall (fun e => Spec.dated e = true) events ->
  Planner.sortByTime events = Normal sorted ->
  Planner.sortByTime sorted = Normal sorted.
Proof.
  intros Hd Hrun. rewrite (sortByTime_dated laws events Hd) in Hrun.
  inversion Hrun as [Hs]. clear Hrun.
  assert (Hd' : Forall (fun e => Spec.dated e = true)
                  (JS.stable_sort Spec.event_time events)).
  { rewrite Forall_forall in *. intros e He. apply Hd.
    apply Permutation_in with (JS.stable_sort Spec.event_time events);
      [apply Permutation_sym, stable_sort_perm | exact He]. }
  rewrite (sortByTime_dated laws _ Hd').
  rewrite stable_sort_of_sorted; [reflexivity | apply stable_sort_sorted].
Qed.

Lemma sortByTime_idempotent_witness :
  Planner.sortByTime (H := Node.utc) Spec.three_talks = Normal Spec.three_talks.
Proof.
  apply (sortByTime_idempotent utc_laws (rev Spec.three_talks)).
  - repeat constructor.
  - vm_compute. reflexivity.
Defined.

Section PlannerGroups.

Context {H : JS.Host}.

Lemma groupByDate_loop (events : list json) :
  Planner.groupByDate events
  = for_each (Spec.group_step "date" Spec.day_of) events [].
Proof.
  unfold Planner.groupByDate. apply for_each_ext. intros acc event.
  unfold Spec.group_step, Spec.day_of.
  destruct (JS.get event "start_time") as [start_time | e]; simpl; [| reflexivity].
  destruct (JS.truthy start_time); [| reflexivity].
  destruct start_time as [[| | | | |] |]; reflexivity.
Qed.

Lemma groupByCategory_loop (events : list json) :
  Planner.groupByCategory events
  = for_each (Spec.group_step "category" Spec.category_key) events [].
Proof.
  unfold Planner.groupByCategory. apply for_each_ext. intros acc event.
  unfold Spec.group_step, Spec.category_key.
  destruct (Planner.category_of event); reflexivity.
Qed.

Lemma quiet_calm (e : json) : Spec.quiet [] e -> Spec.calm Spec.day_of e.
Proof.
  intros [d [Hd Hcase]]. exists d. split; [exact Hd |].
  destruct d as [x |]; [| exact I]. destruct Hcase as [[] | Hinh]. exact Hinh.
Qed.

Lemma merged_group_none (es : list json) :
  Spec.merged_group None es = match es with [] => None | _ => Some es end.
Proof. destruct es; reflexivity. Qed.

End PlannerGroups.

(** X3. [groupByDate] on events whose day texts no built-in prototype defines:
    the returned object has one property for every day on which an event
    starts, holding the events of that day in the order of the input, and
    no other property; an event without a start time is in no group. *)
Theorem groupByDate_files_by_day {H : JS.Host} (events : list json) :
  (forall e, In e events -> Spec.quiet [] e) ->
  exists groups,
    Planner.groupByDate events = Normal groups
    /\ NoDup (map fst groups)
    /\ forall day,
         Server.lookup groups day
         = match filter (Spec.on_day day) events with
           | [] => None
           | found => Some found
           end.
Proof.
  intros Hq. rewrite groupByDate_loop.
  destruct (group_loop "date" Spec.day_of events [] (NoDup_nil _))
    as [g [Hg [Hnd Hlook]]]; [intros e He; apply quiet_calm, Hq, He |].
  exists g. split; [exact Hg |]. split; [exact Hnd |].
  intros day. rewrite Hlook. cbn [Server.lookup]. rewrite merged_group_none.
  assert (Hsame : filter (Spec.under Spec.day_of day) events
                  = filter (Spec.on_day day) events) by reflexivity.
  rewrite Hsame. destruct (filter (Spec.on_day day) events); reflexivity.
Qed.

Lemma groupByDate_files_by_day_witness :
  exists groups,
    Planner.groupByDate (H := Node.utc) Spec.weekend = Normal groups
    /\ map fst groups = ["2026-01-04"; "2026-01-03"]
    /\ option_map (@List.length json) (Server.lookup groups "2026-01-03") = Some 3.
Proof.
  destruct (groupByDate_files_by_day (H := Node.utc) Spec.weekend)
    as [groups [Hrun _]].
  - intros e He.
    repeat (destruct He as [<- | He];
            [eexists; split; [vm_compute; reflexivity | try exact I; right; reflexivity] |]).
    destruct He.
  - exists groups. split; [exact Hrun |].
    vm_compute in Hrun. inversion Hrun. split; reflexivity.
Defined.

(** X4. [groupByCategory] on events whose category names no built-in prototype
    defines: every event is in the group of its category, an event without
    a category in the group named other, in the order of the input. *)
Theorem groupByCategory_files_by_category {H : JS.Host} (events : list json) :
  (forall e, In e events -> Spec.calm Spec.category_key e) ->
  exists groups,
    Planner.groupByCategory events = Normal groups
    /\ NoDup (map fst groups)
    /\ (forall category,
          Server.lookup groups category
          = match filter (Spec.under Spec.category_key category) events with
            | [] => None
            | found => Some found
            end)
    /\ forall e, In e events -> JS.get e "category" = Normal None ->
         exists found, Server.lookup groups "other" = Some found /\ In e found.
Proof.
  intros Hcalm. rewrite groupByCategory_loop.
  destruct (group_loop "category" Spec.category_key events [] (NoDup_nil _) Hcalm)
    as [g [Hg [Hnd Hlook]]].
  exists g. split; [exact Hg |]. split; [exact Hnd |].
  assert (Hall : forall category,
             Server.lookup g category
             = match filter (Spec.under Spec.category_key category) events with
               | [] => None
               | found => Some found
               end).
  { intros category. rewrite Hlook. cbn [Server.lookup]. rewrite merged_group_none.
    destruct (filter (Spec.under Spec.category_key category) events); reflexivity. }
  split; [exact Hall |].
  intros e He Hnone. rewrite Hall.
  assert (Hin : In e (filter (Spec.under Spec.category_key "other") events)).
  { apply filter_In. split; [exact He |].
    unfold Spec.under, Spec.category_key, Planner.category_of. rewrite Hnone.
    reflexivity. }
  destruct (filter (Spec.under Spec.category_key "other") events) as [| x r];
    [contradiction |].
  exists (x :: r). split; [reflexivity | exact Hin].
Qed.

Lemma groupByCategory_files_by_category_witness :
  exists groups,
    Planner.groupByCategory (H := Node.utc) Spec.weekend = Normal groups
    /\ map fst groups = ["art"; "music"; "other"]
    /\ option_map (@List.length json) (Server.lookup groups "other") = Some 2.
Proof.
  destruct (groupByCategory_files_by_category (H := Node.utc) Spec.weekend)
    as [groups [Hrun _]].
  - intros e He.
    repeat (destruct He as [<- | He];
            [eexists; split; [vm_compute; reflexivity | reflexivity] |]).
    destruct He.
  - exists groups. split; [exact Hrun |].
    vm_compute in Hrun. inversion Hrun. split; reflexivity.
Defined.

(** X5. The accumulator of both groupings is a plain object: an event whose
    day text, or whose category, is a name that [Object.prototype] defines
    (constructor, toString, valueOf, ...) is not given a group of its own;
    the call of [push] on what is inherited throws, and no grouping is
    returned. *)
Theorem grouping_inherited_name_throws {H : JS.Host}
    (before after : list json) (e : json) (name : string) :
  JS.inherited name = true ->
  ((forall e', In e' before -> Spec.quiet [] e') ->
   Spec.day_of e = Normal (Some name) ->
   Planner.groupByDate (before ++ e :: after)
   = Throw (TypeError "acc[date].push is not a function"))
  /\ ((forall e', In e' before -> Spec.calm Spec.category_key e') ->
      Spec.category_key e = Normal (Some name) ->
      Planner.groupByCategory (before ++ e :: after)
      = Throw (TypeError "acc[category].push is not a function")).
Proof.
  intros Hinh. split.
  - intros Hq Hday. rewrite groupByDate_loop.
    apply (group_loop_throws "date" Spec.day_of before after e name);
      [intros e' He'; apply quiet_calm, Hq, He' | exact Hday | exact Hinh].
  - intros Hcalm Hcat. rewrite groupByCategory_loop.
    apply (group_loop_throws "category" Spec.category_key before after e name);
      assumption.
Qed.

Lemma grouping_inherited_name_throws_witness :
  Planner.groupByDate (H := Node.utc)
    (Spec.three_talks ++ [Spec.event "Talk" "constructor"])
  = Throw (TypeError "acc[date].push is not a function")
  /\ Planner.groupByCategory (H := Node.utc)
       [JObject [("name", JString "Talk"); ("category", JString "toString")]]
     = Throw (TypeError "acc[category].push is not a function").
Proof.
  split.
  - apply (proj1 (grouping_inherited_name_throws (H := Node.utc) Spec.three_talks []
                    (Spec.event "Talk" "constructor") "constructor" eq_refl)).
    + intros e He.
      repeat (destruct He as [<- | He];
              [eexists; split; [vm_compute; reflexivity | right; reflexivity] |]).
      destruct He.
    + reflexivity.
  - apply (proj2 (grouping_inherited_name_throws (H := Node.utc) [] []
                    (JObject [("name", JString "Talk"); ("category", JString "toString")])
                    "toString" eq_refl)).
    + intros e' [].
    + reflexivity.
Defined.

Section PlannerDuplicates.

Context {H : JS.Host}.

(** The loop with the set [seen] keeps a list whose keys are computed,
    distinct and not seen before as it is. *)
Lemma dedupe_of_distinct (events : list json) (seen : list string) :
  (forall e, In e events -> exists k, Explorer.key e = Normal k) ->
  NoDup (map Spec.event_key events) ->
  (forall e, In e events -> ~ In (Spec.event_key e) (map Some seen)) ->
  Explorer.dedupe events seen = Normal events.
Proof.
  revert seen. induction events as [| e rest IH]; intros seen Hkeys Hnd Hnew;
    [reflexivity |].
  cbn [Explorer.dedupe].
  destruct (Hkeys e (or_introl eq_refl)) as [k Hk]. rewrite Hk. cbn [bind].
  assert (Hek : Spec.event_key e = Some k)
    by (unfold Spec.event_key; rewrite Hk; reflexivity).
  destruct (existsb (String.eqb k) seen) eqn:Hex.
  - exfalso. apply (Hnew e (or_introl eq_refl)). rewrite Hek.
    apply seen_has_key. exact Hex.
  - inversion Hnd as [| ? ? Hfresh Hnd']; subst.
    rewrite (IH (seen ++ [k])); [reflexivity | | exact Hnd' |].
    + intros e' He'. apply Hkeys. right. exact He'.
    + intros e' He' Hin. rewrite map_app in Hin. apply in_app_or in Hin.
      destruct Hin as [Hin | [Heq | []]].
      * exact (Hnew e' (or_intror He') Hin).
      * apply Hfresh. rewrite Hek, Heq. apply in_map. exact He'.
Qed.

End PlannerDuplicates.

(** X6. Whenever [removeDuplicates] returns, no two events it kept have the
    same key text, every kept event is the first of the input with its key
    text, every event of the input has its key text kept, and removing
    duplicates once more changes nothing. *)
Theorem removeDuplicates_first_and_idempotent {H : JS.Host} (events kept : list json) :
  Planner.removeDuplicates events = Normal kept ->
  NoDup (map Spec.event_key kept)
  /\ (forall e, In e kept ->
        Spec.first_event_with (Spec.event_key e) events = Some e)
  /\ (forall e, In e events ->
        exists first, Spec.first_event_with (Spec.event_key e) events = Some first
                      /\ In first kept)
  /\ Planner.removeDuplicates kept = Normal kept.
Proof.
  unfold Planner.removeDuplicates. intros Hrun.
  destruct (dedupe_first_per_key events [] kept Hrun) as [Hnd [Hkept Hall]].
  split; [exact Hnd |]. split; [intros e He; apply Hkept, He |]. split.
  - intros e He. destruct (Hall e He) as [[] | Hy]. exact Hy.
  - apply dedupe_of_distinct; [| exact Hnd | intros e _ []].
    intros e He. exact (dedupe_keys events [] kept Hrun e He).
Qed.

Lemma removeDuplicates_first_and_idempotent_witness :
  exists kept,
    Planner.removeDuplicates (H := Node.utc) Spec.weekend = Normal kept
    /\ List.length kept = 4
    /\ Planner.removeDuplicates (H := Node.utc) kept = Normal kept.
Proof.
  assert (Hrun : exists kept,
             Planner.removeDuplicates (H := Node.utc) Spec.weekend = Normal kept
             /\ List.length kept = 4)
    by (eexists; split; vm_compute; reflexivity).
  destruct Hrun as [kept [Hrun Hlen]]. exists kept.
  split; [exact Hrun |]. split; [exact Hlen |].
  exact (proj2 (proj2 (proj2
           (removeDuplicates_first_and_idempotent (H := Node.utc) Spec.weekend kept Hrun)))).
Defined.

Section PlannerFilter.

Context {H : JS.Host}.

Lemma filter_each_total {A} (p : A -> Completion bool) (q : A -> bool) (l : list A) :
  (forall x, In x l -> p x = Normal (q x)) ->
  Planner.filter_each p l = Normal (filter q l).
Proof.
  induction l as [| x r IH]; intros Hp; [reflexivity |].
  cbn [Planner.filter_each filter]. rewrite (Hp x (or_introl eq_refl)). cbn [bind].
  rewrite IH by (intros y Hy; apply Hp; right; exact Hy). reflexivity.
Qed.

Lemma filter_each_inv {A} (p : A -> Completion bool) (l kept : list A) :
  Planner.filter_each p l = Normal kept ->
  kept = filter (fun x => match p x with Normal b => b | Throw _ => false end) l.
Proof.
  revert kept. induction l as [| x r IH]; intros kept Hrun; cbn [Planner.filter_each] in Hrun.
  - inversion Hrun. reflexivity.
  - apply bind_normal in Hrun. destruct Hrun as [b [Hb Hrun]].
    apply bind_normal in Hrun. destruct Hrun as [kept' [Hkept' Hrun]].
    inversion Hrun. subst kept. cbn [filter]. rewrite Hb, <- (IH kept' Hkept').
    reflexivity.
Qed.

(** What the filter of [filterByDateRange] decides, given the two ends. *)
Lemma in_range_decision (start stop : option Z) (event : json) :
  match (start_time <- JS.get event "start_time" ;;
         if JS.truthy start_time then
           eventTime <- JS.getTime start_time ;;
           Normal (Planner.within eventTime start stop)
         else Normal false) with
  | Normal b => b
  | Throw _ => false
  end
  = match start, stop with
    | Some a, Some b => Spec.starts_within a b event
    | _, _ => false
    end.
Proof.
  unfold Spec.starts_within.
  destruct (JS.get event "start_time") as [v | e]; cbn [bind];
    [| destruct start, stop; reflexivity].
  destruct (JS.truthy v); [| destruct start, stop; reflexivity].
  destruct (JS.getTime v) as [[t |] | e]; cbn [bind Planner.within andb];
    destruct start, stop; reflexivity.
Qed.

End PlannerFilter.

(** The end of the range is read as a local time: on the reference host
    the text of the end date followed by T23:59:59 denotes that second of
    the local day. *)
Lemma node_end_of_day (z : Dates.TimeZone) :
  Spec.end_of_day_is_local (Node.host z).
Proof.
  intros endDate b Hb.
  change (JS.Date_parse (Host := Node.host z) (endDate ++ "T23:59:59"))
    with (Node.Date_parse z (endDate ++ "T23:59:59")).
  change (JS.zone (Host := Node.host z)) with z.
  unfold Node.Date_parse.
  assert (Hchars : exists c0 c1 c2 c3 c4 c5 c6 c7 c8 c9,
             Text.chars endDate = [c0; c1; c2; c3; c4; c5; c6; c7; c8; c9]).
  { unfold Dates.parse_iso_date in Hb.
    destruct (Text.chars endDate)
      as [| c0 [| c1 [| c2 [| c3 [| c4 [| c5 [| c6 [| c7 [| c8 [| c9 [| ? ?]]]]]]]]]]];
      try discriminate.
    repeat eexists. }
  destruct Hchars as [c0 [c1 [c2 [c3 [c4 [c5 [c6 [c7 [c8 [c9 Hchars]]]]]]]]]].
  assert (Hlong : Dates.parse_iso_date (endDate ++ "T23:59:59") = None).
  { unfold Dates.parse_iso_date. rewrite chars_append, Hchars. reflexivity. }
  rewrite Hlong, chars_append, Hchars.
  change (firstn 10 ([c0; c1; c2; c3; c4; c5; c6; c7; c8; c9] ++ Text.chars "T23:59:59"))
    with [c0; c1; c2; c3; c4; c5; c6; c7; c8; c9].
  rewrite <- Hchars, text_chars, Hb.
  rewrite Hchars.
  change (skipn 10 ([c0; c1; c2; c3; c4; c5; c6; c7; c8; c9] ++ Text.chars "T23:59:59"))
    with (Text.chars "T23:59:59").
  change (Text.chars "T23:59:59") with ("T"%char :: Text.chars "23:59:59").
  cbv beta iota.
  replace (Node.clock_time (Text.chars "23:59:59")) with (Some (86399000%Z, false))
    by (vm_compute; reflexivity).
  reflexivity.
Qed.

(** X7. [filterByDateRange] with two dates of the form YYYY-MM-DD, on every
    lawful host that reads a date-time text without offset as local time,
    keeps, in the order of the input, exactly the events with a truthy
    start time whose instant, as the host reads it, lies between midnight
    UTC of the start date and 23:59:59 local time of the end date: the two
    ends of the range are read in different zones. *)
Theorem filterByDateRange_window {H : JS.Host} (laws : JS.HostLaws H)
    (events kept : list json) (startDate endDate : string) (a b : Z) :
  Spec.end_of_day_is_local H ->
  Dates.parse_iso_date startDate = Some a ->
  Dates.parse_iso_date endDate = Some b ->
  Planner.filterByDateRange events startDate endDate = Normal kept ->
  kept = filter (Spec.starts_within
                   (a * Dates.msPerDay)
                   (Dates.UTC JS.zone (b * Dates.msPerDay + 86399000))) events.
Proof.
  intros Hlocal Ha Hb Hrun. unfold Planner.filterByDateRange in Hrun.
  apply filter_each_inv in Hrun. rewrite Hrun. apply filter_ext. intros event.
  rewrite in_range_decision.
  rewrite (JS.parse_iso H laws startDate a Ha), (Hlocal endDate b Hb). reflexivity.
Qed.

Lemma filterByDateRange_window_witness :
  Planner.filterByDateRange (H := Node.new_york) Spec.around_saturday
    "2026-01-03" "2026-01-03"
  = Normal [Spec.event "Friday late show" "2026-01-02T20:00:00";
            Spec.event "Saturday brunch" "2026-01-03T11:00:00"]
  /\ Dates.UTC Dates.us_eastern_2026 (20456 * Dates.msPerDay + 86399000)
     = (20457 * Dates.msPerDay + 5 * Dates.msPerHour - 1000)%Z.
Proof.
  split; [| vm_compute; reflexivity].
  assert (Hrun : exists kept,
             Planner.filterByDateRange (H := Node.new_york) Spec.around_saturday
               "2026-01-03" "2026-01-03" = Normal kept)
    by (eexists; vm_compute; reflexivity).
  destruct Hrun as [kept Hrun]. rewrite Hrun. f_equal.
  rewrite (filterByDateRange_window new_york_laws Spec.around_saturday kept
             "2026-01-03" "2026-01-03" 20456 20456
             (node_end_of_day Dates.us_eastern_2026) eq_refl eq_refl Hrun).
  vm_compute. reflexivity.
Defined.

(** X8. With a start date or an end date that the engine cannot read as a
    date, [filterByDateRange] reports nothing wrong: whenever it returns,
    it has kept no event. *)
Theorem filterByDateRange_invalid_date {H : JS.Host}
    (events kept : list json) (startDate endDate : string) :
  JS.Date_parse startDate = None \/ JS.Date_parse (endDate ++ "T23:59:59") = None ->
  Planner.filterByDateRange events startDate endDate = Normal kept ->
  kept = [].
Proof.
  intros Hbad Hrun. unfold Planner.filterByDateRange in Hrun.
  apply filter_each_inv in Hrun. rewrite Hrun. clear Hrun.
  assert (Hnone : forall e,
             match JS.Date_parse startDate, JS.Date_parse (endDate ++ "T23:59:59") with
             | Some a, Some b => Spec.starts_within a b e
             | _, _ => false
             end = false).
  { intros e. destruct Hbad as [Hbad | Hbad]; rewrite Hbad; [reflexivity |].
    destruct (JS.Date_parse startDate); reflexivity. }
  induction events as [| e r IH]; [reflexivity |].
  cbn [filter]. rewrite in_range_decision, Hnone. exact IH.
Qed.

Lemma filterByDateRange_invalid_date_witness :
  Planner.filterByDateRange (H := Node.utc) Spec.three_talks "not a date" "2026-01-03"
  = Normal [].
Proof.
  assert (Hrun : exists kept,
             Planner.filterByDateRange (H := Node.utc) Spec.three_talks
               "not a date" "2026-01-03" = Normal kept)
    by (eexists; vm_compute; reflexivity).
  destruct Hrun as [kept Hrun]. rewrite Hrun. f_equal.
  apply (filterByDateRange_invalid_date (H := Node.utc) Spec.three_talks kept
           "not a date" "2026-01-03"); [left; reflexivity | exact Hrun].
Defined.

Section PlannerDistribution.

Context {H : JS.Host}.

Lemma start_hour_read (e : json) (v : JS.value) (h : option Z) :
  JS.get e "start_time" = Normal v -> JS.truthy v = true ->
  Planner.hour_of v = Normal h ->
  Spec.has_start e = true
  /\ (forall lo hi,
        Spec.in_hours lo hi e
        = match h with Some x => (lo <=? x)%Z && (x <? hi)%Z | None => false end)
  /\ Spec.at_night e
     = match h with Some x => negb ((6 <=? x)%Z && (x <? 21)%Z) | None => true end.
Proof.
  intros Hv Ht Hh.
  assert (Hs : Spec.start_hour e = Some h)
    by (unfold Spec.start_hour; rewrite Hv, Ht, Hh; reflexivity).
  unfold Spec.has_start, Spec.in_hours, Spec.at_night. rewrite Hs, Hv.
  split; [exact Ht |]. split; [intros lo hi |]; destruct h; reflexivity.
Qed.

Lemma start_hour_none (e : json) (v : JS.value) :
  JS.get e "start_time" = Normal v -> JS.truthy v = false ->
  Spec.has_start e = false
  /\ (forall lo hi, Spec.in_hours lo hi e = false)
  /\ Spec.at_night e = false.
Proof.
  intros Hv Ht.
  assert (Hs : Spec.start_hour e = None)
    by (unfold Spec.start_hour; rewrite Hv, Ht; reflexivity).
  unfold Spec.has_start, Spec.in_hours, Spec.at_night. rewrite Hs, Hv.
  split; [exact Ht |]. split; reflexivity.
Qed.

Lemma distribution_loop (events : list json) (d0 d : Planner.Distribution) :
  for_each (fun d event =>
              start_time <- JS.get event "start_time" ;;
              if JS.truthy start_time then
                hour <- Planner.hour_of start_time ;;
                Normal (Planner.place hour event d)
              else Normal d) events d0 = Normal d ->
  Planner.morning d = Planner.morning d0 ++ filter (Spec.in_hours 6 12) events
  /\ Planner.afternoon d = Planner.afternoon d0 ++ filter (Spec.in_hours 12 17) events
  /\ Planner.evening d = Planner.evening d0 ++ filter (Spec.in_hours 17 21) events
  /\ Planner.night d = Planner.night d0 ++ filter Spec.at_night events
  /\ Permutation (filter Spec.has_start events)
       (filter (Spec.in_hours 6 12) events ++ filter (Spec.in_hours 12 17) events
        ++ filter (Spec.in_hours 17 21) events ++ filter Spec.at_night events).
Proof.
  revert d0. induction events as [| e r IH]; intros d0 Hrun.
  - simpl in Hrun. inversion Hrun. subst d. simpl. rewrite !app_nil_r.
    repeat split; constructor.
  - cbn [for_each] in Hrun. apply bind_normal in Hrun.
    destruct Hrun as [d1 [Hstep Hrest]].
    apply bind_normal in Hstep. destruct Hstep as [v [Hv Hstep]].
    destruct (JS.truthy v) eqn:Ht.
    + apply bind_normal in Hstep. destruct Hstep as [h [Hh Hstep]].
      inversion Hstep as [Hd1]. clear Hstep.
      destruct (start_hour_read e v h Hv Ht Hh) as [Hs [Hin Hnight]].
      destruct (IH d1 Hrest) as [Hm [Ha [He [Hn Hp]]]].
      cbn [filter]. rewrite Hs, !Hin, Hnight. rewrite Hm, Ha, He, Hn. subst d1.
      unfold Planner.place.
      destruct h as [x |].
      * destruct (Z.leb_spec 6 x), (Z.ltb_spec x 12), (Z.leb_spec 12 x),
          (Z.ltb_spec x 17), (Z.leb_spec 17 x), (Z.ltb_spec x 21); try lia;
          cbn [andb negb Planner.morning Planner.afternoon Planner.evening Planner.night];
          rewrite <- ?app_assoc; cbn [app];
          (split; [reflexivity |]); (split; [reflexivity |]);
          (split; [reflexivity |]); (split; [reflexivity |]).
        -- apply perm_skip. exact Hp.
        -- rewrite <- Permutation_middle. apply perm_skip. exact Hp.
        -- rewrite app_assoc. rewrite <- Permutation_middle. rewrite <- app_assoc.
           apply perm_skip. exact Hp.
        -- rewrite !app_assoc. rewrite <- Permutation_middle. rewrite <- !app_assoc.
           apply perm_skip. exact Hp.
        -- rewrite !app_assoc. rewrite <- Permutation_middle. rewrite <- !app_assoc.
           apply perm_skip. exact Hp.
      * cbn [andb negb Planner.morning Planner.afternoon Planner.evening Planner.night].
        rewrite <- ?app_assoc. cbn [app].
        repeat (split; [reflexivity |]).
        rewrite !app_assoc. rewrite <- Permutation_middle. rewrite <- !app_assoc.
        apply perm_skip. exact Hp.
    + inversion Hstep as [Hd1]. subst d1.
      destruct (start_hour_none e v Hv Ht) as [Hs [Hin Hnight]].
      destruct (IH d0 Hrest) as [Hm [Ha [He [Hn Hp]]]].
      cbn [filter]. rewrite Hs, !Hin, Hnight.
      repeat (split; [assumption |]). exact Hp.
Qed.

End PlannerDistribution.

(** X9. Whenever [getTimeDistribution] returns, every event with a truthy
    start time is in exactly one of the four lists, in the order of the
    input, and the others in none: morning holds the events that start at
    an hour from 6 to 11, afternoon from 12 to 16, evening from 17 to 20,
    and night all the rest, those whose hour is not a number included. *)
Theorem getTimeDistribution_partitions {H : JS.Host}
    (events : list json) (d : Planner.Distribution) :
  Planner.getTimeDistribution events = Normal d ->
  Planner.morning d = filter (Spec.in_hours 6 12) events
  /\ Planner.afternoon d = filter (Spec.in_hours 12 17) events
  /\ Planner.evening d = filter (Spec.in_hours 17 21) events
  /\ Planner.night d = filter Spec.at_night events
  /\ Permutation (filter Spec.has_start events)
       (Planner.morning d ++ Planner.afternoon d ++ Planner.evening d
        ++ Planner.night d).
Proof.
  unfold Planner.getTimeDistribution. intros Hrun.
  apply distribution_loop in Hrun. cbn [Planner.morning Planner.afternoon
    Planner.evening Planner.night app] in Hrun.
  destruct Hrun as [Hm [Ha [He [Hn Hp]]]]. rewrite Hm, Ha, He, Hn.
  repeat (split; [reflexivity |]). exact Hp.
Qed.

Lemma getTimeDistribution_partitions_witness :
  exists d,
    Planner.getTimeDistribution (H := Node.utc)
      (Spec.event "Brunch" "2026-01-03Tnoon" :: Spec.weekend) = Normal d
    /\ map (@List.length json)
         [Planner.morning d; Planner.afternoon d; Planner.evening d; Planner.night d]
       = [2; 0; 2; 1]
    /\ Permutation
         (filter (Spec.has_start (H := Node.utc))
            (Spec.event "Brunch" "2026-01-03Tnoon" :: Spec.weekend))
         (Planner.morning d ++ Planner.afternoon d ++ Planner.evening d
          ++ Planner.night d).
Proof.
  assert (Hrun : exists d,
             Planner.getTimeDistribution (H := Node.utc)
               (Spec.event "Brunch" "2026-01-03Tnoon" :: Spec.weekend) = Normal d
             /\ map (@List.length json)
                  [Planner.morning d; Planner.afternoon d; Planner.evening d;
                   Planner.night d] = [2; 0; 2; 1])
    by (eexists; split; vm_compute; reflexivity).
  destruct Hrun as [d [Hrun Hlen]]. exists d.
  split; [exact Hrun |]. split; [exact Hlen |].
  exact (proj2 (proj2 (proj2 (proj2
           (getTimeDistribution_partitions (H := Node.utc) _ d Hrun))))).
Defined.

(* ===================================================================== *)
(** ** user_interests.js *)
(* ===================================================================== *)

Lemma add_In (set : list string) (x y : string) :
  In y (Interests.add set x) <-> In y set \/ y = x.
Proof.
  unfold Interests.add. destruct (existsb (String.eqb x) set) eqn:Hx.
  - apply existsb_eqb_In in Hx. split; [tauto | intros [Hy | ->]; assumption].
  - rewrite in_app_iff. simpl. intuition.
Qed.

Lemma add_NoDup (set : list string) (x : string) :
  NoDup set -> NoDup (Interests.add set x).
Proof.
  intros Hnd. unfold Interests.add. destruct (existsb (String.eqb x) set) eqn:Hx;
    [exact Hnd |].
  apply existsb_eqb_not_In in Hx.
  apply NoDup_app; [exact Hnd | repeat constructor; simpl; tauto |].
  intros y Hy [<- | []]. exact (Hx Hy).
Qed.

Lemma add_all (l set : list string) :
  (NoDup set -> NoDup (fold_left Interests.add l set))
  /\ (forall y, In y (fold_left Interests.add l set) <-> In y set \/ In y l)
  /\ exists more, fold_left Interests.add l set = set ++ more.
Proof.
  revert set. induction l as [| x l IH]; intros set; simpl.
  - split; [tauto |]. split; [tauto |]. exists []. symmetry. apply app_nil_r.
  - destruct (IH (Interests.add set x)) as [Hnd [Hin [more Hmore]]].
    split; [intros Hs; apply Hnd, add_NoDup, Hs |]. split.
    + intros y. rewrite Hin, add_In. intuition.
    + rewrite Hmore. unfold Interests.add.
      destruct (existsb (String.eqb x) set); [exists more; reflexivity |].
      exists ([x] ++ more). rewrite app_assoc. reflexivity.
Qed.

Lemma NoDup_by_nodup (l : list string) : nodup string_dec l = l -> NoDup l.
Proof. intros Hl. rewrite <- Hl. apply NoDup_nodup. Qed.

Lemma category_names_distinct :
  NoDup (map Interests.name Interests.INTEREST_CATEGORIES).
Proof. apply NoDup_by_nodup. vm_compute. reflexivity. Qed.

Lemma fold_add_names (p : Interests.Category -> bool)
    (cats done : list Interests.Category) :
  NoDup (map Interests.name (done ++ cats)) ->
  fold_left (fun categories category =>
               if p category then Interests.add categories (Interests.name category)
               else categories)
            cats (map Interests.name (filter p done))
  = map Interests.name (filter p (done ++ cats)).
Proof.
  revert done. induction cats as [| c rest IH]; intros done Hnd.
  - simpl. rewrite app_nil_r. reflexivity.
  - cbn [fold_left].
    assert (Hsplit : done ++ c :: rest = (done ++ [c]) ++ rest)
      by (rewrite <- app_assoc; reflexivity).
    rewrite Hsplit in *. rewrite <- (IH (done ++ [c]) Hnd). f_equal.
    rewrite filter_app, map_app. cbn [filter].
    destruct (p c) eqn:Hc; [| cbn [map]; rewrite app_nil_r; reflexivity].
    cbn [map]. unfold Interests.add.
    destruct (existsb (String.eqb (Interests.name c))
                (map Interests.name (filter p done))) eqn:Hex; [| reflexivity].
    exfalso. apply existsb_eqb_In in Hex.
    rewrite !map_app in Hnd. apply NoDup_app_remove_r in Hnd.
    cbn [map] in Hnd. apply NoDup_remove_2 in Hnd. rewrite app_nil_r in Hnd.
    apply Hnd. apply in_map_iff in Hex. destruct Hex as [c' [Hname Hc']].
    apply filter_In in Hc'. rewrite <- Hname. apply in_map, Hc'.
Qed.

(** The categories found are the catalogue's categories with a matching
    tag, in the order of the catalogue. *)
Lemma found_categories (interests : list string) :
  Interests.findCategoriesForInterests interests
  = map Interests.name
      (filter (Interests.hasMatch (map Interests.toLowerCase interests))
              Interests.INTEREST_CATEGORIES).
Proof.
  unfold Interests.findCategoriesForInterests.
  exact (fold_add_names _ Interests.INTEREST_CATEGORIES [] category_names_distinct).
Qed.

Lemma hasMatch_matches (interests : list string) (category : Interests.Category) :
  Interests.hasMatch (map Interests.toLowerCase interests) category = true
  <-> Spec.matches interests category.
Proof.
  unfold Interests.hasMatch, Spec.matches. rewrite existsb_exists. split.
  - intros [tag [Htag Hex]]. apply existsb_eqb_In in Hex.
    apply in_map_iff in Hex. destruct Hex as [i [Hi Hin]].
    exists tag, i. auto.
  - intros [tag [i [Htag [Hi Heq]]]]. exists tag. split; [exact Htag |].
    apply existsb_eqb_In. rewrite Heq. apply in_map, Hi.
Qed.

Lemma hasMatch_same (a b : list string) (category : Interests.Category) :
  Spec.same_interests a b ->
  Interests.hasMatch (map Interests.toLowerCase a) category
  = Interests.hasMatch (map Interests.toLowerCase b) category.
Proof.
  intros Hab. unfold Interests.hasMatch.
  induction (Interests.tags category) as [| tag r IH]; [reflexivity |].
  cbn [existsb]. rewrite IH. f_equal.
  destruct (existsb (String.eqb (Interests.toLowerCase tag))
              (map Interests.toLowerCase b)) eqn:Hb.
  - apply existsb_eqb_In. apply Hab. apply existsb_eqb_In. exact Hb.
  - apply existsb_eqb_not_In. intros Ha. apply Hab in Ha.
    apply existsb_eqb_In in Ha. congruence.
Qed.

Lemma findCategoriesForInterests_found (interests : list string) (c : string) :
  In c (Interests.findCategoriesForInterests interests) <->
  exists category, In category Interests.INTEREST_CATEGORIES
                   /\ Interests.name category = c
                   /\ Spec.matches interests category.
Proof.
  rewrite found_categories, in_map_iff. split.
  - intros [category [Hn Hin]]. apply filter_In in Hin. destruct Hin as [Hin Hm].
    exists category. split; [exact Hin |]. split; [exact Hn |].
    apply hasMatch_matches. exact Hm.
  - intros [category [Hin [Hn Hm]]]. exists category. split; [exact Hn |].
    apply filter_In. split; [exact Hin |]. apply hasMatch_matches. exact Hm.
Qed.

(** X10. [findCategoriesForInterests] on ASCII interests returns, in the
    order of the catalogue and each once, the names of the categories that
    list a tag equal to one of the interests up to letter case. The order
    of the interests, their repetitions and their letter case make no
    difference. *)
Theorem findCategoriesForInterests_by_catalogue (interests : list string) :
  Forall Spec.ascii_text interests ->
  let found := Interests.findCategoriesForInterests interests in
  NoDup found
  /\ (exists keep, found = map Interests.name
                             (filter keep Interests.INTEREST_CATEGORIES))
  /\ (forall c, In c found <->
        exists category, In category Interests.INTEREST_CATEGORIES
                         /\ Interests.name category = c
                         /\ Spec.matches interests category)
  /\ (forall others, Forall Spec.ascii_text others ->
        Spec.same_interests interests others ->
        Interests.findCategoriesForInterests others = found).
Proof.
  intros _ found. unfold found. rewrite found_categories.
  split; [| split; [| split]].
  - pose proof category_names_distinct as Hnames.
    revert Hnames. generalize Interests.INTEREST_CATEGORIES as cats.
    induction cats as [| c r IH]; intros Hnd; [constructor |].
    inversion Hnd as [| ? ? Hc Hr]; subst. cbn [filter].
    destruct (Interests.hasMatch _ c); [| apply IH, Hr].
    cbn [map]. constructor; [| apply IH, Hr].
    intros Hin. apply Hc. apply in_map_iff in Hin. destruct Hin as [c' [Hn Hc']].
    apply filter_In in Hc'. rewrite <- Hn. apply in_map, Hc'.
  - eexists. reflexivity.
  - intros c. rewrite in_map_iff. split.
    + intros [category [Hn Hin]]. apply filter_In in Hin. destruct Hin as [Hin Hm].
      exists category. split; [exact Hin |]. split; [exact Hn |].
      apply hasMatch_matches. exact Hm.
    + intros [category [Hin [Hn Hm]]]. exists category. split; [exact Hn |].
      apply filter_In. split; [exact Hin |]. apply hasMatch_matches. exact Hm.
  - intros others _ Hsame. rewrite found_categories. f_equal.
    apply filter_ext. intros category. symmetry. apply hasMatch_same. exact Hsame.
Qed.

Lemma findCategoriesForInterests_by_catalogue_witness :
  Interests.findCategoriesForInterests ["NETWORKING"; "yoga"; "Yoga"]
  = ["Social Activities"; "Sports and Fitness"; "Career and Business"]
  /\ Interests.findCategoriesForInterests ["yoga"; "networking"]
     = Interests.findCategoriesForInterests ["NETWORKING"; "yoga"; "Yoga"].
Proof.
  split; [vm_compute; reflexivity |].
  pose proof (findCategoriesForInterests_by_catalogue ["NETWORKING"; "yoga"; "Yoga"])
    as Hfound.
  cbv zeta in Hfound.
  destruct Hfound as [_ [_ [_ Hsame]]]; [repeat constructor |].
  apply (Hsame ["yoga"; "networking"]); [repeat constructor |].
  intros x. vm_compute. tauto.
Defined.

Lemma all_listed (l1 l2 : list string) :
  forallb (fun x => existsb (String.eqb x) l2) l1 = true -> incl l1 l2.
Proof.
  intros Hall x Hx. rewrite forallb_forall in Hall.
  apply existsb_eqb_In. exact (Hall x Hx).
Qed.

(** The tags of [getAllTags] are the tags of the catalogue. *)
Lemma getAllTags_tags (tag : string) :
  In tag Interests.getAllTags
  <-> exists category, In category Interests.INTEREST_CATEGORIES
                       /\ In tag (Interests.tags category).
Proof.
  split.
  - intros Hin.
    assert (Hincl : incl Interests.getAllTags
                      (flat_map Interests.tags Interests.INTEREST_CATEGORIES))
      by (apply all_listed; vm_compute; reflexivity).
    apply Hincl in Hin. apply in_flat_map in Hin. exact Hin.
  - intros Hex.
    assert (Hincl : incl (flat_map Interests.tags Interests.INTEREST_CATEGORIES)
                      Interests.getAllTags)
      by (apply all_listed; vm_compute; reflexivity).
    apply Hincl. apply in_flat_map. exact Hex.
Qed.

Lemma known_tag (interest : string) :
  existsb (String.eqb (Interests.toLowerCase interest))
          (map Interests.toLowerCase Interests.getAllTags)
  = Spec.known interest.
Proof.
  assert (Hiff : existsb (String.eqb (Interests.toLowerCase interest))
                         (map Interests.toLowerCase Interests.getAllTags) = true
                 <-> Spec.known interest = true).
  { rewrite existsb_eqb_In, in_map_iff. unfold Spec.known.
    pose proof (findCategoriesForInterests_found [interest]) as Hfound.
    split.
    - intros [tag [Hlow Htag]].
      destruct (proj1 (getAllTags_tags tag) Htag) as [category [Hcat Hin]].
      assert (Hc : In (Interests.name category)
                     (Interests.findCategoriesForInterests [interest])).
      { apply Hfound. exists category. split; [exact Hcat |]. split; [reflexivity |].
        exists tag, interest. split; [exact Hin |]. split; [left; reflexivity | exact Hlow]. }
      destruct (Interests.findCategoriesForInterests [interest]); [destruct Hc | reflexivity].
    - intros Hk.
      destruct (Interests.findCategoriesForInterests [interest]) as [| c r] eqn:Hf;
        [discriminate |].
      destruct (proj1 (Hfound c) (or_introl eq_refl))
        as [category [Hcat [_ [tag [i [Htag [[<- | []] Hlow]]]]]]].
      exists tag. split; [exact Hlow |].
      exact (proj2 (getAllTags_tags tag) (ex_intro _ category (conj Hcat Htag))). }
  destruct (existsb _ _), (Spec.known interest); try reflexivity;
    [exact (eq_sym (proj1 Hiff eq_refl)) | exact (proj2 Hiff eq_refl)].
Qed.

Lemma validate_loop (ok : string -> bool) (interests : list string)
    (v : Interests.Validation) :
  fold_left (fun v interest =>
               if ok interest
               then {| Interests.valid := Interests.valid v ++ [interest];
                       Interests.invalid := Interests.invalid v |}
               else {| Interests.valid := Interests.valid v;
                       Interests.invalid := Interests.invalid v ++ [interest] |})
            interests v
  = {| Interests.valid := Interests.valid v ++ filter ok interests;
       Interests.invalid :=
         Interests.invalid v ++ filter (fun i => negb (ok i)) interests |}.
Proof.
  revert v. induction interests as [| i r IH]; intros [a b]; simpl.
  - rewrite !app_nil_r. reflexivity.
  - rewrite IH. destruct (ok i); simpl; rewrite <- ?app_assoc; reflexivity.
Qed.

(** X11. [validateInterests] splits ASCII interests, keeping their order:
    the valid ones are those that [findCategoriesForInterests] finds a
    category for, the invalid ones all the others. *)
Theorem validateInterests_splits_by_category (interests : list string) :
  Forall Spec.ascii_text interests ->
  let v := Interests.validateInterests interests in
  Interests.valid v = filter Spec.known interests
  /\ Interests.invalid v = filter (fun i => negb (Spec.known i)) interests
  /\ Permutation interests (Interests.valid v ++ Interests.invalid v).
Proof.
  intros _ v. unfold v, Interests.validateInterests.
  rewrite (validate_loop
             (fun interest =>
                existsb (String.eqb (Interests.toLowerCase interest))
                        (map Interests.toLowerCase Interests.getAllTags))).
  cbn [Interests.valid Interests.invalid app].
  assert (Hv : filter (fun interest =>
                         existsb (String.eqb (Interests.toLowerCase interest))
                                 (map Interests.toLowerCase Interests.getAllTags))
                      interests = filter Spec.known interests)
    by (apply filter_ext; intros i; apply known_tag).
  assert (Hi : filter (fun i =>
                         negb (existsb (String.eqb (Interests.toLowerCase i))
                                 (map Interests.toLowerCase Interests.getAllTags)))
                      interests = filter (fun i => negb (Spec.known i)) interests)
    by (apply filter_ext; intros i; rewrite known_tag; reflexivity).
  rewrite Hv, Hi. split; [reflexivity |]. split; [reflexivity |].
  clear. induction interests as [| i r IH]; [constructor |].
  cbn [filter]. destruct (Spec.known i); cbn [negb app].
  - apply perm_skip. exact IH.
  - apply perm_trans with (i :: filter Spec.known r
                                ++ filter (fun i => negb (Spec.known i)) r);
      [apply perm_skip; exact IH | apply Permutation_middle].
Qed.

Lemma validateInterests_splits_by_category_witness :
  Interests.valid (Interests.validateInterests ["Yoga"; "quidditch"; "LIVE MUSIC"])
  = ["Yoga"; "LIVE MUSIC"]
  /\ Interests.invalid (Interests.validateInterests ["Yoga"; "quidditch"; "LIVE MUSIC"])
     = ["quidditch"].
Proof.
  pose proof (validateInterests_splits_by_category ["Yoga"; "quidditch"; "LIVE MUSIC"])
    as Hsplit.
  cbv zeta in Hsplit.
  destruct Hsplit as [Hvalid [Hinvalid _]]; [repeat constructor |].
  rewrite Hvalid, Hinvalid. split; vm_compute; reflexivity.
Defined.

Lemma keywords_of_names (c : string) :
  In c Interests.getCategoryNames ->
  exists terms, Server.lookup Interests.eventKeywords c = Some terms.
Proof.
  intros Hc.
  assert (Hall : forallb (fun c => match Server.lookup Interests.eventKeywords c with
                                   | Some _ => true
                                   | None => false
                                   end) Interests.getCategoryNames = true)
    by (vm_compute; reflexivity).
  rewrite forallb_forall in Hall. specialize (Hall c Hc).
  destruct (Server.lookup Interests.eventKeywords c) as [terms |];
    [exists terms; reflexivity | discriminate].
Qed.

Lemma keywords_loop (categories searchTerms : list string) :
  incl categories Interests.getCategoryNames ->
  exists terms,
    for_each Interests.add_keywords categories searchTerms = Normal terms
    /\ (NoDup searchTerms -> NoDup terms)
    /\ (exists more, terms = searchTerms ++ more)
    /\ forall c kw, In c categories ->
         Server.lookup Interests.eventKeywords c = Some kw -> incl kw terms.
Proof.
  revert searchTerms. induction categories as [| c r IH]; intros searchTerms Hincl.
  - exists searchTerms. split; [reflexivity |]. split; [tauto |].
    split; [exists []; symmetry; apply app_nil_r |]. intros c kw [].
  - destruct (keywords_of_names c (Hincl c (or_introl eq_refl))) as [kw Hkw].
    cbn [for_each]. unfold Interests.add_keywords at 1. rewrite Hkw. cbn [bind].
    destruct (add_all kw searchTerms) as [Hnd [Hin [more Hmore]]].
    destruct (IH (fold_left Interests.add kw searchTerms)) as [terms [Hrun [Hnd' [Hpre Hkws]]]];
      [intros x Hx; apply Hincl; right; exact Hx |].
    exists terms. split; [exact Hrun |]. split; [intros Hs; apply Hnd', Hnd, Hs |].
    destruct Hpre as [more' Hmore'].
    split; [exists (more ++ more'); rewrite Hmore', Hmore, app_assoc; reflexivity |].
    intros c' kw' [<- | Hc'] Hlook.
    + rewrite Hkw in Hlook. inversion Hlook. subst kw'.
      intros x Hx. rewrite Hmore'. apply in_or_app. left. apply Hin. right. exact Hx.
    + exact (Hkws c' kw' Hc' Hlook).
Qed.

Lemma found_in_catalogue (interests : list string) :
  incl (Interests.findCategoriesForInterests interests) Interests.getCategoryNames.
Proof.
  rewrite found_categories. intros c Hc. apply in_map_iff in Hc.
  destruct Hc as [category [Hn Hin]]. apply filter_In in Hin.
  unfold Interests.getCategoryNames. rewrite <- Hn. apply in_map, Hin.
Qed.

Lemma search_terms_run (interests : list string) :
  exists terms,
    Interests.getSearchTermsForInterests interests = Normal terms
    /\ NoDup terms
    /\ (exists more, terms = fold_left Interests.add interests [] ++ more)
    /\ incl interests terms
    /\ forall c, In c (Interests.findCategoriesForInterests interests) ->
         In c terms
         /\ exists kw, Server.lookup Interests.eventKeywords c = Some kw
                       /\ incl kw terms.
Proof.
  unfold Interests.getSearchTermsForInterests.
  set (categories := Interests.findCategoriesForInterests interests).
  destruct (add_all interests []) as [Hnd1 [Hin1 _]].
  destruct (add_all categories (fold_left Interests.add interests []))
    as [Hnd2 [Hin2 [more2 Hmore2]]].
  destruct (keywords_loop categories
              (fold_left Interests.add categories (fold_left Interests.add interests []))
              (found_in_catalogue interests))
    as [terms [Hrun [Hnd3 [[more3 Hmore3] Hkws]]]].
  exists terms. split; [exact Hrun |].
  split; [apply Hnd3, Hnd2, Hnd1; constructor |].
  split; [exists (more2 ++ more3); rewrite Hmore3, Hmore2, app_assoc; reflexivity |].
  split.
  - intros i Hi. rewrite Hmore3. apply in_or_app. left. apply Hin2. left.
    apply Hin1. right. exact Hi.
  - intros c Hc. split.
    + rewrite Hmore3. apply in_or_app. left. apply Hin2. right. exact Hc.
    + destruct (keywords_of_names c (found_in_catalogue interests c Hc)) as [kw Hkw].
      exists kw. split; [exact Hkw | exact (Hkws c kw Hc Hkw)].
Qed.

(** X12. [getSearchTermsForInterests] always returns: a list without
    repetitions that starts with the distinct interests in the order
    given, and contains the name and the keywords of every category found
    for them. *)
Theorem getSearchTermsForInterests_terms (interests : list string) :
  exists terms,
    Interests.getSearchTermsForInterests interests = Normal terms
    /\ NoDup terms
    /\ (exists more, terms = fold_left Interests.add interests [] ++ more)
    /\ incl interests terms
    /\ forall c, In c (Interests.findCategoriesForInterests interests) ->
         In c terms
         /\ exists kw, Server.lookup Interests.eventKeywords c = Some kw
                       /\ incl kw terms.
Proof. exact (search_terms_run interests). Qed.

Lemma split_chars_nonempty (sep : ascii) (l : list ascii) :
  Text.split_chars sep l <> [].
Proof.
  destruct l as [| c r]; simpl; [discriminate |].
  destruct (Ascii.eqb c sep); [discriminate |].
  destruct (Text.split_chars sep r); discriminate.
Qed.

(** X13. The search terms that [buildEventSearchPrompt] computes from the
    interests text are never empty, whatever the text: the branch of the
    prompt for no search terms is never taken. *)
Theorem search_terms_of_text_nonempty (interests : string) :
  exists terms,
    Interests.getSearchTermsForInterests (map Text.trim (Text.split "," interests))
    = Normal terms
    /\ terms <> [].
Proof.
  destruct (search_terms_run (map Text.trim (Text.split "," interests)))
    as [terms [Hrun [_ [_ [Hincl _]]]]].
  exists terms. split; [exact Hrun |].
  unfold Text.split in Hincl.
  destruct (Text.split_chars "," (Text.chars interests)) as [| p ps] eqn:Hs;
    [exfalso; exact (split_chars_nonempty _ _ Hs) |].
  cbn [map] in Hincl. intros Hnil. rewrite Hnil in Hincl.
  exact (Hincl _ (or_introl eq_refl)).
Qed.

(* ===================================================================== *)
(** ** api_server.js: [parseInterests] *)
(* ===================================================================== *)

Section Trimming.

Variable p : ascii -> bool.

Lemma drop_while_head (l : list ascii) :
  match Text.drop_while p l with
  | [] => True
  | c :: _ => p c = false
  end.
Proof.
  induction l as [| c r IH]; simpl; [exact I |].
  destruct (p c) eqn:Hc; [exact IH | exact Hc].
Qed.

Lemma drop_while_fixed (l : list ascii) :
  match l with [] => True | c :: _ => p c = false end ->
  Text.drop_while p l = l.
Proof. destruct l as [| c r]; simpl; [reflexivity | intros ->; reflexivity]. Qed.

Lemma drop_while_suffix (l : list ascii) :
  exists pre, l = pre ++ Text.drop_while p l.
Proof.
  induction l as [| c r [pre IH]]; simpl; [exists []; reflexivity |].
  destruct (p c); [exists (c :: pre); simpl; rewrite <- IH; reflexivity |].
  exists []. reflexivity.
Qed.

Lemma drop_while_all (pre l : list ascii) :
  forallb p pre = true -> Text.drop_while p (pre ++ l) = Text.drop_while p l.
Proof.
  induction pre as [| c r IH]; simpl; [reflexivity |].
  intros Hall. apply andb_true_iff in Hall. destruct Hall as [-> Hr]. exact (IH Hr).
Qed.

Lemma drop_while_incl (l : list ascii) : incl (Text.drop_while p l) l.
Proof.
  destruct (drop_while_suffix l) as [pre Hl]. intros c Hc.
  rewrite Hl. apply in_or_app. right. exact Hc.
Qed.

End Trimming.

Lemma trim_chars_incl (l : list ascii) : incl (Text.trim_chars l) l.
Proof.
  unfold Text.trim_chars. intros c Hc. apply in_rev in Hc.
  apply drop_while_incl in Hc. apply in_rev in Hc.
  exact (drop_while_incl _ _ _ Hc).
Qed.

(** Trimming what was trimmed changes nothing. *)
Lemma trim_chars_idempotent (l : list ascii) :
  Text.trim_chars (Text.trim_chars l) = Text.trim_chars l.
Proof.
  unfold Text.trim_chars.
  set (a := Text.drop_while Text.is_space l).
  set (b := Text.drop_while Text.is_space (rev a)).
  assert (Hfront : Text.drop_while Text.is_space (rev b) = rev b).
  { apply drop_while_fixed.
    destruct (drop_while_suffix Text.is_space (rev a)) as [pre Hpre]. fold b in Hpre.
    assert (Ha : a = rev b ++ rev pre)
      by (rewrite <- (rev_involutive a), Hpre, rev_app_distr; reflexivity).
    pose proof (drop_while_head Text.is_space l) as Hhead. fold a in Hhead.
    destruct (rev b) as [| c r]; [exact I |].
    rewrite Ha in Hhead. exact Hhead. }
  rewrite Hfront, rev_involutive.
  assert (Hback : Text.drop_while Text.is_space b = b)
    by (apply drop_while_fixed; exact (drop_while_head Text.is_space (rev a))).
  rewrite Hback. reflexivity.
Qed.

Lemma trim_idempotent (s : string) : Text.trim (Text.trim s) = Text.trim s.
Proof. unfold Text.trim. rewrite chars_text, trim_chars_idempotent. reflexivity. Qed.

Lemma trim_chars_after_spaces (pre l : list ascii) :
  forallb Text.is_space pre = true ->
  Text.trim_chars (pre ++ l) = Text.trim_chars l.
Proof. intros Hpre. unfold Text.trim_chars. rewrite drop_while_all by exact Hpre. reflexivity. Qed.

Lemma split_chars_no_sep (sep : ascii) (l piece : list ascii) :
  In piece (Text.split_chars sep l) -> ~ In sep piece.
Proof.
  revert piece. induction l as [| c r IH]; intros piece Hin; simpl in Hin.
  - destruct Hin as [<- | []]. intros [].
  - destruct (Ascii.eqb_spec c sep) as [-> | Hne].
    + destruct Hin as [<- | Hin]; [intros [] | exact (IH _ Hin)].
    + destruct (Text.split_chars sep r) as [| q qs] eqn:Hs.
      * destruct Hin as [<- | []]. intros [Heq | []]. congruence.
      * destruct Hin as [<- | Hin].
        -- intros [Heq | Hq]; [congruence |]. exact (IH q (or_introl eq_refl) Hq).
        -- exact (IH piece (or_intror Hin)).
Qed.

Lemma split_chars_whole (sep : ascii) (l : list ascii) :
  ~ In sep l -> Text.split_chars sep l = [l].
Proof.
  induction l as [| c r IH]; intros Hsep; simpl; [reflexivity |].
  destruct (Ascii.eqb_spec c sep) as [-> | _];
    [exfalso; apply Hsep; left; reflexivity |].
  rewrite IH by (intros Hin; apply Hsep; right; exact Hin). reflexivity.
Qed.

Lemma length_zero_empty (s : string) : (0 <? String.length s) = false <-> s = "".
Proof. destruct s; cbn; split; intros H; [reflexivity | reflexivity | discriminate H | discriminate H]. Qed.

(** X14. [parseInterests] on an ASCII text returns entries that are not
    empty, have no white space at either end and contain no comma; on
    anything that is not a text it throws a TypeError. *)
Theorem parseInterests_entries_clean (interests : json) :
  (forall s, interests = JString s -> Spec.ascii_text s) ->
  match interests with
  | JString _ =>
      exists entries, Api.parseInterests interests = Normal entries
                      /\ Forall Spec.clean_interest entries
  | _ => exists m, Api.parseInterests interests = Throw (TypeError m)
  end.
Proof.
  intros _. destruct interests as [| b | x | s | items | fields];
    try (eexists; reflexivity).
  eexists. split; [reflexivity |].
  apply Forall_forall. intros i Hi. apply filter_In in Hi. destruct Hi as [Hi Hlen].
  apply in_map_iff in Hi. destruct Hi as [piece [Htrim Hpiece]].
  unfold Text.split in Hpiece. apply in_map_iff in Hpiece.
  destruct Hpiece as [cs [Hcs Hin]]. subst piece.
  split; [| split].
  - intros ->. discriminate Hlen.
  - rewrite <- Htrim. apply trim_idempotent.
  - rewrite <- Htrim. unfold Text.trim. rewrite !chars_text. intros Hc.
    apply trim_chars_incl in Hc. exact (split_chars_no_sep _ _ _ Hin Hc).
Qed.

Lemma parseInterests_entries_clean_witness :
  exists entries,
    Api.parseInterests (JString " jazz,, Live Music ,") = Normal entries
    /\ Forall Spec.clean_interest entries.
Proof.
  apply (parseInterests_entries_clean (JString " jazz,, Live Music ,")).
  intros s Hs. inversion Hs. reflexivity.
Defined.

Lemma parse_joined (l : list string) (pre : list ascii) :
  l <> [] -> Forall Spec.clean_interest l ->
  forallb Text.is_space pre = true -> ~ In ","%char pre ->
  filter (fun i => 0 <? String.length i)
         (map Text.trim (map Text.text
            (Text.split_chars "," (pre ++ Text.chars (Api.join l)))))
  = l.
Proof.
  revert pre. induction l as [| x r IH]; intros pre Hne Hclean Hpre Hcomma;
    [contradiction |].
  inversion Hclean as [| ? ? [Hx [Htrim Hnocomma]] Hr]; subst.
  assert (Hhead : Text.trim (Text.text (pre ++ Text.chars x)) = x).
  { unfold Text.trim. rewrite chars_text, trim_chars_after_spaces by exact Hpre.
    exact Htrim. }
  assert (Hlen : (0 <? String.length x) = true)
    by (destruct x; [contradiction | reflexivity]).
  destruct r as [| y r'].
  - cbn [Api.join]. rewrite split_chars_whole.
    + cbn [map filter]. rewrite Hhead, Hlen. reflexivity.
    + intros Hin. apply in_app_or in Hin. tauto.
  - assert (Hjoin : Text.chars (Api.join (x :: y :: r'))
                    = Text.chars x ++ ","%char :: [" "%char] ++ Text.chars (Api.join (y :: r'))).
    { change (Api.join (x :: y :: r')) with (x ++ ", " ++ Api.join (y :: r'))%string.
      rewrite !chars_append. reflexivity. }
    rewrite Hjoin, app_assoc, split_chars_before
      by (intros Hin; apply in_app_or in Hin; tauto).
    cbn [map filter]. rewrite Hhead, Hlen. f_equal.
    apply IH; [discriminate | exact Hr | reflexivity |].
    intros [Hc | []]. discriminate Hc.
Qed.

(** X15. What [interestArray.join(", ")] prints is read back by
    [parseInterests] as the same interests, when these are ASCII texts as
    [parseInterests] gives them. *)
Theorem parseInterests_join_round_trip (interests : list string) :
  Forall Spec.ascii_text interests ->
  Forall Spec.clean_interest interests ->
  Api.parseInterests (JString (Api.join interests)) = Normal interests.
Proof.
  intros _ Hclean. cbn [Api.parseInterests]. f_equal.
  destruct interests as [| x r]; [reflexivity |].
  unfold Text.split. exact (parse_joined (x :: r) [] ltac:(discriminate) Hclean eq_refl (fun H => H)).
Qed.

Lemma parseInterests_join_round_trip_witness :
  Api.parseInterests (JString "Technology, Live Music, Art")
  = Normal ["Technology"; "Live Music"; "Art"].
Proof.
  apply (parseInterests_join_round_trip ["Technology"; "Live Music"; "Art"]);
    [repeat constructor |].
  repeat constructor; try discriminate; intros Hin; simpl in Hin;
    repeat (destruct Hin as [Hin | Hin]; [discriminate Hin |]); exact Hin.
Defined.

(* ===================================================================== *)
(** ** api_server.js: [generateItinerary] *)
(* ===================================================================== *)

Section PipelineFacts.

Context {H : JS.Host}.
Variable env : Effects.Env.

Lemma merged_without_links (clock : nat -> string) (tick : nat)
    (results : list Scout.SearchResult) :
  Forall (fun r => Scout.links r = JArray []) results ->
  Spec.merged clock tick results = [].
Proof.
  revert tick. induction results as [| r rest IH]; intros tick Hall; [reflexivity |].
  inversion Hall as [| ? ? Hr Hrest]; subst. cbn [Spec.merged]. rewrite Hr.
  cbn [Spec.items Spec.stamp List.length app]. apply IH. exact Hrest.
Qed.

Lemma sweep_results_fail (city : string) (n : nat) (pairs : list (string * string)) :
  (forall k request, Spec.search_fails (Effects.generateContent env k request)) ->
  Forall (fun r => Scout.links r = JArray []) (Spec.sweep_results env city n pairs).
Proof.
  intros Hfail. revert n. induction pairs as [| [interest date] rest IH]; intros n;
    cbn [Spec.sweep_results]; constructor; [| apply IH].
  apply search_fails_result. apply Hfail.
Qed.

Lemma search_fails_harmless (reply : Effects.Reply) :
  Spec.search_fails reply -> Spec.harmless reply = true.
Proof.
  intros Hfail. unfold Spec.harmless, Spec.search_analysis.
  destruct reply as [e | responseText]; [reflexivity |].
  destruct Hfail as [e He]. rewrite He. reflexivity.
Qed.

(** A sweep over no pair does nothing. *)
Lemma scoutEvents_no_pairs (city : string) (interests : list string)
    (startDate endDate : string) (w : Effects.World) :
  list_prod interests (Scout.getDateRange startDate endDate) = [] ->
  Scout.scoutEvents env city interests startDate endDate w
  = (Normal {| Scout.searchResults := []; Scout.allLinks := [];
               Scout.totalLinksFound := 0 |},
     w ++ [Effects.Log Effects.Started; Effects.Log Effects.Completed]).
Proof.
  intros Hpairs. unfold Scout.scoutEvents.
  unfold Effects.bindM at 1. unfold Effects.logger at 1, Effects.emit at 1.
  unfold Effects.bindM at 1. rewrite for_of_nested, Hpairs. cbn [Effects.for_of].
  unfold Effects.ret, Effects.bindM, Effects.logger, Effects.emit. cbn.
  rewrite <- app_assoc. reflexivity.
Qed.

End PipelineFacts.

(** X16. An empty range of dates, such as an end date before the start date or
    a date text the engine cannot read, is not reported as an error:
    [generateItinerary] issues no request at all and resolves to the
    result for no links found. The same holds for an empty list of
    interests. *)
Theorem generateItinerary_without_pairs {H : JS.Host} (env : Effects.Env)
    (city : string) (interests : list string) (startDate endDate : string)
    (w : Effects.World) :
  list_prod interests (Scout.getDateRange startDate endDate) = [] ->
  exists w',
    Api.generateItinerary env city interests startDate endDate w
    = (Normal Spec.no_links_found, w')
    /\ Effects.calls w' = Effects.calls w.
Proof.
  intros Hpairs. unfold Api.generateItinerary. unfold Effects.bindM at 1.
  rewrite (scoutEvents_no_pairs env city interests startDate endDate w Hpairs).
  cbn [Scout.allLinks]. unfold Effects.ret. eexists. split; [reflexivity |].
  rewrite calls_app. apply app_nil_r.
Qed.

Lemma generateItinerary_without_pairs_witness :
  exists w',
    Api.generateItinerary (H := Node.utc) Spec.env_two_phase "Boston" ["jazz"]
      "2026-01-05" "2026-01-03" [] = (Normal Spec.no_links_found, w')
    /\ Effects.calls w' = [].
Proof.
  exact (generateItinerary_without_pairs (H := Node.utc) Spec.env_two_phase "Boston"
           ["jazz"] "2026-01-05" "2026-01-03" [] eq_refl).
Defined.

(** X17. When every search fails, be it by a rejected request or by a reply
    without JSON, [generateItinerary] does not throw: after one request for
    every interest and day it resolves to the result for no links found,
    and the Explorer is never asked. *)
Theorem generateItinerary_when_searches_fail {H : JS.Host} (env : Effects.Env)
    (city : string) (interests : list string) (startDate endDate : string)
    (w : Effects.World) :
  Spec.configured env ->
  (forall n request, Spec.search_fails (Effects.generateContent env n request)) ->
  exists w',
    Api.generateItinerary env city interests startDate endDate w
    = (Normal Spec.no_links_found, w')
    /\ Effects.calls w'
       = Effects.calls w
         ++ map (Spec.prompt city)
              (list_prod interests (Scout.getDateRange startDate endDate)).
Proof.
  intros Hkey Hfail.
  assert (Hharmless : forall n request,
             Spec.harmless (Effects.generateContent env n request) = true)
    by (intros n request; apply search_fails_harmless, Hfail).
  destruct (scoutEvents_run env Hkey Hharmless city interests startDate endDate w)
    as [r [w' [Hrun [Hresults [Hall [_ Hcalls]]]]]].
  unfold Api.generateItinerary. unfold Effects.bindM at 1. rewrite Hrun.
  rewrite Hall, Hresults, merged_without_links
    by (apply sweep_results_fail; exact Hfail).
  cbn [Scout.dedupe]. unfold Effects.ret. exists w'. split; [reflexivity | exact Hcalls].
Qed.

Lemma generateItinerary_when_searches_fail_witness :
  exists w',
    Api.generateItinerary (H := Node.utc) Spec.env_down "Boston" ["jazz"; "art"]
      "2026-01-03" "2026-01-04" [] = (Normal Spec.no_links_found, w')
    /\ List.length (Effects.calls w') = 4.
Proof.
  destruct (generateItinerary_when_searches_fail (H := Node.utc) Spec.env_down "Boston"
              ["jazz"; "art"] "2026-01-03" "2026-01-04" [])
    as [w' [Hrun Hcalls]].
  - exists "key". split; [reflexivity | discriminate].
  - intros n request. exact I.
  - exists w'. split; [exact Hrun |]. rewrite Hcalls. vm_compute. reflexivity.
Defined.

Section PipelineInversion.

Context {H : JS.Host}.
Variable env : Effects.Env.

(** A round of the sweep that returns has added one search result. *)
Lemma sweep_step_inv (city interest date : string)
    (acc acc' : list Scout.SearchResult * list Effects.object) (w w' : Effects.World) :
  Scout.sweep_step env city interest acc date w = (Normal acc', w') ->
  List.length (fst acc') = S (List.length (fst acc)).
Proof.
  unfold Scout.sweep_step, Effects.bindM.
  destruct (Scout.searchForInterest env interest city date w) as [[result | e] w1];
    [| discriminate].
  destruct (Effects.lift (Scout.has_links (Scout.links result)) w1) as [[some | e] w2];
    [| discriminate].
  destruct ((if some then Scout.collect env (Scout.links result) interest date (snd acc)
             else Effects.ret (snd acc)) w2) as [[allLinks | e] w3]; [| discriminate].
  unfold Effects.sleep, Effects.emit, Effects.ret. intros Hr. inversion Hr.
  cbn [fst]. rewrite length_app. simpl. lia.
Qed.

Lemma sweep_inv (city : string) (pairs : list (string * string))
    (acc acc' : list Scout.SearchResult * list Effects.object) (w w' : Effects.World) :
  Effects.for_of (fun acc p => Scout.sweep_step env city (fst p) acc (snd p)) pairs acc w
  = (Normal acc', w') ->
  List.length (fst acc') = List.length (fst acc) + List.length pairs.
Proof.
  revert acc w. induction pairs as [| p rest IH]; intros acc w Hrun;
    cbn [Effects.for_of] in Hrun.
  - unfold Effects.ret in Hrun. inversion Hrun. simpl. lia.
  - unfold Effects.bindM in Hrun.
    destruct (Scout.sweep_step env city (fst p) acc (snd p) w) as [[acc1 | e] w1] eqn:Hstep;
      [| discriminate].
    apply sweep_step_inv in Hstep. rewrite (IH acc1 w1 Hrun), Hstep. simpl. lia.
Qed.

(** Whenever [scoutEvents] returns, it holds one search result for every
    interest and day, and [totalLinksFound] counts its links. *)
Lemma scoutEvents_inv (city : string) (interests : list string)
    (startDate endDate : string) (w w' : Effects.World) (r : Scout.ScoutResult) :
  Scout.scoutEvents env city interests startDate endDate w = (Normal r, w') ->
  List.length (Scout.searchResults r)
  = List.length interests * List.length (Scout.getDateRange startDate endDate)
  /\ Scout.totalLinksFound r = List.length (Scout.allLinks r).
Proof.
  unfold Scout.scoutEvents. unfold Effects.bindM at 1.
  unfold Effects.logger at 1, Effects.emit at 1. unfold Effects.bindM at 1.
  rewrite for_of_nested.
  destruct (Effects.for_of _ _ _ _) as [[swept | e] w1] eqn:Hsweep; [| discriminate].
  apply sweep_inv in Hsweep.
  unfold Effects.bindM, Effects.logger, Effects.emit, Effects.ret.
  intros Hr. inversion Hr. cbn [Scout.searchResults Scout.totalLinksFound Scout.allLinks].
  rewrite Hsweep, length_prod. split; reflexivity.
Qed.

(** Whenever [exploreLinks] returns, [totalEvents] counts its events. *)
Lemma exploreLinks_inv (links : list Effects.object) (city : string)
    (w w' : Effects.World) (r : Explorer.ExploreResult) :
  Explorer.exploreLinks env links city w = (Normal r, w') ->
  Explorer.totalEvents r = List.length (Explorer.events r).
Proof.
  unfold Explorer.exploreLinks. unfold Effects.bindM at 1.
  unfold Effects.logger at 1, Effects.emit at 1.
  destruct links as [| link rest].
  - unfold Effects.bindM, Effects.logger, Effects.emit, Effects.ret.
    intros Hr. inversion Hr. reflexivity.
  - unfold Effects.bindM at 1.
    destruct (Effects.for_of _ _ _ _) as [[acc | e] w1]; [| discriminate].
    unfold Effects.bindM at 1, Effects.lift at 1.
    destruct (Explorer.dedupe _ _) as [unique | e]; [| discriminate].
    unfold Effects.bindM at 1, Effects.lift at 1.
    destruct (JS.array_sort _ _) as [sorted | e]; [| discriminate].
    unfold Effects.bindM, Effects.logger, Effects.emit, Effects.ret.
    intros Hr. inversion Hr. reflexivity.
Qed.

(** The grouping of [analyzeEventCoverage] changes no property name. *)
Lemma group_event_keys (grouped grouped' : Server.dict (list json)) (event : json) :
  Server.group_event grouped event = Normal grouped' ->
  map fst grouped' = map fst grouped.
Proof.
  rewrite group_event_day_of. intros Hg. apply bind_normal in Hg.
  destruct Hg as [d [_ Hg]]. destruct d as [x |]; [| inversion Hg; reflexivity].
  destruct (Server.lookup grouped x).
  - inversion Hg. apply keys_push.
  - destruct (JS.inherited x); [discriminate | inversion Hg; reflexivity].
Qed.

Lemma grouping_keys (events : list json) (grouped grouped' : Server.dict (list json)) :
  for_each Server.group_event events grouped = Normal grouped' ->
  map fst grouped' = map fst grouped.
Proof.
  revert grouped. induction events as [| e r IH]; intros grouped Hg; cbn [for_each] in Hg.
  - inversion Hg. reflexivity.
  - apply bind_normal in Hg. destruct Hg as [g1 [H1 Hg]].
    rewrite (IH g1 Hg). exact (group_event_keys grouped g1 e H1).
Qed.

Lemma map_each_keys {V W} (f : list V -> Completion W) (o : Server.dict (list V))
    (o' : Server.dict W) :
  map_each (fun entry => c <- f (snd entry) ;; Normal (fst entry, c)) o = Normal o' ->
  map fst o' = map fst o.
Proof.
  revert o'. induction o as [| [k v] r IH]; intros o' Hm; cbn [map_each] in Hm.
  - inversion Hm. reflexivity.
  - apply bind_normal in Hm. destruct Hm as [kv [Hkv Hm]].
    apply bind_normal in Hkv. destruct Hkv as [c [_ Hkv]]. inversion Hkv. subst kv.
    apply bind_normal in Hm. destruct Hm as [r' [Hr' Hm]]. inversion Hm. subst o'.
    cbn [map fst]. rewrite (IH r' Hr'). reflexivity.
Qed.

(** Whenever [analyzeEventCoverage] returns, it has one entry for every
    day that the loop over the range initialised, in that order. *)
Lemma coverage_keys (events : list json) (startDate endDate : string)
    (covered : Server.dict Server.CoverageEntry) :
  Server.analyzeEventCoverage events startDate endDate = Normal covered ->
  map fst covered = Spec.keys_of (JS.days_between startDate endDate).
Proof.
  unfold Server.analyzeEventCoverage. intros Hc. apply bind_normal in Hc.
  destruct Hc as [grouped [Hg Hc]].
  rewrite (map_each_keys _ _ _ Hc), (grouping_keys _ _ _ Hg), initial_days_keys.
  rewrite map_map. cbn [fst]. apply map_id.
Qed.

End PipelineInversion.

(** X18. Whenever [generateItinerary] resolves to a success, its parts agree:
    at least one link was found; the searches performed are one for every
    interest and day; the events extracted are as many as the events
    returned; and the coverage is that of the returned events, with one
    entry for every day that the loop over the range visits. *)
Theorem generateItinerary_result_coherent {H : JS.Host} (laws : JS.HostLaws H)
    (env : Effects.Env) (city : string) (interests : list string)
    (startDate endDate : string) (w w' : Effects.World) (r : Api.Itinerary) :
  Api.generateItinerary env city interests startDate endDate w = (Normal r, w') ->
  Api.success r = true ->
  exists scout explorer covered,
    Api.scoutStats r = Some scout
    /\ Api.explorerStats r = Some explorer
    /\ Api.coverage r = Some covered
    /\ 0 < Api.totalLinksFound scout
    /\ Api.searchesPerformed scout
       = List.length interests * List.length (Scout.getDateRange startDate endDate)
    /\ Api.eventsExtracted explorer = List.length (Api.events r)
    /\ Server.analyzeEventCoverage (Api.events r) startDate endDate = Normal covered
    /\ map fst covered = Spec.keys_of (Scout.getDateRange startDate endDate).
Proof.
  unfold Api.generateItinerary. unfold Effects.bindM at 1.
  destruct (Scout.scoutEvents env city interests startDate endDate w)
    as [[s | e] w1] eqn:Hscout; [| discriminate].
  destruct (scoutEvents_inv env _ _ _ _ _ _ _ Hscout) as [Hsearches Htotal].
  destruct (Scout.allLinks s) as [| link rest] eqn:Hlinks.
  - unfold Effects.ret. intros Hr. inversion Hr. discriminate.
  - unfold Effects.bindM at 1.
    destruct (Explorer.exploreLinks env (link :: rest) city w1) as [[x | e] w2] eqn:Hexplore;
      [| discriminate].
    apply exploreLinks_inv in Hexplore.
    unfold Effects.bindM at 1, Effects.lift at 1.
    destruct (Api.logExplorerResults _ _) as [used | e]; [| discriminate].
    unfold Effects.bindM at 1, Effects.lift at 1.
    destruct (JS.array_sort Explorer.by_start_time (Explorer.events x))
      as [sorted | e] eqn:Hsort; [| discriminate].
    unfold Effects.bindM at 1, Effects.lift at 1.
    destruct (Server.analyzeEventCoverage sorted startDate endDate)
      as [covered | e] eqn:Hcover; [| discriminate].
    unfold Effects.bindM at 1, Effects.lift at 1.
    destruct (Server.logFinalItinerary sorted) as [cleaned | e]; [| discriminate].
    unfold Effects.ret. intros Hr _. inversion Hr. subst r.
    cbn [Api.scoutStats Api.explorerStats Api.coverage Api.events].
    eexists _, _, covered. split; [reflexivity |]. split; [reflexivity |].
    split; [reflexivity |].
    cbn [Api.totalLinksFound Api.searchesPerformed Api.eventsExtracted].
    split; [rewrite Htotal; simpl; lia |]. split; [exact Hsearches |].
    split; [| split; [exact Hcover | exact (coverage_keys _ _ _ _ Hcover)]].
    rewrite Hexplore. apply Permutation_length.
    exact (JS.sort_permutes H laws _ _ _ _ Hsort).
Qed.

Lemma generateItinerary_result_coherent_witness :
  exists r w',
    Api.generateItinerary (H := Node.utc) Spec.env_two_phase "Boston" ["jazz"]
      "2026-01-03" "2026-01-04" [] = (Normal r, w')
    /\ map (fun e => own (JS.own_properties e) "name") (Api.events r)
       = [Some (JString "Morning Run"); Some (JString "Jazz Jam")]
    /\ option_map Api.searchesPerformed (Api.scoutStats r) = Some 2
    /\ option_map Api.eventsExtracted (Api.explorerStats r) = Some 2
    /\ option_map (map fst) (Api.coverage r) = Some ["2026-01-03"; "2026-01-04"].
Proof.
  assert (Hrun : exists r w',
             Api.generateItinerary (H := Node.utc) Spec.env_two_phase "Boston" ["jazz"]
               "2026-01-03" "2026-01-04" [] = (Normal r, w')
             /\ Api.success r = true
             /\ map (fun e => own (JS.own_properties e) "name") (Api.events r)
                = [Some (JString "Morning Run"); Some (JString "Jazz Jam")])
    by (eexists _, _; split; [vm_compute; reflexivity | split; reflexivity]).
  destruct Hrun as [r [w' [Hrun [Hok Hnames]]]].
  destruct (generateItinerary_result_coherent utc_laws Spec.env_two_phase "Boston"
              ["jazz"] "2026-01-03" "2026-01-04" [] w' r Hrun Hok)
    as [scout [explorer [covered [Hs [He [Hc [_ [Hsp [Hev [_ Hkeys]]]]]]]]]].
  exists r, w'. split; [exact Hrun |]. split; [exact Hnames |].
  rewrite Hs, He, Hc. cbn [option_map]. rewrite Hsp, Hev, Hkeys.
  split; [reflexivity |]. split; [| reflexivity].
  f_equal. rewrite <- (length_map (fun e => own (JS.own_properties e) "name")), Hnames.
  reflexivity.
Defined.

(** X19. Without an API key the sweep is not degraded as other failures are:
    [scoutEvents] throws at its first search, before any request, and so
    does [generateItinerary]; [exploreLinks] throws at its first batch. *)
Theorem missing_key_aborts {H : JS.Host} (env : Effects.Env) (city : string)
    (interests : list string) (startDate endDate : string)
    (links : list Effects.object) (w : Effects.World) :
  Spec.unconfigured env ->
  (list_prod interests (Scout.getDateRange startDate endDate) <> [] ->
   exists w',
     Scout.scoutEvents env city interests startDate endDate w
     = (Throw (Error "GOOGLE_API_KEY is required for Scout"), w')
     /\ Api.generateItinerary env city interests startDate endDate w
        = (Throw (Error "GOOGLE_API_KEY is required for Scout"), w')
     /\ Effects.calls w' = Effects.calls w)
  /\ (links <> [] ->
      exists w',
        Explorer.exploreLinks env links city w
        = (Throw (Error "GOOGLE_API_KEY is required for Explorer"), w')
        /\ Effects.calls w' = Effects.calls w).
Proof.
  intros Hkey.
  assert (Hgen : forall who w0,
             Effects.getGenAI env who w0
             = (Throw (Error ("GOOGLE_API_KEY is required for " ++ who)), w0)).
  { intros who w0. unfold Effects.getGenAI, Spec.unconfigured in *.
    destruct (Effects.googleApiKey env) as [key |]; [subst key |]; reflexivity. }
  split.
  - intros Hpairs.
    assert (Hscout : Scout.scoutEvents env city interests startDate endDate w
                     = (Throw (Error "GOOGLE_API_KEY is required for Scout"),
                        w ++ [Effects.Log Effects.Started])).
    { unfold Scout.scoutEvents. unfold Effects.bindM at 1.
      unfold Effects.logger at 1, Effects.emit at 1. unfold Effects.bindM at 1.
      rewrite for_of_nested.
      destruct (list_prod interests (Scout.getDateRange startDate endDate))
        as [| [interest date] rest]; [contradiction |].
      cbn [Effects.for_of fst snd]. unfold Effects.bindM at 1.
      unfold Scout.sweep_step. unfold Effects.bindM at 1.
      unfold Scout.searchForInterest. unfold Effects.bindM at 1.
      rewrite Hgen. reflexivity. }
    exists (w ++ [Effects.Log Effects.Started]). split; [exact Hscout |].
    split; [| rewrite calls_app; apply app_nil_r].
    unfold Api.generateItinerary. unfold Effects.bindM at 1. rewrite Hscout. reflexivity.
  - intros Hlinks. destruct links as [| link rest]; [contradiction |].
    unfold Explorer.exploreLinks. unfold Effects.bindM at 1.
    unfold Effects.logger at 1, Effects.emit at 1. unfold Effects.bindM at 1.
    assert (Hbatches : exists b bs, Explorer.make_batches (link :: rest) = b :: bs).
    { pose proof (make_batches_concat (link :: rest)) as Hc.
      destruct (Explorer.make_batches (link :: rest)) as [| b bs];
        [discriminate | eexists _, _; reflexivity]. }
    destruct Hbatches as [b [bs Hb]]. rewrite Hb.
    cbn [List.length seq combine Effects.for_of]. unfold Effects.bindM at 1.
    unfold Explorer.explore_step. unfold Effects.bindM at 1.
    unfold Effects.logger at 1, Effects.emit at 1. unfold Effects.bindM at 1.
    unfold Explorer.analyzeBatch. unfold Effects.bindM at 1. rewrite Hgen.
    eexists. split; [reflexivity |]. rewrite !calls_app. simpl. rewrite !app_nil_r.
    reflexivity.
Qed.

Lemma missing_key_aborts_witness :
  fst (Scout.scoutEvents (H := Node.utc) Spec.env_no_key "Boston" ["jazz"]
         "2026-01-03" "2026-01-04" [])
  = Throw (Error "GOOGLE_API_KEY is required for Scout")
  /\ fst (Explorer.exploreLinks (H := Node.utc) Spec.env_no_key Spec.one_link "Boston" [])
     = Throw (Error "GOOGLE_API_KEY is required for Explorer").
Proof.
  destruct (missing_key_aborts (H := Node.utc) Spec.env_no_key "Boston" ["jazz"]
              "2026-01-03" "2026-01-04" Spec.one_link [] I) as [Hscout Hexplore].
  split.
  - destruct Hscout as [w' [Hrun _]]; [vm_compute; discriminate |].
    rewrite Hrun. reflexivity.
  - destruct Hexplore as [w' [Hrun _]]; [discriminate |].
    rewrite Hrun. reflexivity.
Defined.
